(** * Detection session lifecycle, event queries and integrity scoring

    A shallow embedding of the proctoring system's core:
    - [detection/models.py]  : the [EventLog] table and its declared event types;
    - [reports/models.py], [reports/views.py] : the [Report] aggregate and its score;
    - [detection/detection_engine.py] : the session thread, the global registry
      [active_detection_threads] and the query functions;
    - [interviews/views.py], [detection/views.py] : the views that drive the
      engine; [reports/utils.py] : what the printed report decides.

    Conventions.  Python [int] is [Z].  Wall-clock readings ([time.time()],
    [timezone.now()]) are exact rationals [Q], in seconds; a confidence is
    the rational its binary64 value denotes.
    Strings are [string].  The registry dictionary is a [gmap] from interview
    id to a thread reference; thread objects live in a heap (a list indexed
    by reference), so that two names for one thread alias. *)

From stdpp Require Import gmap strings list fin_maps pretty.
From Stdlib Require Import QArith Qround Qabs Lqa Sorted.

Open Scope Z_scope.

(** ** detection/models.py *)

Module models.

(** One row of the [EventLog] table.  [pk] is Django's implicit
    auto-increment primary key, [timestamp] is [auto_now_add]. *)
Record EventLog := {
  pk : Z;
  interview : Z;
  event_type : string;
  timestamp : Q;
  description : string;
  confidence_score : Q }.

Definition EVENT_TYPE_CHOICES : list (string * string) :=
  [ ("focus_lost", "Focus Lost");
    ("no_face", "No Face Detected");
    ("multiple_faces", "Multiple Faces Detected");
    ("phone_detected", "Phone Detected");
    ("notes_detected", "Notes Detected");
    ("device_detected", "Device Detected");
    ("drowsiness", "Drowsiness Detected");
    ("audio_anomaly", "Audio Anomaly") ].

(** The stored values of the declared choices. *)
Definition event_type_values : list string := EVENT_TYPE_CHOICES.*1.

End models.

(** ** The part of Django's QuerySet interface the code calls

    The table is the list of its rows in insertion order.  [EventLog] declares
    no [Meta.ordering], so a queryset built with [filter] alone is unordered
    and [first()] orders it by primary key. *)

Module QuerySet.
Import models.

Definition filter_interview (i : Z) (qs : list EventLog) : list EventLog :=
  filter (λ e, interview e = i) qs.

Definition filter_event_type (ty : string) (qs : list EventLog) : list EventLog :=
  filter (λ e, event_type e = ty) qs.

Definition filter_event_type_in (tys : list string) (qs : list EventLog) : list EventLog :=
  filter (λ e, event_type e ∈ tys) qs.

Definition count (qs : list EventLog) : Z := Z.of_nat (length qs).

Definition exists_ (qs : list EventLog) : bool :=
  match qs with [] => false | _ => true end.

(** [first()] of an unordered queryset: the row with the least primary key. *)
Fixpoint first (qs : list EventLog) : option EventLog :=
  match qs with
  | [] => None
  | e :: rest =>
      match first rest with
      | Some e' => if pk e' <? pk e then Some e' else Some e
      | None => Some e
      end
  end.

(** The key the database gives the next row. *)
Definition next_pk (tbl : list EventLog) : Z :=
  1 + foldr (λ e m, Z.max (pk e) m) 0 tbl.

(** [EventLog.objects.create(...)] at database time [now]. *)
Definition create (now : Q) (i : Z) (ty desc : string) (conf : Q)
    (tbl : list EventLog) : list EventLog :=
  tbl ++ [ {| pk := next_pk tbl; interview := i; event_type := ty;
              timestamp := now; description := desc;
              confidence_score := conf |} ].

(** Rows appear in the order of their keys, as [create] leaves them. *)
Definition insertion_ordered (tbl : list EventLog) : Prop :=
  StronglySorted (λ a b, pk a < pk b) tbl.

End QuerySet.

(** ** reports/models.py and the report construction of reports/views.py *)

Module reports.
Import models.

Record Report := {
  interview : Z;
  focus_loss_count : Z;
  suspicious_events : Z;
  integrity_score : Z;
  focus_lost_events : Z;
  no_face_events : Z;
  multiple_faces_events : Z;
  phone_detected_events : Z;
  notes_detected_events : Z;
  device_detected_events : Z;
  drowsiness_events : Z;
  audio_anomaly_events : Z }.

Definition set_integrity_score (self : Report) (v : Z) : Report :=
  {| interview := interview self;
     focus_loss_count := focus_loss_count self;
     suspicious_events := suspicious_events self;
     integrity_score := v;
     focus_lost_events := focus_lost_events self;
     no_face_events := no_face_events self;
     multiple_faces_events := multiple_faces_events self;
     phone_detected_events := phone_detected_events self;
     notes_detected_events := notes_detected_events self;
     device_detected_events := device_detected_events self;
     drowsiness_events := drowsiness_events self;
     audio_anomaly_events := audio_anomaly_events self |}.

(** [Report.calculate_integrity_score]: stores the score in the report and
    returns it. *)
Definition calculate_integrity_score (self : Report) : Report * Z :=
  let base_score := 100 in
  let deductions := 0 in
  let deductions := deductions + focus_lost_events self * 2 in
  let deductions := deductions + suspicious_events self * 5 in
  let deductions := deductions + no_face_events self * 3 in
  let deductions := deductions + multiple_faces_events self * 8 in
  let deductions := deductions + phone_detected_events self * 10 in
  let deductions := deductions + notes_detected_events self * 8 in
  let deductions := deductions + device_detected_events self * 6 in
  let deductions := deductions + drowsiness_events self * 3 in
  let deductions := deductions + audio_anomaly_events self * 4 in
  let score := Z.max 0 (base_score - deductions) in
  (set_integrity_score self score, score).

(** The report [generate_report] builds from the interview's events, with
    its score calculated (reports/views.py). *)
Definition generate_report (i : Z) (tbl : list EventLog) : Report :=
  let events := QuerySet.filter_interview i tbl in
  let focus_lost_events :=
    QuerySet.count (QuerySet.filter_event_type "focus_lost" events) in
  let suspicious_events :=
    QuerySet.count (QuerySet.filter_event_type_in
      ["phone_detected"; "notes_detected"; "device_detected"; "multiple_faces"]
      events) in
  let report :=
    {| interview := i;
       focus_loss_count := focus_lost_events;
       suspicious_events := suspicious_events;
       integrity_score := 100;
       focus_lost_events := QuerySet.count (QuerySet.filter_event_type "focus_lost" events);
       no_face_events := QuerySet.count (QuerySet.filter_event_type "no_face" events);
       multiple_faces_events := QuerySet.count (QuerySet.filter_event_type "multiple_faces" events);
       phone_detected_events := QuerySet.count (QuerySet.filter_event_type "phone_detected" events);
       notes_detected_events := QuerySet.count (QuerySet.filter_event_type "notes_detected" events);
       device_detected_events := QuerySet.count (QuerySet.filter_event_type "device_detected" events);
       drowsiness_events := QuerySet.count (QuerySet.filter_event_type "drowsiness" events);
       audio_anomaly_events := QuerySet.count (QuerySet.filter_event_type "audio_anomaly" events) |} in
  (calculate_integrity_score report).1.

(** The nine counts the score reads, compared one by one. *)
Definition counts (r : Report) : list Z :=
  [ focus_lost_events r; suspicious_events r; no_face_events r;
    multiple_faces_events r; phone_detected_events r; notes_detected_events r;
    device_detected_events r; drowsiness_events r; audio_anomaly_events r ].

Definition counts_nonneg (r : Report) : Prop := Forall (λ c, 0 ≤ c) (counts r).

Definition counts_zero (r : Report) : Prop := Forall (λ c, c = 0) (counts r).

Definition counts_le (r r' : Report) : Prop := Forall2 Z.le (counts r) (counts r').

End reports.

(** ** detection/detection_engine.py: the session thread *)

Module detection_engine.
Import models.

(** The capabilities of the detection provider ([self._detect_*]). *)
Inductive ProviderCall :=
| DetectFocus | DetectFaces | DetectObjects | DetectDrowsiness.

(** The lines the code prints, one constructor per [print]. *)
Inductive Msg :=
| DetectionStarted (id : Z)
| NoLongerOngoing (id : Z)
| ErrorRefreshing
| DurationComplete (id : Z)
| DetectionStopped (id : Z)
| Logged (event_type description : string)
| ErrorLoggingEvent
| StartingDetection (id : Z)
| ThreadStarted (id : Z)
| AttemptingToStop (id : Z)
| FoundActiveThread (id : Z)
| DidNotStopCleanly (id : Z)
| StoppedSuccessfully (id : Z)
| NoActiveDetectionFound (id : Z)
| ForceRemovedTracking (id : Z)
| DetectionActive (id : Z) (active : bool)
| ActiveThreads (alive_count total_count : Z)
| CleanedUpInactive (id : Z)
| CleanupComplete (removed : Z)
| ForceStoppingAll
| ForceStopping (id : Z)
| AllForceStopped.

(** What a run does besides changing the stores, in program order.
    [Join tid timeout still_alive] also records whether the joined thread
    was still alive when the call returned. *)
Inductive Effect :=
| Print (m : Msg)
| Call (tid : nat) (c : ProviderCall)
| Wait (tid : nat) (timeout : Q)
| Join (tid : nat) (timeout : Q) (still_alive : bool).

(** A [DetectionThread] object together with the locals of its [run]. *)
Record DetectionThread := {
  interview : Z;
  duration_minutes : Z;
  _stop_event : bool;
  alive : bool;
  start_time : Q;
  focus_lost_start : option Q;
  no_face_start : option Q }.

Record World := {
  threads : list DetectionThread;
  active_detection_threads : gmap Z nat;
  interviews : gmap Z string;
  event_log : list EventLog;
  trace : list Effect }.

Definition set_threads (ts : list DetectionThread) (w : World) : World :=
  {| threads := ts; active_detection_threads := active_detection_threads w;
     interviews := interviews w; event_log := event_log w; trace := trace w |}.

Definition set_active_detection_threads (r : gmap Z nat) (w : World) : World :=
  {| threads := threads w; active_detection_threads := r;
     interviews := interviews w; event_log := event_log w; trace := trace w |}.

Definition set_interviews (ivs : gmap Z string) (w : World) : World :=
  {| threads := threads w; active_detection_threads := active_detection_threads w;
     interviews := ivs; event_log := event_log w; trace := trace w |}.

Definition set_event_log (tbl : list EventLog) (w : World) : World :=
  {| threads := threads w; active_detection_threads := active_detection_threads w;
     interviews := interviews w; event_log := tbl; trace := trace w |}.

Definition emit (e : Effect) (w : World) : World :=
  {| threads := threads w; active_detection_threads := active_detection_threads w;
     interviews := interviews w; event_log := event_log w;
     trace := trace w ++ [e] |}.

Definition set_thread (tid : nat) (t : DetectionThread) (w : World) : World :=
  set_threads (<[tid := t]> (threads w)) w.

Definition with_stop_event (b : bool) (t : DetectionThread) : DetectionThread :=
  {| interview := interview t; duration_minutes := duration_minutes t;
     _stop_event := b; alive := alive t; start_time := start_time t;
     focus_lost_start := focus_lost_start t; no_face_start := no_face_start t |}.

Definition with_alive (b : bool) (t : DetectionThread) : DetectionThread :=
  {| interview := interview t; duration_minutes := duration_minutes t;
     _stop_event := _stop_event t; alive := b; start_time := start_time t;
     focus_lost_start := focus_lost_start t; no_face_start := no_face_start t |}.

Definition with_timers (f n : option Q) (t : DetectionThread) : DetectionThread :=
  {| interview := interview t; duration_minutes := duration_minutes t;
     _stop_event := _stop_event t; alive := alive t; start_time := start_time t;
     focus_lost_start := f; no_face_start := n |}.

(** Python's [int(x)] on a float: truncation toward zero. *)
Definition int (x : Q) : Z := Z.quot (Qnum x) (Z.pos (Qden x)).

(** *** Binary64 arithmetic

    Python's floats are IEEE 754 binary64 numbers and its operations round
    the exact result to the nearest one, ties to even.  [binary64 x] is that
    rounding of the rational [x], for magnitudes below 2^1024. *)

(** For [x > 0]: the [e] with [2^e <= x < 2^(e+1)]. *)
Definition ilog2 (x : Q) : Z :=
  let e := Z.log2 (Qnum x) - Z.log2 (Z.pos (Qden x)) in
  if Qle_bool (2 ^ e) x then e else e - 1.

(** For [x >= 0]: the nearest integer, the even one on a tie. *)
Definition round_half_even (x : Q) : Z :=
  let f := Qfloor x in
  match (x - inject_Z f ?= 1 # 2)%Q with
  | Lt => f
  | Gt => f + 1
  | Eq => if Z.even f then f else f + 1
  end.

Definition binary64 (x : Q) : Q :=
  if Qeq_bool x 0 then 0%Q
  else
    let a := Qabs x in
    let e := Z.max (ilog2 a) (-1022) in
    let ulp := (2 ^ (e - 52))%Q in
    let y := (inject_Z (round_half_even (a / ulp)) * ulp)%Q in
    if Qle_bool 0 x then y else (- y)%Q.

(** The largest float [random()] returns, 1 - 2^-53. *)
Definition largest_draw : Q := 1 - (1 # 9007199254740992).

(** [random.uniform(a, b)] returns [a + (b - a) * self.random()], computed
    in binary64.  [a] and [b] are the decimal literals of the call, read as
    Python reads them; [u] is what [random()] returned, a multiple of 2^-53
    in [0, 1). *)
Definition uniform (a b u : Q) : Q :=
  let a := binary64 a in
  let b := binary64 b in
  binary64 (a + binary64 (binary64 (b - a) * u)).

(** *** The simulated provider *)

Definition _detect_focus (r : Q) : bool :=
  if Qlt_le_dec r 0.9 then true else false.

Definition _detect_faces (rand : Q) : Z :=
  if Qlt_le_dec rand 0.95 then 1
  else if Qlt_le_dec rand 0.99 then 0
  else 2.

(** [random.choice(seq)] reads [seq] at an index below its length. *)
Definition choice (k : nat) (seq : list string) : string :=
  default "" (seq !! (k `mod` length seq)%nat).

Definition _detect_objects (r : Q) (k : nat) : list string :=
  let objects := [] in
  if Qlt_le_dec r 0.05
  then objects ++ [choice k ["phone"; "notes"; "device"]]
  else objects.

Definition _detect_drowsiness (r : Q) : bool :=
  if Qlt_le_dec r 0.02 then true else false.

(** What the four provider calls of one iteration return. *)
Record Readings := {
  focus_maintained : bool;
  face_count : Z;
  objects : list string;
  drowsy : bool }.

Definition simulated (r_focus r_faces r_objects : Q) (k : nat) (r_drowsy : Q)
    : Readings :=
  {| focus_maintained := _detect_focus r_focus;
     face_count := _detect_faces r_faces;
     objects := _detect_objects r_objects k;
     drowsy := _detect_drowsiness r_drowsy |}.

(** Everything one loop iteration reads from outside the program: whether
    [refresh_from_db] raises, the two clock readings, the database clock
    that stamps inserted rows, the provider's answers and the [random()]
    draws behind each [random.uniform]. *)
Record TickInput := {
  refresh_error : bool;
  t_elapsed : Q;
  current_time : Q;
  db_now : Q;
  insert_error : bool;
  readings : Readings;
  u_focus : Q;
  u_no_face : Q;
  u_multiple_faces : Q;
  u_object : nat → Q;
  u_drowsiness : Q }.

Definition focus_lost_threshold : Q := 5.
Definition no_face_threshold : Q := 10.

(** A call [self._log_event(event_type, description, confidence)]. *)
Definition LogCall : Type := string * string * Q.

(** *** The four detection steps of one iteration

    Each step takes the debounce timer it owns and what the provider
    returned, and gives the new timer and the [_log_event] calls it makes. *)

(** Focus detection with timing. *)
Definition focus_detection (focus_lost_start : option Q) (current_time : Q)
    (focus_maintained : bool) (u : Q) : option Q * list LogCall :=
  if negb focus_maintained then
    match focus_lost_start with
    | None => (Some current_time, [])
    | Some start =>
        if Qlt_le_dec focus_lost_threshold (current_time - start) then
          (None,
           [ ("focus_loss",
              "Focus lost for " +:+ pretty (int (current_time - start)) +:+ " seconds",
              uniform 0.7 0.9 u) ])
        else (Some start, [])
    end
  else (None, []).

(** Face detection. *)
Definition face_detection (no_face_start : option Q) (current_time : Q)
    (face_count : Z) (u_none u_many : Q) : option Q * list LogCall :=
  if decide (face_count = 0) then
    match no_face_start with
    | None => (Some current_time, [])
    | Some start =>
        if Qlt_le_dec no_face_threshold (current_time - start) then
          (None,
           [ ("no_face",
              "No face detected for " +:+ pretty (int (current_time - start)) +:+ " seconds",
              uniform 0.8 1.0 u_none) ])
        else (Some start, [])
    end
  else if decide (1 < face_count) then
    (None,
     [ ("multiple_faces", pretty face_count +:+ " faces detected",
        uniform 0.8 1.0 u_many) ])
  else (None, []).

(** Object detection: one call per detected object, in order. *)
Definition object_detection (objects : list string) (u : nat → Q) : list LogCall :=
  imap (λ k obj, (obj +:+ "_detected", obj +:+ " detected in frame",
                  uniform 0.7 0.9 (u k))) objects.

(** Drowsiness detection. *)
Definition drowsiness_detection (drowsy : bool) (u : Q) : list LogCall :=
  if drowsy
  then [ ("drowsiness", "Signs of drowsiness detected", uniform 0.6 0.8 u) ]
  else [].

(** [DetectionThread._log_event]: the row is inserted and the line printed;
    when the insert raises ([insert_error]) the [except] branch only prints. *)
Definition _log_event (insert_error : bool) (now : Q) (self : DetectionThread)
    (c : LogCall) (w : World) : World :=
  let '(event_type, description, confidence) := c in
  if insert_error then emit (Print ErrorLoggingEvent) w
  else
    emit (Print (Logged event_type description))
      (set_event_log
         (QuerySet.create now (interview self) event_type description confidence
            (event_log w)) w).

Definition log_all (insert_error : bool) (now : Q) (self : DetectionThread)
    (cs : list LogCall) (w : World) : World :=
  foldl (λ w c, _log_event insert_error now self c w) w cs.

(** The body of the inner [try]: the detection work of one iteration.
    Nothing in it raises -- the provider answers, and [_log_event] handles
    its own exception -- so the [except] branch around it is never taken. *)
Definition detect (tid : nat) (self : DetectionThread) (inp : TickInput)
    (w : World) : DetectionThread * World :=
  let now := db_now inp in
  let err := insert_error inp in
  let r := readings inp in
  let w := emit (Call tid DetectFocus) w in
  let '(focus_lost_start', focus_calls) :=
    focus_detection (focus_lost_start self) (current_time inp)
      (focus_maintained r) (u_focus inp) in
  let w := log_all err now self focus_calls w in
  let w := emit (Call tid DetectFaces) w in
  let '(no_face_start', face_calls) :=
    face_detection (no_face_start self) (current_time inp) (face_count r)
      (u_no_face inp) (u_multiple_faces inp) in
  let w := log_all err now self face_calls w in
  let w := emit (Call tid DetectObjects) w in
  let w := log_all err now self (object_detection (objects r) (u_object inp)) w in
  let w := emit (Call tid DetectDrowsiness) w in
  let w := log_all err now self (drowsiness_detection (drowsy r) (u_drowsiness inp)) w in
  (with_timers focus_lost_start' no_face_start' self, w).

(** The end of [run], after the loop: the thread removes the registry entry
    stored under its interview id, if there is one, and is no longer alive.
    The removal and the return of [run] are one step here: no other thread
    is scheduled between them, so a caller never sees a live thread whose
    entry that thread has already removed. *)
Definition finish (tid : nat) (self : DetectionThread) (w : World) : World :=
  let w := emit (Print (DetectionStopped (interview self))) w in
  let w :=
    match active_detection_threads w !! interview self with
    | Some _ =>
        set_active_detection_threads
          (delete (interview self) (active_detection_threads w)) w
    | None => w
    end in
  set_thread tid (with_alive false self) w.

(** The interval of [self._stop_event.wait(timeout=2)]. *)
Definition poll_interval : Q := 2.

(** One iteration of the [while] loop of [run], by thread [tid].

    The stop event is tested where an iteration begins: that is the loop
    condition, and it is also how a [wait] that returned [True] because the
    event was set meanwhile shows, since the iteration after it does not run.
    An iteration that reaches its end has called [wait(timeout=2)]. *)
Definition run_iteration (tid : nat) (inp : TickInput) (w : World) : World :=
  match threads w !! tid with
  | None => w
  | Some self =>
      if negb (alive self) then w
      else if _stop_event self then finish tid self w
      else
        match (if refresh_error inp then None
               else interviews w !! interview self) with
        | None => finish tid self (emit (Print ErrorRefreshing) w)
        | Some status =>
            if decide (status ≠ "ongoing") then
              finish tid self (emit (Print (NoLongerOngoing (interview self))) w)
            else
              let elapsed := (t_elapsed inp - start_time self)%Q in
              let duration_seconds := duration_minutes self * 60 in
              if Qlt_le_dec (inject_Z duration_seconds) elapsed then
                finish tid self
                  (emit (Print (DurationComplete (interview self))) w)
              else
                let '(self, w) := detect tid self inp w in
                emit (Wait tid poll_interval) (set_thread tid self w)
        end
  end.

(** The iterations thread [tid] performs on the inputs [inps], in order. *)
Definition run_thread (tid : nat) (inps : list TickInput) (w : World) : World :=
  foldl (λ w inp, run_iteration tid inp w) w inps.

(** *** Thread primitives *)

(** [DetectionThread.stop]: sets the stop event. *)
Definition stop (tid : nat) (w : World) : World :=
  match threads w !! tid with
  | Some t => set_thread tid (with_stop_event true t) w
  | None => w
  end.

(** [thread.is_alive()]. *)
Definition is_alive (tid : nat) (w : World) : bool :=
  match threads w !! tid with
  | Some t => alive t
  | None => false
  end.

(** What session threads do while the caller is blocked: a sequence of loop
    iterations, each by some thread.  A thread that is stuck contributes
    none. *)
Definition Act : Type := nat * TickInput.

Definition concurrently (acts : list Act) (w : World) : World :=
  foldl (λ w a, run_iteration a.1 a.2 w) w acts.

(** [thread.join(timeout)]: the caller blocks while the threads run [acts];
    the thread may or may not have finished when the call returns. *)
Definition join (acts : list Act) (tid : nat) (timeout : Q) (w : World) : World :=
  let w := concurrently acts w in
  emit (Join tid timeout (is_alive tid w)) w.

(** [Thread.start()]: the thread is alive and [run] has read its start time
    [now]. *)
Definition thread_start (tid : nat) (now : Q) (w : World) : World :=
  match threads w !! tid with
  | Some t =>
      emit (Print (DetectionStarted (interview t)))
        (set_thread tid
           {| interview := interview t; duration_minutes := duration_minutes t;
              _stop_event := _stop_event t; alive := true; start_time := now;
              focus_lost_start := None; no_face_start := None |} w)
  | None => w
  end.

(** *** The registry [active_detection_threads] *)

Inductive exn := KeyError (k : Z).

(** [del active_detection_threads[k]]: raises when [k] is not a key. *)
Definition del (k : Z) (w : World) : World + exn :=
  match active_detection_threads w !! k with
  | Some _ =>
      inl (set_active_detection_threads (delete k (active_detection_threads w)) w)
  | None => inr (KeyError k)
  end.

(** [if k in active_detection_threads: del active_detection_threads[k]],
    printing [m] (when given) after the removal. *)
Definition del_if_present (k : Z) (m : option Msg) (w : World) : World :=
  match active_detection_threads w !! k with
  | Some _ =>
      let w :=
        set_active_detection_threads (delete k (active_detection_threads w)) w in
      match m with
      | Some m => emit (Print m) w
      | None => w
      end
  | None => w
  end.

(** [stop_detection(interview_id)]; the second component is the exception
    the call ends with, if any. *)
Definition stop_detection (acts : list Act) (interview_id : Z) (w : World)
    : World * option exn :=
  let w := emit (Print (AttemptingToStop interview_id)) w in
  let double_check :=
    del_if_present interview_id (Some (ForceRemovedTracking interview_id)) in
  match active_detection_threads w !! interview_id with
  | Some thread =>
      let w := emit (Print (FoundActiveThread interview_id)) w in
      let w := stop thread w in
      let w := join acts thread 10 w in
      if is_alive thread w then
        let w := emit (Print (DidNotStopCleanly interview_id)) w in
        match del interview_id w with
        | inl w => (double_check (del_if_present interview_id None w), None)
        | inr e => (w, Some e)
        end
      else
        let w := emit (Print (StoppedSuccessfully interview_id)) w in
        (double_check (del_if_present interview_id None w), None)
  | None =>
      let w := emit (Print (NoActiveDetectionFound interview_id)) w in
      (double_check w, None)
  end.

(** [start_detection(interview, duration_minutes)]: the handle of the new
    thread, or the exception raised by the stop it performs first. *)
Definition start_detection (acts : list Act) (now : Q) (interview_id : Z)
    (duration_minutes : Z) (w : World) : World * (nat + exn) :=
  let w := emit (Print (StartingDetection interview_id)) w in
  match stop_detection acts interview_id w with
  | (w, Some e) => (w, inr e)
  | (w, None) =>
      let detection_thread := length (threads w) in
      let w :=
        set_threads
          (threads w ++
             [ {| interview := interview_id; duration_minutes := duration_minutes;
                  _stop_event := false; alive := false; start_time := 0;
                  focus_lost_start := None; no_face_start := None |} ]) w in
      let w :=
        set_active_detection_threads
          (<[interview_id := detection_thread]> (active_detection_threads w)) w in
      let w := thread_start detection_thread now w in
      (emit (Print (ThreadStarted interview_id)) w, inl detection_thread)
  end.

Definition is_detection_active (interview_id : Z) (w : World) : World * bool :=
  let active :=
    match active_detection_threads w !! interview_id with
    | Some thread => is_alive thread w
    | None => false
    end in
  (emit (Print (DetectionActive interview_id active)) w, active).

Definition get_active_detection_count (w : World) : World * Z :=
  let alive_count :=
    Z.of_nat (length (filter (λ t, is_alive t w = true)
                        (map_to_list (active_detection_threads w)).*2)) in
  let total_count := Z.of_nat (size (active_detection_threads w)) in
  (emit (Print (ActiveThreads alive_count total_count)) w, alive_count).

(** One round of the loop of [cleanup_inactive_threads]; [acc] is the world
    and the list [inactive_threads].  The key is deleted unguarded: it comes
    from the snapshot the loop runs over, and nothing else runs meanwhile. *)
Definition cleanup_one (acc : World * list Z) (item : Z * nat) : World * list Z :=
  let '(w, inactive_threads) := acc in
  let '(interview_id, thread) := item in
  if negb (is_alive thread w) then
    (emit (Print (CleanedUpInactive interview_id))
       (set_active_detection_threads
          (delete interview_id (active_detection_threads w)) w),
     inactive_threads ++ [interview_id])
  else acc.

Definition cleanup_inactive_threads (w : World) : World * Z :=
  let '(w, inactive_threads) :=
    foldl cleanup_one (w, []) (map_to_list (active_detection_threads w)) in
  let n := Z.of_nat (length inactive_threads) in
  (emit (Print (CleanupComplete n)) w, n).

(** One round of the loop of [force_stop_all_detection]. *)
Definition force_stop_one (acts : Z → list Act) (w : World) (item : Z * nat)
    : World :=
  let '(interview_id, thread) := item in
  let w := emit (Print (ForceStopping interview_id)) w in
  let w := stop thread w in
  let w := join (acts interview_id) thread 2 w in
  del_if_present interview_id None w.

(** [force_stop_all_detection]; [acts id] is what the threads do during the
    join of the entry stored under [id]. *)
Definition force_stop_all_detection (acts : Z → list Act) (w : World) : World :=
  let w := emit (Print ForceStoppingAll) w in
  let w := foldl (force_stop_one acts) w (map_to_list (active_detection_threads w)) in
  emit (Print AllForceStopped) w.

(** *** Queries over the event table *)

(** The dictionary [get_detection_summary] returns, one field per key. *)
Record Summary := {
  total_events : Z;
  focus_loss : Z;
  no_face : Z;
  multiple_faces : Z;
  phone_detected : Z;
  notes_detected : Z;
  device_detected : Z;
  drowsiness : Z;
  integrity_score : Z;
  latest_event : option Q }.

Definition get_detection_summary (interview : Z) (tbl : list EventLog) : Summary :=
  let events := QuerySet.filter_interview interview tbl in
  {| total_events := QuerySet.count events;
     focus_loss := QuerySet.count (QuerySet.filter_event_type "focus_loss" events);
     no_face := QuerySet.count (QuerySet.filter_event_type "no_face" events);
     multiple_faces := QuerySet.count (QuerySet.filter_event_type "multiple_faces" events);
     phone_detected := QuerySet.count (QuerySet.filter_event_type "phone_detected" events);
     notes_detected := QuerySet.count (QuerySet.filter_event_type "notes_detected" events);
     device_detected := QuerySet.count (QuerySet.filter_event_type "device_detected" events);
     drowsiness := QuerySet.count (QuerySet.filter_event_type "drowsiness" events);
     integrity_score := Z.max 0 (100 - QuerySet.count events * 5);
     latest_event :=
       if QuerySet.exists_ events
       then timestamp <$> QuerySet.first events
       else None |}.

(** The standalone [log_event] on the path where [EventLog.objects.create]
    returns: the row is inserted and [True] is returned. *)
Definition log_event (now : Q) (interview : Z) (event_type description : string)
    (confidence_score : Q) (tbl : list EventLog) : list EventLog * bool :=
  (QuerySet.create now interview event_type description confidence_score tbl, true).

(** The standalone [log_event] with both paths of its [try]: [insert_error]
    says that [EventLog.objects.create] raises; the exception is caught, no
    row is inserted and [False] is returned. *)
Definition try_log_event (insert_error : bool) (now : Q) (interview : Z)
    (event_type description : string) (confidence_score : Q)
    (tbl : list EventLog) : list EventLog * bool :=
  if insert_error then (tbl, false)
  else log_event now interview event_type description confidence_score tbl.

(** *** Histories

    What can happen to the process, one step at a time: a collaborator calls
    a registry operation, a session thread runs an iteration of its loop, or
    the interview row changes in the database. *)
Inductive Op :=
| Start (acts : list Act) (now : Q) (interview_id : Z) (duration_minutes : Z)
| Stop (acts : list Act) (interview_id : Z)
| ForceStopAll (acts : Z → list Act)
| Cleanup
| Tick (tid : nat) (inp : TickInput)
| SaveInterview (interview_id : Z) (status : string)
| DeleteInterview (interview_id : Z).

Definition exec (op : Op) (w : World) : World :=
  match op with
  | Start acts now interview_id duration_minutes =>
      (start_detection acts now interview_id duration_minutes w).1
  | Stop acts interview_id => (stop_detection acts interview_id w).1
  | ForceStopAll acts => force_stop_all_detection acts w
  | Cleanup => (cleanup_inactive_threads w).1
  | Tick tid inp => run_iteration tid inp w
  | SaveInterview interview_id status =>
      set_interviews (<[interview_id := status]> (interviews w)) w
  | DeleteInterview interview_id =>
      set_interviews (delete interview_id (interviews w)) w
  end.

Definition run_ops (ops : list Op) (w : World) : World :=
  foldl (λ w op, exec op w) w ops.

(** The process as it starts: no thread, an empty registry. *)
Definition initial_world (ivs : gmap Z string) (tbl : list EventLog) : World :=
  {| threads := []; active_detection_threads := ∅; interviews := ivs;
     event_log := tbl; trace := [] |}.

(** *** Notions the statements below use *)

(** Thread [tid] is a live session for interview [id]. *)
Definition live_session (w : World) (id : Z) (tid : nat) : Prop :=
  ∃ t, threads w !! tid = Some t ∧ alive t = true ∧ interview t = id.

(** No [join] of the history returned with its thread still alive. *)
Definition joins_succeeded (tr : list Effect) : Prop :=
  ∀ tid timeout, Join tid timeout true ∉ tr.

(** Clock readings of successive iterations: the first is not before [from],
    and a [wait] of one poll interval separates each from the next. *)
Fixpoint spaced (from : Q) (inps : list TickInput) : Prop :=
  match inps with
  | [] => True
  | inp :: rest =>
      (from <= t_elapsed inp)%Q ∧ spaced (t_elapsed inp + poll_interval)%Q rest
  end.

#[global] Instance Qle_decision (x y : Q) : Decision (x <= y)%Q :=
  match Qlt_le_dec y x with
  | left H => right (Qlt_not_le _ _ H)
  | right H => left H
  end.

(** The iterations that have begun by wall-clock time [T]. *)
Definition begun_by (T : Q) (inps : list TickInput) : list TickInput :=
  filter (λ inp, (t_elapsed inp <= T)%Q) inps.

(** The focus step over successive iterations: each tick is the clock
    reading, what [_detect_focus] returned and the confidence draw; the state
    is the timer and the [_log_event] calls made so far. *)
Definition focus_step (acc : option Q * list LogCall) (tick : Q * bool * Q)
    : option Q * list LogCall :=
  let '(t, focus_maintained, u) := tick in
  let '(start', calls) := focus_detection acc.1 t focus_maintained u in
  (start', acc.2 ++ calls).

Definition focus_run (start : option Q) (ticks : list (Q * bool * Q))
    : option Q * list LogCall :=
  foldl focus_step (start, []) ticks.

(** What the focus step reads of an iteration's input. *)
Definition focus_tick (inp : TickInput) : Q * bool * Q :=
  (current_time inp, focus_maintained (readings inp), u_focus inp).

(** The [_log_event] calls behind the rows of a table. *)
Definition calls_of (tbl : list EventLog) : list LogCall :=
  (λ e, (event_type e, description e, confidence_score e)) <$> tbl.

(** The calls that log events of type [ty]. *)
Definition of_type (ty : string) (cs : list LogCall) : list LogCall :=
  filter (λ c, c.1.1 = ty) cs.

(** Iterations on which the provider reports focus lost. *)
Definition lost (ticks : list (Q * Q)) : list (Q * bool * Q) :=
  (λ p, (p.1, false, p.2)) <$> ticks.

(** Clock readings that never go back, all within [lo, hi]. *)
Fixpoint nondecreasing (lo hi : Q) (ts : list Q) : Prop :=
  match ts with
  | [] => (lo <= hi)%Q
  | t :: rest => (lo <= t)%Q ∧ nondecreasing t hi rest
  end.

(** *** Sample inputs for concrete runs *)

(** An attentive candidate: focus kept, one face, nothing else in frame. *)
Definition attentive : Readings :=
  {| focus_maintained := true; face_count := 1; objects := []; drowsy := false |}.

(** The candidate looks away; everything else is in order. *)
Definition looking_away : Readings :=
  {| focus_maintained := false; face_count := 1; objects := []; drowsy := false |}.

(** An iteration whose clocks all read [t], with every draw at 1/2. *)
Definition tick_at (t : Q) (r : Readings) : TickInput :=
  {| refresh_error := false; t_elapsed := t; current_time := t; db_now := t;
     insert_error := false; readings := r; u_focus := 0.5; u_no_face := 0.5; u_multiple_faces := 0.5;
     u_object := λ _, 0.5%Q; u_drowsiness := 0.5 |}.

(** [n] iterations, the [k]-th at time [k * period]. *)
Definition every (period : Q) (n : nat) (r : Readings) : list TickInput :=
  (λ k : nat, tick_at (inject_Z (Z.of_nat k) * period) r) <$> seq 0 n.

(** A thread keeps its identity; it can stop being alive, never the
    reverse, and its stop event is never cleared. *)
Definition evolves (t t' : DetectionThread) : Prop :=
  interview t' = interview t ∧
  duration_minutes t' = duration_minutes t ∧
  start_time t' = start_time t ∧
  _stop_event t' = _stop_event t ∧
  (alive t' = true → alive t = true).

(** The rest of a registry call after its join: only the registry and the
    printed lines change. *)
Definition after_join (wj w' : World) : Prop :=
  threads w' = threads wj
  ∧ trace wj `prefix_of` trace w'
  ∧ ∀ e, e ∈ trace w' → e ∈ trace wj ∨ ∃ m, e = Print m.

(** Every live session is the one the registry holds for its interview. *)
Definition sessions_registered (w : World) : Prop :=
  ∀ tid t, threads w !! tid = Some t → alive t = true →
    active_detection_threads w !! interview t = Some tid.

(** No interview has two live sessions. *)
Definition at_most_one_live (w : World) : Prop :=
  ∀ id tid1 tid2, live_session w id tid1 → live_session w id tid2 → tid1 = tid2.

(** [ages t t']: the thread object [t] later in its life: it belongs to the
    same interview with the same budget and start time, does not come back
    to life and keeps a stop event that was set. *)
Definition ages (t t' : DetectionThread) : Prop :=
  interview t' = interview t ∧
  duration_minutes t' = duration_minutes t ∧
  start_time t' = start_time t ∧
  (alive t = false → alive t' = false) ∧
  (_stop_event t = true → _stop_event t' = true).

(** [engine_step w w']: what the engine may do to the stores between [w] and
    [w'] without registering a session: threads age, the registry loses
    entries at most, interviews are only read, events are only appended, in
    key order, and only for the interview of a thread that was alive. *)
Definition engine_step (w w' : World) : Prop :=
  (∀ x t, threads w !! x = Some t → ∃ t', threads w' !! x = Some t' ∧ ages t t')
  ∧ length (threads w') = length (threads w)
  ∧ active_detection_threads w' ⊆ active_detection_threads w
  ∧ interviews w' = interviews w
  ∧ event_log w `prefix_of` event_log w'
  ∧ (QuerySet.insertion_ordered (event_log w) →
     QuerySet.insertion_ordered (event_log w'))
  ∧ (∀ e, e ∈ event_log w' →
       e ∈ event_log w ∨ ∃ tid, live_session w (models.interview e) tid).

(** Every registry entry names a thread of the heap that belongs to the
    interview it is stored under. *)
Definition registry_sound (w : World) : Prop :=
  ∀ id tid, active_detection_threads w !! id = Some tid →
    ∃ t, threads w !! tid = Some t ∧ interview t = id.

(** The interviews the [Start] operations of a history are for. *)
Definition started_interviews (ops : list Op) : list Z :=
  omap (λ op, match op with
              | Start _ _ interview_id _ => Some interview_id
              | _ => None
              end) ops.

(** The operations of the engine itself, as opposed to writes to the
    interview table by its callers. *)
Definition engine_op (op : Op) : bool :=
  match op with
  | SaveInterview _ _ | DeleteInterview _ => false
  | _ => true
  end.

(** Deleting an interview also deletes its events ([EventLog.interview] is
    declared with [on_delete=CASCADE]), which [exec] leaves in the table: the
    statements about the event table are for histories without a delete. *)
Definition keeps_events (op : Op) : bool :=
  match op with
  | DeleteInterview _ => false
  | _ => true
  end.

(** [history_step ids w w']: the stores between two points of a history
    that started sessions for the interviews [ids] only: threads age, new
    threads belong to [ids], events are only appended, in key order, each for
    an interview in [ids] or one with a thread alive at [w]. *)
Definition history_step (ids : list Z) (w w' : World) : Prop :=
  (∀ x t, threads w !! x = Some t → ∃ t', threads w' !! x = Some t' ∧ ages t t')
  ∧ (∀ x t', threads w' !! x = Some t' →
       is_Some (threads w !! x) ∨ interview t' ∈ ids)
  ∧ event_log w `prefix_of` event_log w'
  ∧ (QuerySet.insertion_ordered (event_log w) →
     QuerySet.insertion_ordered (event_log w'))
  ∧ (∀ e, e ∈ event_log w' →
       e ∈ event_log w ∨ models.interview e ∈ ids
       ∨ ∃ tid, live_session w (models.interview e) tid).

(** [debounced thr st t st' n]: what a debounce step with threshold [thr]
    does at clock reading [t], from timer [st] to timer [st'] with [n] rows
    inserted: a row is inserted only when the timer had been running for more
    than [thr] seconds, and the timer is then cleared; otherwise the timer is
    cleared, started at [t] or left alone. *)
Definition debounced (thr : Q) (st : option Q) (t : Q) (st' : option Q) (n : nat)
    : Prop :=
  (n = 0%nat ∧ (st' = None ∨ st' = Some t ∨ st' = st))
  ∨ (n = 1%nat ∧ st' = None ∧ ∃ s, st = Some s ∧ (thr < t - s)%Q).

(** [budget lo t st spent]: the seconds [spent] on debounced events since
    [lo] fit before the running timer, if there is one, and before [t]. *)
Definition budget (lo t : Q) (st : option Q) (spent : Q) : Prop :=
  match st with
  | Some s => (spent <= s - lo)%Q ∧ (s <= t)%Q
  | None => (spent <= t - lo)%Q
  end.

End detection_engine.

(** ** reports/views.py: the view [generate_report] *)

Module reports_views.
Import models reports.

(** How the view answers: [get_object_or_404] failing, one of its three
    redirects with the message it flashes, or an exception of
    [Report.objects.create] leaving the view. *)
Inductive Outcome :=
| Http404
| OnlyCompletedInterviews
| ReportAlreadyExists
| ReportGenerated
| CreateRaises.

(** [generate_report(request, interview_id)] for a logged-in user.
    [statuses] and [durations] are the columns [status] and [duration] of the
    interview table, a key absent from [durations] being a null duration;
    [reports] is the report table, keyed by the interview of its one-to-one
    field.  The view passes [total_duration=interview.duration]: [duration]
    is a [PositiveIntegerField] and [total_duration] a [DurationField], whose
    conversion for the database takes a [timedelta], so with a duration set
    [create] raises before any row is written.  [insert_error] says that the
    database refuses the insert for another reason. *)
Definition generate_report (insert_error : bool) (interview_id : Z)
    (statuses : gmap Z string) (durations : gmap Z Z)
    (reports : gmap Z Report) (tbl : list EventLog) : gmap Z Report * Outcome :=
  match statuses !! interview_id with
  | None => (reports, Http404)
  | Some status =>
      if decide (status ≠ "completed") then (reports, OnlyCompletedInterviews)
      else
        match reports !! interview_id with
        | Some _ => (reports, ReportAlreadyExists)
        | None =>
            match durations !! interview_id with
            | Some _ => (reports, CreateRaises)
            | None =>
                if insert_error then (reports, CreateRaises)
                else
                  (<[interview_id := reports.generate_report interview_id tbl]> reports,
                   ReportGenerated)
            end
        end
  end.

End reports_views.

(** ** interviews/models.py *)

Module interviews_models.

(** The columns of an [Interview] row the views below read or write, apart
    from [status], which is the table [interviews] of the engine's world.
    Users are their primary keys; [duration] is in minutes. *)
Record Interview := {
  candidate : Z;
  interviewer : Z;
  duration : option Z;
  start_time : option Q;
  end_time : option Q }.

Definition with_start_time (t : option Q) (self : Interview) : Interview :=
  {| candidate := candidate self; interviewer := interviewer self;
     duration := duration self; start_time := t; end_time := end_time self |}.

Definition with_end_time (t : option Q) (self : Interview) : Interview :=
  {| candidate := candidate self; interviewer := interviewer self;
     duration := duration self; start_time := start_time self; end_time := t |}.

End interviews_models.

(** ** What the views see of a request, and what they answer *)

Module http.

Record User := { user_id : Z; role : string; is_staff : bool }.

(** The views only ask whether the method is POST. *)
Inductive Method := GET | POST.

Record Request := { user : User; method : Method }.

(** The values of the JSON bodies. *)
Inductive Value := Str (s : string) | Int (n : Z) | Bool (b : bool).

(** [str(e)]: for a [KeyError] the representation of the key. *)
Definition str (e : detection_engine.exn) : string :=
  match e with detection_engine.KeyError k => pretty k end.

End http.

(** ** interviews/views.py: the views that drive the engine

    Each view takes the request, the interview [get_object_or_404] returns
    (its status is read in the world, the other columns are [interview]) and
    the world; it returns the world, the interview object as saved, and what
    it answered, flashed and printed.  [acts] is what the session threads do
    while the view is blocked in a join; [now] is [timezone.now()] and
    [clock] is the [time.time()] a started thread reads. *)

Module interviews_views.
Import detection_engine interviews_models http.

(** The lines the views print, one constructor per [print]. *)
Inductive Line :=
| StatusUpdatedToOngoing (id : Z)
| DetectionStartFailed (e : exn)
| RequestMethod (m : Method)
| UserAndRole (u : User)
| EndingInterview (id : Z)
| MarkedCompleted (id : Z)
| StopDetectionReturned (id : Z)
| StillActiveAfterStop (id : Z)
| CleanupRemoved (cleaned : Z)
| ForcingStop (id : Z)
| DetectionInactive (id : Z)
| ErrorStoppingDetection (e : exn)
| StatusNow (id : Z) (status : string)
| StatusAfterSave (id : Z) (status : string).

(** The messages the views flash, one constructor per [messages.*] call. *)
Inductive Flash :=
| NotAuthorizedToStart
| InterviewStarted
| StartedButDetectionFailed (e : exn)
| NotAuthorizedToEnd
| InterviewCompleted
| NotAuthorizedToDelete
| InterviewDeleted
| ErrorDeleting (e : exn).

(** The answers: [get_object_or_404] failing, an exception leaving the
    view, a redirect, a rendered template with the numbers of its context
    (the model objects in it are left out), or a JSON body. *)
Inductive Response :=
| Http404
| Http500
| RedirectInterviewList
| RedirectInterviewDetail (interview_id : Z)
| Render (template : string) (context : list (string * Z))
| JsonResponse (data : list (string * Value)) (status : Z).

Record Out := {
  response : Response;
  messages : list Flash;
  printed : list Line }.

(** [start_interview(request, interview_id)]. *)
Definition start_interview (acts : list Act) (now clock : Q) (request : Request)
    (interview_id : Z) (interview : Interview) (w : World)
    : World * Interview * Out :=
  match interviews w !! interview_id with
  | None => (w, interview, {| response := Http404; messages := []; printed := [] |})
  | Some _ =>
      if negb (bool_decide (role (user request) ∈ ["admin"; "interviewer"]))
         && negb (bool_decide (interviewer interview = user_id (user request)))
      then (w, interview,
            {| response := RedirectInterviewList;
               messages := [NotAuthorizedToStart]; printed := [] |})
      else
        match method request with
        | POST =>
            let w := set_interviews (<[interview_id := "ongoing"]> (interviews w)) w in
            let interview :=
              match start_time interview with
              | None => with_start_time (Some now) interview
              | Some t =>
                  if Qlt_le_dec 300 (now - t)
                  then with_start_time (Some now) interview
                  else interview
              end in
            let printed := [StatusUpdatedToOngoing interview_id] in
            let detection_duration :=
              match duration interview with
              | Some d => if decide (d = 0) then 30 else d
              | None => 30
              end in
            match start_detection acts clock interview_id detection_duration w with
            | (w, inl _) =>
                (w, interview,
                 {| response := RedirectInterviewDetail interview_id;
                    messages := [InterviewStarted]; printed := printed |})
            | (w, inr e) =>
                (w, interview,
                 {| response := RedirectInterviewDetail interview_id;
                    messages := [StartedButDetectionFailed e];
                    printed := printed ++ [DetectionStartFailed e] |})
            end
        | GET =>
            (w, interview,
             {| response := Render "interviews/start_interview.html" [];
                messages := []; printed := [] |})
        end
  end.

(** [end_interview(request, interview_id)].  [acts] runs during the join of
    [stop_detection], [acts_force] during those of the fallback
    [force_stop_all_detection].  The context of the page shown on GET is
    given without [recent_events]. *)
Definition end_interview (acts : list Act) (acts_force : Z → list Act) (now : Q)
    (request : Request) (interview_id : Z) (interview : Interview) (w : World)
    : World * Interview * Out :=
  let printed := [RequestMethod (method request); UserAndRole (user request)] in
  match interviews w !! interview_id with
  | None => (w, interview, {| response := Http404; messages := []; printed := printed |})
  | Some _ =>
      if negb (bool_decide (role (user request) ∈ ["admin"; "interviewer"]))
         && negb (bool_decide (interviewer interview = user_id (user request)))
      then (w, interview,
            {| response := RedirectInterviewList;
               messages := [NotAuthorizedToEnd]; printed := printed |})
      else
        match method request with
        | POST =>
            let printed := printed ++ [EndingInterview interview_id] in
            let w := set_interviews (<[interview_id := "completed"]> (interviews w)) w in
            let interview := with_end_time (Some now) interview in
            let printed := printed ++ [MarkedCompleted interview_id] in
            let '(w, printed) :=
              match stop_detection acts interview_id w with
              | (w, Some e) => (w, printed ++ [ErrorStoppingDetection e])
              | (w, None) =>
                  let printed := printed ++ [StopDetectionReturned interview_id] in
                  let '(w, active) := is_detection_active interview_id w in
                  if active then
                    let printed := printed ++ [StillActiveAfterStop interview_id] in
                    let '(w, cleaned) := cleanup_inactive_threads w in
                    let printed := printed ++ [CleanupRemoved cleaned] in
                    let '(w, active) := is_detection_active interview_id w in
                    if active then
                      (force_stop_all_detection acts_force w,
                       printed ++ [ForcingStop interview_id])
                    else (w, printed)
                  else (w, printed ++ [DetectionInactive interview_id])
              end in
            let printed := printed ++ [StatusNow interview_id "completed"] in
            match interviews w !! interview_id with
            | Some status =>
                (w, interview,
                 {| response := RedirectInterviewDetail interview_id;
                    messages := [InterviewCompleted];
                    printed := printed ++ [StatusAfterSave interview_id status] |})
            | None =>
                (w, interview,
                 {| response := Http500; messages := []; printed := printed |})
            end
        | GET =>
            let total_events :=
              QuerySet.count (QuerySet.filter_interview interview_id (event_log w)) in
            let integrity_score := Z.max 0 (100 - total_events * 5) in
            (w, interview,
             {| response :=
                  Render "interviews/end_interview.html"
                    [("total_events", total_events);
                     ("integrity_score", integrity_score)];
                messages := []; printed := printed |})
        end
  end.

(** [emergency_stop_all(request)].  The [end_time] it stamps on each
    interview it ends is a column outside the world.  Nothing in the [try]
    raises: [force_stop_all_detection] guards its [del]. *)
Definition emergency_stop_all (acts : Z → list Act) (request : Request) (w : World)
    : World * Response :=
  if negb (is_staff (user request))
  then (w, JsonResponse [("error", Str "Unauthorized")] 403)
  else
    let w := force_stop_all_detection acts w in
    let ongoing :=
      filter (λ kv : Z * string, kv.2 = "ongoing") (map_to_list (interviews w)) in
    let count := Z.of_nat (length ongoing) in
    let w :=
      foldl (λ w (kv : Z * string),
               set_interviews (<[kv.1 := "completed"]> (interviews w)) w)
        w ongoing in
    (w, JsonResponse
          [("success", Bool true);
           ("message",
            Str ("Stopped all detection and ended " +:+ pretty count
                 +:+ " ongoing interviews"))] 200).

(** [delete_interview(request, interview_id)].  Deleting the row cascades
    to the events of the interview ([EventLog.interview] is declared with
    [on_delete=CASCADE]). *)
Definition delete_interview (acts : list Act) (request : Request)
    (interview_id : Z) (interview : Interview) (w : World)
    : World * Response * list Flash :=
  match interviews w !! interview_id with
  | None => (w, Http404, [])
  | Some _ =>
      if negb (bool_decide (role (user request) ∈ ["admin"]))
         && negb (bool_decide (interviewer interview = user_id (user request)))
      then (w, RedirectInterviewList, [NotAuthorizedToDelete])
      else
        match method request with
        | POST =>
            match stop_detection acts interview_id w with
            | (w, None) =>
                let w := set_interviews (delete interview_id (interviews w)) w in
                let w :=
                  set_event_log
                    (filter (λ e, models.interview e ≠ interview_id) (event_log w)) w in
                (w, RedirectInterviewList, [InterviewDeleted])
            | (w, Some e) => (w, RedirectInterviewList, [ErrorDeleting e])
            end
        | GET => (w, Render "interviews/confirm_delete.html" [], [])
        end
  end.

End interviews_views.

(** ** detection/views.py: the views that drive the engine *)

Module detection_views.
Import detection_engine interviews_models http.

(** The messages the views flash, one constructor per [messages.*] call. *)
Inductive Flash :=
| StartedSuccessfully
| FailedToStart (e : exn)
| RestartedSuccessfully
| FailedToRestart (e : exn)
| CleanedUp (cleaned_count : Z).

Inductive Response :=
| Http404
| JsonResponse (data : list (string * Value)) (status : Z).

(** [run_detection(request, interview_id)]. *)
Definition run_detection (acts : list Act) (clock : Q) (request : Request)
    (interview_id : Z) (interview : Interview) (w : World)
    : World * Response * list Flash :=
  match interviews w !! interview_id with
  | None => (w, Http404, [])
  | Some status =>
      if negb (bool_decide (role (user request) ∈ ["admin"; "interviewer"])
               || bool_decide (interviewer interview = user_id (user request))
               || bool_decide (candidate interview = user_id (user request)))
      then (w, JsonResponse [("status", Str "error");
                             ("message", Str "Unauthorized")] 403, [])
      else if decide (status ≠ "ongoing")
      then (w, JsonResponse
                 [("status", Str "error");
                  ("message", Str "Interview must be ongoing to start detection")]
                 400, [])
      else
        let duration :=
          match duration interview with
          | Some d => if decide (d = 0) then 30 else d
          | None => 30
          end in
        match start_detection acts clock interview_id duration w with
        | (w, inl _) =>
            (w, JsonResponse [("status", Str "success");
                              ("message", Str "Detection started successfully");
                              ("interview_id", Int interview_id);
                              ("detection_active", Bool true)] 200,
             [StartedSuccessfully])
        | (w, inr e) =>
            (w, JsonResponse
                  [("status", Str "error");
                   ("message", Str ("Failed to start detection: " +:+ str e))] 500,
             [FailedToStart e])
        end
  end.

(** [restart_detection(request, interview_id)]: [acts_stop] runs during the
    join of its own [stop_detection], [acts_sleep] during [time.sleep(1)],
    [acts_start] during the join inside [start_detection]. *)
Definition restart_detection (acts_stop acts_sleep acts_start : list Act)
    (clock : Q) (request : Request) (interview_id : Z) (interview : Interview)
    (w : World) : World * Response * list Flash :=
  match interviews w !! interview_id with
  | None => (w, Http404, [])
  | Some _ =>
      if negb (bool_decide (role (user request) ∈ ["admin"; "interviewer"]))
         && negb (bool_decide (interviewer interview = user_id (user request)))
      then (w, JsonResponse [("error", Str "Unauthorized")] 403, [])
      else
        match stop_detection acts_stop interview_id w with
        | (w, Some e) =>
            (w, JsonResponse [("success", Bool false); ("error", Str (str e))] 200,
             [FailedToRestart e])
        | (w, None) =>
            let w := concurrently acts_sleep w in
            let duration :=
              match duration interview with
              | Some d => if decide (d = 0) then 30 else d
              | None => 30
              end in
            match start_detection acts_start clock interview_id duration w with
            | (w, inl _) =>
                (w, JsonResponse
                      [("success", Bool true);
                       ("message", Str "Detection restarted successfully");
                       ("detection_active", Bool true)] 200,
                 [RestartedSuccessfully])
            | (w, inr e) =>
                (w, JsonResponse [("success", Bool false); ("error", Str (str e))] 200,
                 [FailedToRestart e])
            end
        end
  end.

(** [cleanup_threads(request)].  The keys [cleanup_inactive_threads]
    deletes come from its own snapshot, so the [try] does not raise. *)
Definition cleanup_threads (request : Request) (w : World)
    : World * Response * list Flash :=
  if negb (is_staff (user request))
  then (w, JsonResponse [("error", Str "Unauthorized")] 403, [])
  else
    let '(w, cleaned_count) := cleanup_inactive_threads w in
    (w, JsonResponse
          [("success", Bool true);
           ("cleaned_threads", Int cleaned_count);
           ("remaining_threads",
            Int (Z.of_nat (size (active_detection_threads w))))] 200,
     [CleanedUp cleaned_count]).

End detection_views.

(** ** detection/detection_engine.py: [analyze_video_file] *)

Module video_analysis.
Import models detection_engine.

(** One round of the loop of [analyze_video_file]; [acc] is the table and
    [events_created].  [draws i] gives, for round [i], the index
    [random.choice] reads, what [random()] returns inside [random.uniform]
    and the database time of the insert; [fails i] says that the insert of
    round [i] raises. *)
Definition analyze_round (draws : nat → nat * Q * Q) (fails : nat → bool)
    (interview : Z) (acc : list EventLog * Z) (i : nat) : list EventLog * Z :=
  let '(tbl, events_created) := acc in
  let '(k, u, now) := draws i in
  let event_type := choice k ["focus_loss"; "phone_detected"; "notes_detected"] in
  let description :=
    "Video analysis detection " +:+ pretty (Z.of_nat i + 1) +:+ ": "
    +:+ event_type in
  let confidence := uniform 0.7 0.9 u in
  let '(tbl, logged) :=
    try_log_event (fails i) now interview event_type description confidence tbl in
  if logged then (tbl, events_created + 1) else (tbl, events_created).

(** [analyze_video_file(video_path, interview)].  [n] is what
    [random.randint(0, 3)] returns.  The result is the table and
    [events_created]. *)
Definition analyze_video_file (n : nat) (draws : nat → nat * Q * Q)
    (fails : nat → bool) (interview : Z) (tbl : list EventLog) :
    list EventLog * Z :=
  foldl (analyze_round draws fails interview) (tbl, 0) (seq 0 n).

End video_analysis.

(** ** reports/utils.py: what [generate_pdf] decides from the report *)

Module reports_utils.
Import reports.

(** The assessment printed under the score. *)
Definition score_text (report : Report) : string :=
  if decide (90 ≤ integrity_score report) then "Excellent"
  else if decide (70 ≤ integrity_score report) then "Good"
  else if decide (50 ≤ integrity_score report) then "Fair"
  else "Poor".

(** The recommendations, one constructor per sentence. *)
Inductive Recommendation :=
| HighFocusLost
| PhoneUsage
| NotesOrMaterials
| MultipleFaces
| NoSignificantIssues.

Definition recommendations (report : Report) : list Recommendation :=
  let recommendations := [] in
  let recommendations :=
    if decide (5 < focus_lost_events report)
    then recommendations ++ [HighFocusLost] else recommendations in
  let recommendations :=
    if decide (0 < phone_detected_events report)
    then recommendations ++ [PhoneUsage] else recommendations in
  let recommendations :=
    if decide (0 < notes_detected_events report)
    then recommendations ++ [NotesOrMaterials] else recommendations in
  let recommendations :=
    if decide (0 < multiple_faces_events report)
    then recommendations ++ [MultipleFaces] else recommendations in
  match recommendations with
  | [] => recommendations ++ [NoSignificantIssues]
  | _ => recommendations
  end.

End reports_utils.

(** * Properties *)

(** * Integrity scoring *)

Section IntegrityScorer.
Import reports.

Lemma counts_inv (P : Z → Prop) (r : Report) :
  Forall P (counts r) →
  P (focus_lost_events r) ∧ P (suspicious_events r) ∧ P (no_face_events r) ∧
  P (multiple_faces_events r) ∧ P (phone_detected_events r) ∧
  P (notes_detected_events r) ∧ P (device_detected_events r) ∧
  P (drowsiness_events r) ∧ P (audio_anomaly_events r).
Proof.
  unfold counts. intros H.
  repeat (apply Forall_cons_1 in H; destruct H as [? H]).
  tauto.
Qed.

Lemma counts_le_inv (r r' : Report) :
  counts_le r r' →
  focus_lost_events r ≤ focus_lost_events r' ∧
  suspicious_events r ≤ suspicious_events r' ∧
  no_face_events r ≤ no_face_events r' ∧
  multiple_faces_events r ≤ multiple_faces_events r' ∧
  phone_detected_events r ≤ phone_detected_events r' ∧
  notes_detected_events r ≤ notes_detected_events r' ∧
  device_detected_events r ≤ device_detected_events r' ∧
  drowsiness_events r ≤ drowsiness_events r' ∧
  audio_anomaly_events r ≤ audio_anomaly_events r'.
Proof.
  unfold counts_le, counts. intros H.
  repeat (apply Forall2_cons_1 in H; destruct H as [? H]).
  tauto.
Qed.

(** C6.  [Report.calculate_integrity_score] returns (and stores)
    max(0, 100 - (2 focus_lost + 5 suspicious + 3 no_face + 8 multiple_faces
    + 10 phone_detected + 8 notes_detected + 6 device_detected + 3 drowsiness
    + 4 audio_anomaly)).  For event counts, which are not negative, the
    result lies in [0, 100] -- so does the score of every report that
    [generate_report] builds, whose counts are numbers of rows; it is 100
    when every count is 0; and it does not increase when counts increase. *)
Theorem calculate_integrity_score_spec (r r' : Report) :
  let score := (calculate_integrity_score r).2 in
  score =
    Z.max 0
      (100 - (2 * focus_lost_events r + 5 * suspicious_events r +
              3 * no_face_events r + 8 * multiple_faces_events r +
              10 * phone_detected_events r + 8 * notes_detected_events r +
              6 * device_detected_events r + 3 * drowsiness_events r +
              4 * audio_anomaly_events r))
  ∧ integrity_score (calculate_integrity_score r).1 = score
  ∧ (counts_nonneg r → 0 ≤ score ≤ 100)
  ∧ (∀ i tbl, 0 ≤ integrity_score (generate_report i tbl) ≤ 100)
  ∧ (counts_zero r → score = 100)
  ∧ (counts_le r r' → (calculate_integrity_score r').2 ≤ score).
Proof.
  cbn. split; [| split; [| split; [| split; [| split]]]].
  - f_equal. lia.
  - reflexivity.
  - intros H. apply counts_inv in H. lia.
  - intros i tbl. unfold generate_report, QuerySet.count. cbn. lia.
  - intros H. apply counts_inv in H. lia.
  - intros H. apply counts_le_inv in H. lia.
Qed.

Lemma calculate_integrity_score_spec_witness :
  let r := {| interview := 1; focus_loss_count := 1; suspicious_events := 1;
              integrity_score := 100; focus_lost_events := 1;
              no_face_events := 0; multiple_faces_events := 0;
              phone_detected_events := 1; notes_detected_events := 0;
              device_detected_events := 0; drowsiness_events := 2;
              audio_anomaly_events := 0 |} in
  let r' := {| interview := 1; focus_loss_count := 1; suspicious_events := 2;
               integrity_score := 100; focus_lost_events := 1;
               no_face_events := 0; multiple_faces_events := 0;
               phone_detected_events := 1; notes_detected_events := 1;
               device_detected_events := 0; drowsiness_events := 2;
               audio_anomaly_events := 0 |} in
  0 ≤ (calculate_integrity_score r).2 ≤ 100 ∧
  (calculate_integrity_score r').2 ≤ (calculate_integrity_score r).2 ∧
  (calculate_integrity_score (set_integrity_score r 0)).2 = 77.
Proof.
  intros r r'.
  destruct (calculate_integrity_score_spec r r') as (_ & _ & Hrange & _ & _ & Hmono).
  split; [| split].
  - apply Hrange. unfold counts_nonneg, counts. cbn.
    repeat (apply Forall_cons_2; [lia |]). apply Forall_nil_2.
  - apply Hmono. unfold counts_le, counts. cbn.
    repeat (apply Forall2_cons_2; [lia |]). apply Forall2_nil_2.
  - reflexivity.
Defined.

End IntegrityScorer.

(** * The summary of an interview's events *)

Section Summary.
Import models detection_engine.

Lemma next_pk_above (tbl : list EventLog) :
  Forall (λ e, pk e < QuerySet.next_pk tbl) tbl.
Proof.
  unfold QuerySet.next_pk. induction tbl as [|e tbl IH]; cbn.
  - constructor.
  - constructor; [lia |].
    eapply Forall_impl; [exact IH |]. cbn. intros x Hx. lia.
Qed.

Lemma snoc_insertion_ordered (tbl : list EventLog) (x : EventLog) :
  QuerySet.insertion_ordered tbl →
  Forall (λ e, pk e < pk x) tbl →
  QuerySet.insertion_ordered (tbl ++ [x]).
Proof.
  unfold QuerySet.insertion_ordered.
  induction 1 as [|e tbl Hs IH Hall]; intros Hb; cbn.
  - repeat constructor.
  - apply Forall_cons_1 in Hb as [He Hb].
    constructor; [apply IH, Hb |].
    apply Forall_app. split; [exact Hall |]. repeat constructor. exact He.
Qed.

Lemma create_insertion_ordered now i ty desc conf (tbl : list EventLog) :
  QuerySet.insertion_ordered tbl →
  QuerySet.insertion_ordered (QuerySet.create now i ty desc conf tbl).
Proof.
  intros Hs. apply snoc_insertion_ordered; [exact Hs |].
  apply next_pk_above.
Qed.

Lemma filter_insertion_ordered (i : Z) (tbl : list EventLog) :
  QuerySet.insertion_ordered tbl →
  QuerySet.insertion_ordered (QuerySet.filter_interview i tbl).
Proof.
  unfold QuerySet.insertion_ordered, QuerySet.filter_interview.
  induction 1 as [|e tbl Hs IH Hall]; [constructor |].
  rewrite filter_cons. case_decide; [| exact IH].
  constructor; [exact IH |].
  apply Forall_forall. intros x Hx.
  apply list_elem_of_filter in Hx as [_ Hx].
  rewrite Forall_forall in Hall. apply Hall, Hx.
Qed.

(** On rows in key order, [first()] is the head: the row inserted first. *)
Lemma first_insertion_ordered (e : EventLog) (rest : list EventLog) :
  QuerySet.insertion_ordered (e :: rest) → QuerySet.first (e :: rest) = Some e.
Proof.
  revert e. induction rest as [|e' rest IH]; intros e Hs; [reflexivity |].
  apply StronglySorted_inv in Hs as [Hs Hall].
  change (QuerySet.first (e :: e' :: rest))
    with (match QuerySet.first (e' :: rest) with
          | Some x => if pk x <? pk e then Some x else Some e
          | None => Some e
          end).
  rewrite (IH e' Hs).
  apply Forall_cons_1 in Hall as [Hlt _].
  destruct (Z.ltb_spec (pk e') (pk e)); [lia | reflexivity].
Qed.

(** What the code computes under the key ['latest_event']: the timestamp of
    the interview's oldest event. *)
Lemma latest_event_is_oldest (i : Z) (tbl : list EventLog) e rest :
  QuerySet.insertion_ordered tbl →
  QuerySet.filter_interview i tbl = e :: rest →
  latest_event (get_detection_summary i tbl) = Some (timestamp e).
Proof.
  intros Hs Hf. unfold get_detection_summary; cbn.
  pose proof (filter_insertion_ordered i tbl Hs) as Hs'.
  rewrite Hf in *. cbn [QuerySet.exists_].
  rewrite first_insertion_ordered by exact Hs'. reflexivity.
Qed.

(** C9, evaluated on the code: two events of interview 7, logged at times 10
    and 20.  The summary's ['latest_event'] is 10, the timestamp of the event
    inserted first, while the most recent event of the interview has
    timestamp 20. *)
Theorem latest_event_returns_first_inserted :
  let tbl0 := (log_event 10 7 "no_face" "No face detected for 11 seconds" 0.9 []).1 in
  let tbl := (log_event 20 7 "drowsiness" "Signs of drowsiness detected" 0.7 tbl0).1 in
  (timestamp <$> QuerySet.filter_interview 7 tbl) = [10%Q; 20%Q]
  ∧ latest_event (get_detection_summary 7 tbl) = Some 10%Q
  ∧ latest_event (get_detection_summary 7 tbl) ≠ Some 20%Q
  ∧ latest_event (get_detection_summary 7 []) = None.
Proof.
  cbv zeta. split; [| split; [| split]].
  - vm_compute. reflexivity.
  - vm_compute. reflexivity.
  - vm_compute. discriminate.
  - reflexivity.
Qed.

(** C10.  The summary's integrity score is max(0, 100 - 5 * total events) of
    the interview: two tables with the same number of events for the
    interview give the same score, whatever the types; and on one
    [phone_detected] event it is 95 while the report's weighted score is 85. *)
Theorem summary_integrity_score_counts_events_only :
  (∀ i tbl,
     integrity_score (get_detection_summary i tbl) =
       Z.max 0 (100 - 5 * total_events (get_detection_summary i tbl))
     ∧ total_events (get_detection_summary i tbl) =
         Z.of_nat (length (filter (λ e, models.interview e = i) tbl)))
  ∧ (∀ i tbl tbl',
       total_events (get_detection_summary i tbl) =
         total_events (get_detection_summary i tbl') →
       integrity_score (get_detection_summary i tbl) =
         integrity_score (get_detection_summary i tbl'))
  ∧ (let tbl := (log_event 10 7 "phone_detected" "phone detected in frame" 0.8 []).1 in
     integrity_score (get_detection_summary 7 tbl) = 95
     ∧ reports.integrity_score (reports.generate_report 7 tbl) = 85).
Proof.
  split; [| split].
  - intros i tbl. cbn. split; [f_equal; lia | reflexivity].
  - intros i tbl tbl'. cbn. intros ->. reflexivity.
  - cbv zeta. split; vm_compute; reflexivity.
Qed.

Lemma summary_integrity_score_counts_events_only_witness :
  let tbl := (log_event 10 7 "phone_detected" "phone detected in frame" 0.8 []).1 in
  let tbl' := (log_event 10 7 "drowsiness" "Signs of drowsiness detected" 0.7 []).1 in
  integrity_score (get_detection_summary 7 tbl) =
    integrity_score (get_detection_summary 7 tbl').
Proof.
  intros tbl tbl'.
  destruct summary_integrity_score_counts_events_only as (_ & Hsame & _).
  apply Hsame. reflexivity.
Defined.

End Summary.

(** * The session thread and the registry *)

Section Engine.
Import detection_engine.

(** ** What an iteration leaves alone *)

Lemma _log_event_frame err now self c (w : World) :
  threads (_log_event err now self c w) = threads w ∧
  active_detection_threads (_log_event err now self c w) = active_detection_threads w ∧
  interviews (_log_event err now self c w) = interviews w ∧
  ∃ m, trace (_log_event err now self c w) = trace w ++ [Print m].
Proof.
  destruct c as [[ty desc] conf]. unfold _log_event.
  destruct err; cbn; eauto 10.
Qed.

Lemma log_all_frame err now self cs (w : World) :
  threads (log_all err now self cs w) = threads w ∧
  active_detection_threads (log_all err now self cs w) = active_detection_threads w ∧
  interviews (log_all err now self cs w) = interviews w ∧
  trace w `prefix_of` trace (log_all err now self cs w).
Proof.
  unfold log_all. revert w. induction cs as [|c cs IH]; intros w; cbn.
  - done.
  - destruct (IH (_log_event err now self c w)) as (-> & -> & -> & Hp).
    destruct (_log_event_frame err now self c w) as (-> & -> & -> & m & Htr).
    repeat split; try done.
    etrans; [| exact Hp]. rewrite Htr. by apply prefix_app_r.
Qed.

Lemma log_all_only_prints err now self cs (w : World) e :
  e ∈ trace (log_all err now self cs w) → e ∈ trace w ∨ ∃ m, e = Print m.
Proof.
  unfold log_all. revert w. induction cs as [|c cs IH]; intros w; cbn.
  - auto.
  - intros He. apply IH in He as [He | He]; [| by right].
    destruct (_log_event_frame err now self c w) as (_ & _ & _ & m & Htr).
    rewrite Htr in He.
    apply elem_of_app in He as [He | He]; [by left |].
    apply list_elem_of_singleton in He. right. eauto.
Qed.

Lemma log_all_threads err now self cs (w : World) :
  threads (log_all err now self cs w) = threads w.
Proof. apply log_all_frame. Qed.

Lemma log_all_registry err now self cs (w : World) :
  active_detection_threads (log_all err now self cs w) = active_detection_threads w.
Proof. apply log_all_frame. Qed.

Lemma log_all_interviews err now self cs (w : World) :
  interviews (log_all err now self cs w) = interviews w.
Proof. apply log_all_frame. Qed.

Lemma log_all_prefix err now self cs (w : World) :
  trace w `prefix_of` trace (log_all err now self cs w).
Proof. apply log_all_frame. Qed.

Ltac frame_simpl :=
  repeat (rewrite ?log_all_threads, ?log_all_registry, ?log_all_interviews;
          cbn [threads active_detection_threads interviews emit
               set_threads set_active_detection_threads set_event_log]).

Lemma detect_frame tid self inp (w : World) :
  let self' := (detect tid self inp w).1 in
  let w' := (detect tid self inp w).2 in
  threads w' = threads w ∧
  active_detection_threads w' = active_detection_threads w ∧
  interviews w' = interviews w ∧
  trace w `prefix_of` trace w' ∧
  interview self' = interview self ∧
  duration_minutes self' = duration_minutes self ∧
  _stop_event self' = _stop_event self ∧
  alive self' = alive self ∧
  start_time self' = start_time self.
Proof.
  unfold detect.
  destruct (focus_detection _ _ _ _) as [f fc].
  destruct (face_detection _ _ _ _ _) as [n nc]. cbn [fst snd].
  repeat split; try done; frame_simpl; try done.
  repeat (etrans; [| apply log_all_prefix]; cbn [trace emit];
          etrans; [| apply prefix_app_r; reflexivity]).
  done.
Qed.

(** ** The shape of an iteration *)

Lemma run_iteration_not_alive tid inp (w : World) :
  is_alive tid w = false → run_iteration tid inp w = w.
Proof.
  unfold is_alive, run_iteration.
  destruct (threads w !! tid) as [self|]; [| done].
  by intros ->.
Qed.

Lemma finish_spec tid self (w : World) :
  threads (finish tid self w) = <[tid := with_alive false self]> (threads w) ∧
  active_detection_threads (finish tid self w) =
    delete (interview self) (active_detection_threads w) ∧
  interviews (finish tid self w) = interviews w ∧
  event_log (finish tid self w) = event_log w ∧
  trace (finish tid self w) = trace w ++ [Print (DetectionStopped (interview self))].
Proof.
  unfold finish. cbn.
  destruct (active_detection_threads w !! interview self) eqn:E; cbn.
  - done.
  - by rewrite delete_id.
Qed.

(** An iteration of a live thread either leaves the loop -- possibly after
    printing why -- or does the detection work and waits one poll interval. *)
Lemma run_iteration_alive tid self inp (w : World) :
  threads w !! tid = Some self → alive self = true →
  (∃ w0, run_iteration tid inp w = finish tid self w0 ∧
         threads w0 = threads w ∧
         active_detection_threads w0 = active_detection_threads w ∧
         interviews w0 = interviews w ∧
         event_log w0 = event_log w ∧
         (trace w0 = trace w ∨ ∃ m, trace w0 = trace w ++ [Print m]))
  ∨ (_stop_event self = false ∧
     interviews w !! interview self = Some "ongoing" ∧
     (t_elapsed inp - start_time self <= inject_Z (duration_minutes self * 60))%Q ∧
     run_iteration tid inp w =
       emit (Wait tid poll_interval)
         (set_thread tid (detect tid self inp w).1 (detect tid self inp w).2)).
Proof.
  intros Hl Ha. unfold run_iteration. rewrite Hl, Ha. cbn [negb].
  destruct (_stop_event self) eqn:Hs.
  { left. exists w. auto 10. }
  destruct (refresh_error inp).
  { left. eexists. split; [reflexivity |]. cbn. eauto 10. }
  destruct (interviews w !! interview self) as [status|] eqn:Hst.
  2: { left. eexists. split; [reflexivity |]. cbn. eauto 10. }
  case_decide as Hon.
  { left. eexists. split; [reflexivity |]. cbn. eauto 10. }
  destruct (Qlt_le_dec _ _) as [Hd | Hd].
  { left. eexists. split; [reflexivity |]. cbn. eauto 10. }
  right.
  assert (status = "ongoing") as -> by (destruct (decide (status = "ongoing")); done).
  destruct (detect tid self inp w) as [self' w'] eqn:Hdet. cbn [fst snd].
  done.
Qed.

Lemma run_iteration_cases tid inp (w : World) :
  run_iteration tid inp w = w
  ∨ ∃ self, threads w !! tid = Some self ∧ alive self = true ∧
      ((∃ w0, run_iteration tid inp w = finish tid self w0 ∧
              threads w0 = threads w ∧
              active_detection_threads w0 = active_detection_threads w ∧
              interviews w0 = interviews w ∧
              event_log w0 = event_log w ∧
              (trace w0 = trace w ∨ ∃ m, trace w0 = trace w ++ [Print m]))
       ∨ (_stop_event self = false ∧
          interviews w !! interview self = Some "ongoing" ∧
          (t_elapsed inp - start_time self
             <= inject_Z (duration_minutes self * 60))%Q ∧
          run_iteration tid inp w =
            emit (Wait tid poll_interval)
              (set_thread tid (detect tid self inp w).1 (detect tid self inp w).2))).
Proof.
  destruct (is_alive tid w) eqn:Ha.
  - right. unfold is_alive in Ha.
    destruct (threads w !! tid) as [self|] eqn:Hl; [| done].
    exists self. repeat split; try done. by apply run_iteration_alive.
  - left. by apply run_iteration_not_alive.
Qed.

(** ** What iterations do to the heap, the registry and the trace *)

Lemma evolves_refl t : evolves t t.
Proof. by repeat split. Qed.

Lemma evolves_trans t1 t2 t3 : evolves t1 t2 → evolves t2 t3 → evolves t1 t3.
Proof.
  intros (? & ? & ? & ? & ?) (? & ? & ? & ? & ?).
  repeat split; try congruence. auto.
Qed.

Lemma insert_evolves (ts : list DetectionThread) tid self self' x t :
  ts !! tid = Some self → evolves self self' →
  ts !! x = Some t →
  ∃ t', <[tid := self']> ts !! x = Some t' ∧ evolves t t'.
Proof.
  intros Hl He Hx. destruct (decide (x = tid)) as [-> | Hne].
  - exists self'. rewrite list_lookup_insert_eq by (by eapply lookup_lt_Some).
    split; [done |]. congruence.
  - exists t. rewrite list_lookup_insert_ne by done. split; [done | apply evolves_refl].
Qed.

Lemma run_iteration_thread tid inp (w : World) x t :
  threads w !! x = Some t →
  ∃ t', threads (run_iteration tid inp w) !! x = Some t' ∧ evolves t t'.
Proof.
  intros Hx.
  destruct (run_iteration_cases tid inp w)
    as [-> | (self & Hl & Ha & [(w0 & -> & Ht & _) | (_ & _ & _ & ->)])].
  - exists t. split; [done | apply evolves_refl].
  - destruct (finish_spec tid self w0) as (-> & _). rewrite Ht.
    eapply insert_evolves; try done; by repeat split.
  - destruct (detect_frame tid self inp w) as (Ht & _ & _ & _ & ? & ? & ? & ? & ?).
    cbn. rewrite Ht. eapply insert_evolves; try done;
      repeat split; try done; congruence.
Qed.

Lemma run_iteration_registry tid inp (w : World) :
  active_detection_threads (run_iteration tid inp w) ⊆ active_detection_threads w.
Proof.
  destruct (run_iteration_cases tid inp w)
    as [-> | (self & Hl & Ha & [(w0 & -> & _ & Hr & _) | (_ & _ & _ & ->)])].
  - done.
  - destruct (finish_spec tid self w0) as (_ & -> & _). rewrite Hr.
    apply delete_subseteq.
  - destruct (detect_frame tid self inp w) as (_ & Hr & _). cbn. by rewrite Hr.
Qed.

Lemma detect_no_join tid self inp (w : World) j timeout b :
  Join j timeout b ∈ trace (detect tid self inp w).2 → Join j timeout b ∈ trace w.
Proof.
  unfold detect.
  destruct (focus_detection _ _ _ _) as [f fc].
  destruct (face_detection _ _ _ _ _) as [n nc]. cbn [snd].
  intros H.
  repeat
    (apply log_all_only_prints in H as [H | [m H]]; [| discriminate];
     cbn [trace emit] in H;
     apply elem_of_app in H as [H | H];
       [| apply list_elem_of_singleton in H; discriminate]).
  exact H.
Qed.

Lemma run_iteration_trace tid inp (w : World) :
  trace w `prefix_of` trace (run_iteration tid inp w)
  ∧ ∀ j timeout b,
      Join j timeout b ∈ trace (run_iteration tid inp w) → Join j timeout b ∈ trace w.
Proof.
  destruct (run_iteration_cases tid inp w)
    as [-> | (self & Hl & Ha & [(w0 & -> & _ & _ & _ & _ & Htr) | (_ & _ & _ & ->)])].
  - done.
  - destruct (finish_spec tid self w0) as (_ & _ & _ & _ & ->).
    destruct Htr as [-> | [m ->]].
    + split; [by apply prefix_app_r |].
      intros j timeout b H. apply elem_of_app in H as [H | H]; [done |].
      apply list_elem_of_singleton in H. discriminate.
    + split; [rewrite <- app_assoc; by apply prefix_app_r |].
      intros j timeout b H. rewrite <- app_assoc in H.
      apply elem_of_app in H as [H | H]; [done |]. cbn in H.
      apply elem_of_cons in H as [H | H]; [discriminate |].
      apply list_elem_of_singleton in H. discriminate.
  - destruct (detect_frame tid self inp w) as (_ & _ & _ & Hp & _). cbn in *.
    split; [etrans; [exact Hp |]; by apply prefix_app_r |].
    intros j timeout b H. apply elem_of_app in H as [H | H].
    + by eapply detect_no_join.
    + apply list_elem_of_singleton in H. discriminate.
Qed.

(** ** Leaving the loop *)

Lemma run_thread_not_alive tid inps (w : World) :
  is_alive tid w = false → run_thread tid inps w = w.
Proof.
  intros Hd. unfold run_thread.
  induction inps as [|inp inps IH]; cbn; [done |].
  by rewrite run_iteration_not_alive.
Qed.

Lemma finish_ends_session tid self (w0 : World) :
  threads w0 !! tid = Some self →
  let w' := finish tid self w0 in
  is_alive tid w' = false
  ∧ active_detection_threads w' !! interview self = None
  ∧ (is_detection_active (interview self) w').2 = false
  ∧ event_log w' = event_log w0
  ∧ (∀ inps, run_thread tid inps w' = w').
Proof.
  intros Hl w'. subst w'.
  destruct (finish_spec tid self w0) as (Ht & Hr & _ & He & _).
  assert (Hdead : is_alive tid (finish tid self w0) = false).
  { unfold is_alive. rewrite Ht, list_lookup_insert_eq; [done |].
    by eapply lookup_lt_Some. }
  assert (Hgone : active_detection_threads (finish tid self w0) !! interview self = None).
  { rewrite Hr. apply lookup_delete_eq. }
  repeat split; try done.
  - unfold is_detection_active. cbn [snd]. by rewrite Hgone.
  - intros inps. by apply run_thread_not_alive.
Qed.

(** C3.  A running session whose iteration reads an interview status other
    than "ongoing" leaves the loop at once: the iteration only prints -- it
    calls no provider, logs no event and does not wait, so nothing of the
    2-second poll interval passes -- the thread is no longer alive, the
    registry has no entry for the interview, [is_detection_active] is false,
    and no later iteration of the thread does anything.  No stop call is
    involved. *)
Theorem status_not_ongoing_ends_session tid self inp status (w : World) :
  threads w !! tid = Some self →
  alive self = true →
  refresh_error inp = false →
  interviews w !! interview self = Some status →
  status ≠ "ongoing" →
  let w' := run_iteration tid inp w in
  (∃ ms, trace w' = trace w ++ ms ∧ ∀ e, e ∈ ms → ∃ m, e = Print m)
  ∧ event_log w' = event_log w
  ∧ is_alive tid w' = false
  ∧ active_detection_threads w' !! interview self = None
  ∧ (is_detection_active (interview self) w').2 = false
  ∧ (∀ inps, run_thread tid inps w' = w')
  ∧ poll_interval = 2%Q.
Proof.
  intros Hl Ha Hr Hst Hne w'. subst w'.
  destruct (run_iteration_alive tid self inp w Hl Ha)
    as [(w0 & -> & Ht & Hreg & Hiv & Hev & Htr) | (_ & Hon & _)].
  2: { rewrite Hst in Hon. congruence. }
  assert (Hl0 : threads w0 !! tid = Some self) by (by rewrite Ht).
  destruct (finish_ends_session tid self w0 Hl0) as (Hd & Hg & Hact & He & Hno).
  destruct (finish_spec tid self w0) as (_ & _ & _ & _ & Htr').
  split; [| rewrite He; auto 10].
  rewrite Htr'. destruct Htr as [-> | [m ->]].
  - eexists. split; [reflexivity |].
    intros e He'. apply list_elem_of_singleton in He'. eauto.
  - rewrite <- app_assoc. eexists. split; [reflexivity |].
    intros e He'. cbn in He'.
    apply elem_of_cons in He' as [-> | He']; [eauto |].
    apply list_elem_of_singleton in He'. eauto.
Qed.

Lemma status_not_ongoing_ends_session_witness :
  let w0 := (start_detection [] 0 1 30 (initial_world {[1 := "ongoing"]} [])).1 in
  let w := exec (SaveInterview 1 "completed") w0 in
  let w' := run_iteration 0 (tick_at 2 attentive) w in
  (is_detection_active 1 w).2 = true
  ∧ event_log w' = event_log w
  ∧ is_alive 0 w' = false
  ∧ active_detection_threads w' !! 1 = None
  ∧ (is_detection_active 1 w').2 = false.
Proof.
  intros w0 w w'.
  split; [vm_compute; reflexivity |].
  destruct (status_not_ongoing_ends_session 0
              {| interview := 1; duration_minutes := 30; _stop_event := false;
                 alive := true; start_time := 0; focus_lost_start := None;
                 no_face_start := None |}
              (tick_at 2 attentive) "completed" w)
    as (_ & Hev & Hd & Hg & Hact & _).
  - vm_compute. reflexivity.
  - reflexivity.
  - reflexivity.
  - vm_compute. reflexivity.
  - discriminate.
  - auto.
Defined.

(** ** The duration budget *)

Lemma over_budget_ends_session tid self inp (w : World) :
  threads w !! tid = Some self →
  alive self = true →
  (inject_Z (duration_minutes self * 60) < t_elapsed inp - start_time self)%Q →
  let w' := run_iteration tid inp w in
  is_alive tid w' = false
  ∧ active_detection_threads w' !! interview self = None
  ∧ (is_detection_active (interview self) w').2 = false
  ∧ event_log w' = event_log w.
Proof.
  intros Hl Ha Hover w'. subst w'.
  destruct (run_iteration_alive tid self inp w Hl Ha)
    as [(w0 & -> & Ht & Hreg & Hiv & Hev & Htr) | (_ & _ & Hin & _)].
  2: { exfalso. lra. }
  assert (Hl0 : threads w0 !! tid = Some self) by (by rewrite Ht).
  destruct (finish_ends_session tid self w0 Hl0) as (Hd & Hg & Hact & He & _).
  rewrite He. auto.
Qed.

(** Iterations one poll interval apart use up the budget: if [n] more
    intervals from [from] exceed it, the thread has ended after [n + 1]
    iterations. *)
Lemma run_thread_ends_within (n : nat) tid :
  ∀ inps self from (w : World),
  threads w !! tid = Some self →
  alive self = true →
  spaced from inps →
  (n < length inps)%nat →
  (inject_Z (duration_minutes self * 60) <
     from - start_time self + 2 * inject_Z (Z.of_nat n))%Q →
  let w' := run_thread tid inps w in
  is_alive tid w' = false
  ∧ active_detection_threads w' !! interview self = None
  ∧ (is_detection_active (interview self) w').2 = false.
Proof.
  induction n as [|n IH]; intros inps self from w Hl Ha Hsp Hlen Hb;
    (destruct inps as [|inp rest]; [cbn in Hlen; lia |]);
    destruct Hsp as [Hfrom Hsp]; cbn [run_thread foldl];
    change (foldl (λ w inp, run_iteration tid inp w) ?w0 rest)
      with (run_thread tid rest w0).
  - destruct (over_budget_ends_session tid self inp w Hl Ha) as (Hd & Hg & Hact & _).
    { change (inject_Z (Z.of_nat 0)) with 0%Q in Hb. lra. }
    rewrite run_thread_not_alive by exact Hd. auto.
  - destruct (run_iteration_alive tid self inp w Hl Ha)
      as [(w0 & -> & Ht & _) | (_ & _ & _ & ->)].
    + assert (Hl0 : threads w0 !! tid = Some self) by (by rewrite Ht).
      destruct (finish_ends_session tid self w0 Hl0) as (Hd & Hg & Hact & _ & Hno).
      rewrite Hno. auto.
    + destruct (detect_frame tid self inp w)
        as (Ht & _ & _ & _ & Hi & Hdu & _ & Hal & Hs).
      cbn zeta in *.
      set (self' := (detect tid self inp w).1) in *.
      set (w1 := (detect tid self inp w).2) in *.
      rewrite <- Hi.
      apply (IH rest self' (t_elapsed inp + poll_interval)%Q).
      * cbn. rewrite Ht. apply list_lookup_insert_eq. by eapply lookup_lt_Some.
      * by rewrite Hal.
      * exact Hsp.
      * cbn in Hlen. lia.
      * rewrite Hdu, Hs. unfold poll_interval.
        rewrite Nat2Z.inj_succ, <- Z.add_1_r, inject_Z_plus in Hb.
        change (inject_Z 1) with 1%Q in Hb. lra.
Qed.

(** C7, as the code has it.  An iteration that begins after the elapsed
    time exceeds the budget ([duration_minutes * 60] seconds) ends the
    session: the thread is no longer alive and the registry has no entry for
    its interview.  Iterations are a 2-second wait apart, so a session with
    budget of [d] minutes has ended after [30 d + 2] iterations at most.
    For a budget of 1 minute, any iteration beginning more than 60 seconds
    after the start ends the session. *)
Theorem duration_budget_ends_session tid self (w : World) :
  threads w !! tid = Some self →
  alive self = true →
  (∀ inp,
     (inject_Z (duration_minutes self * 60) < t_elapsed inp - start_time self)%Q →
     let w' := run_iteration tid inp w in
     is_alive tid w' = false
     ∧ active_detection_threads w' !! interview self = None
     ∧ (is_detection_active (interview self) w').2 = false
     ∧ event_log w' = event_log w)
  ∧ (∀ inps,
       0 ≤ duration_minutes self →
       spaced (start_time self) inps →
       (Z.to_nat (30 * duration_minutes self + 1) < length inps)%nat →
       let w' := run_thread tid inps w in
       is_alive tid w' = false
       ∧ active_detection_threads w' !! interview self = None
       ∧ (is_detection_active (interview self) w').2 = false)
  ∧ (duration_minutes self = 1 →
     ∀ inp, (60 < t_elapsed inp - start_time self)%Q →
       let w' := run_iteration tid inp w in
       is_alive tid w' = false
       ∧ active_detection_threads w' !! interview self = None
       ∧ (is_detection_active (interview self) w').2 = false).
Proof.
  intros Hl Ha. split; [| split].
  - intros inp Hover. by apply over_budget_ends_session.
  - intros inps Hd Hsp Hlen.
    apply (run_thread_ends_within (Z.to_nat (30 * duration_minutes self + 1))
             tid inps self (start_time self) w Hl Ha Hsp Hlen).
    rewrite Z2Nat.id by lia.
    rewrite inject_Z_plus, !inject_Z_mult.
    change (inject_Z 60) with 60%Q. change (inject_Z 30) with 30%Q.
    change (inject_Z 1) with 1%Q. lra.
  - intros Hone inp Hover.
    destruct (over_budget_ends_session tid self inp w Hl Ha) as (? & ? & ? & _); [| done].
    rewrite Hone. exact Hover.
Qed.

Lemma duration_budget_ends_session_witness :
  let w0 := (start_detection [] 0 1 1 (initial_world {[1 := "ongoing"]} [])).1 in
  (let w' := run_thread 0 (every 2 32 attentive) w0 in
   is_alive 0 w' = false
   ∧ active_detection_threads w' !! 1 = None
   ∧ (is_detection_active 1 w').2 = false)
  ∧ (let w' := run_iteration 0 (tick_at 61 attentive) w0 in
     is_alive 0 w' = false
     ∧ active_detection_threads w' !! 1 = None
     ∧ (is_detection_active 1 w').2 = false).
Proof.
  intros w0.
  destruct (duration_budget_ends_session 0
              {| interview := 1; duration_minutes := 1; _stop_event := false;
                 alive := true; start_time := 0; focus_lost_start := None;
                 no_face_start := None |} w0)
    as (_ & Hmany & Hone).
  - vm_compute. reflexivity.
  - reflexivity.
  - split.
    + apply (Hmany (every 2 32 attentive)).
      * cbn. lia.
      * cbn. repeat split; vm_compute; discriminate.
      * cbn. lia.
    + apply (Hone eq_refl (tick_at 61 attentive)). vm_compute. reflexivity.
Defined.

(** C7, the scenario as the claim words it, fails on the code.  A session of
    1 minute whose loop comes round every 2.05 seconds checks its budget at
    59.45 s, within the budget, and next at 61.5 s.  After every iteration
    begun by the 61st second it is still alive and registered; the iteration
    at 61.5 s ends it. *)
Lemma one_minute_session_still_active_at_61s :
  let w0 := (start_detection [] 0 1 1 (initial_world {[1 := "ongoing"]} [])).1 in
  let inps := every 2.05 31 attentive in
  spaced 0 inps
  ∧ t_elapsed <$> drop 29 inps = [(29 * 2.05)%Q; (30 * 2.05)%Q]
  ∧ length (begun_by 61 inps) = 30%nat
  ∧ (let w := run_thread 0 (begun_by 61 inps) w0 in
     is_alive 0 w = true
     ∧ (is_detection_active 1 w).2 = true
     ∧ active_detection_threads w !! 1 = Some 0%nat)
  ∧ (is_detection_active 1 (run_thread 0 inps w0)).2 = false.
Proof.
  cbv zeta. split; [| split; [| split; [| split]]].
  - cbn. repeat split; vm_compute; discriminate.
  - reflexivity.
  - vm_compute. reflexivity.
  - repeat split; vm_compute; reflexivity.
  - vm_compute. reflexivity.
Qed.

(** ** Blocking calls: what the threads do meanwhile *)

Lemma concurrently_thread acts (w : World) x t :
  threads w !! x = Some t →
  ∃ t', threads (concurrently acts w) !! x = Some t' ∧ evolves t t'.
Proof.
  unfold concurrently. revert w t.
  induction acts as [|[tid inp] acts IH]; intros w t Hx; cbn.
  - exists t. split; [done | apply evolves_refl].
  - destruct (run_iteration_thread tid inp w x t Hx) as (t1 & H1 & E1).
    destruct (IH _ _ H1) as (t2 & H2 & E2).
    exists t2. split; [done |]. by eapply evolves_trans.
Qed.

Lemma concurrently_registry acts (w : World) :
  active_detection_threads (concurrently acts w) ⊆ active_detection_threads w.
Proof.
  unfold concurrently. revert w.
  induction acts as [|[tid inp] acts IH]; intros w; cbn; [done |].
  etrans; [apply IH |]. apply run_iteration_registry.
Qed.

Lemma concurrently_trace acts (w : World) :
  trace w `prefix_of` trace (concurrently acts w)
  ∧ ∀ j timeout b,
      Join j timeout b ∈ trace (concurrently acts w) → Join j timeout b ∈ trace w.
Proof.
  unfold concurrently. revert w.
  induction acts as [|[tid inp] acts IH]; intros w; cbn; [done |].
  destruct (IH (run_iteration tid inp w)) as [Hp Hj].
  destruct (run_iteration_trace tid inp w) as [Hp' Hj'].
  split; [by etrans | auto].
Qed.

Lemma stop_thread tid (w : World) x t :
  threads w !! x = Some t →
  ∃ t', threads (stop tid w) !! x = Some t' ∧
        interview t' = interview t ∧ alive t' = alive t ∧
        (x = tid → _stop_event t' = true) ∧
        (_stop_event t = true → _stop_event t' = true).
Proof.
  intros Hx. unfold stop.
  destruct (threads w !! tid) as [s|] eqn:Hl.
  - cbn. destruct (decide (x = tid)) as [-> | Hne].
    + rewrite list_lookup_insert_eq by (by eapply lookup_lt_Some).
      eexists. split; [done |]. cbn. by simplify_eq.
    + rewrite list_lookup_insert_ne by done. exists t. by repeat split.
  - exists t. repeat split; try done. intros ->. congruence.
Qed.

Lemma stop_frame tid (w : World) :
  active_detection_threads (stop tid w) = active_detection_threads w
  ∧ trace (stop tid w) = trace w
  ∧ ∀ x, is_alive x (stop tid w) = is_alive x w.
Proof.
  unfold stop. destruct (threads w !! tid) as [s|] eqn:Hl; [| done].
  repeat split. intros x. unfold is_alive. cbn.
  destruct (decide (x = tid)) as [-> | Hne].
  - rewrite list_lookup_insert_eq by (by eapply lookup_lt_Some). by rewrite Hl.
  - by rewrite list_lookup_insert_ne.
Qed.

(** A thread that was signalled stays signalled through a join. *)
Lemma signalled_through_join acts tid timeout (w : World) x t :
  threads w !! x = Some t →
  ∃ t', threads (join acts tid timeout (stop tid w)) !! x = Some t' ∧
        interview t' = interview t ∧
        (alive t' = true → alive t = true) ∧
        (x = tid → _stop_event t' = true) ∧
        (_stop_event t = true → _stop_event t' = true).
Proof.
  intros Hx.
  destruct (stop_thread tid w x t Hx) as (t1 & H1 & Hi & Ha & Hs & Hk).
  destruct (concurrently_thread acts _ x t1 H1) as (t2 & H2 & Hi2 & _ & _ & Hs2 & Ha2).
  exists t2. cbn. repeat split; try congruence.
  - intros. rewrite <- Ha. auto.
  - intros. rewrite Hs2. auto.
  - intros. rewrite Hs2. auto.
Qed.

Lemma join_trace acts tid timeout (w : World) :
  trace (join acts tid timeout w) =
    trace (concurrently acts w) ++
      [Join tid timeout (is_alive tid (concurrently acts w))].
Proof. reflexivity. Qed.

Lemma del_if_present_spec k m (w : World) :
  threads (del_if_present k m w) = threads w
  ∧ active_detection_threads (del_if_present k m w) =
      delete k (active_detection_threads w)
  ∧ trace w `prefix_of` trace (del_if_present k m w)
  ∧ ∀ e, e ∈ trace (del_if_present k m w) → e ∈ trace w ∨ ∃ m', e = Print m'.
Proof.
  unfold del_if_present.
  destruct (active_detection_threads w !! k) eqn:E.
  - destruct m as [m|]; cbn; repeat split; auto.
    + by apply prefix_app_r.
    + intros e He. apply elem_of_app in He as [He | He]; [auto |].
      apply list_elem_of_singleton in He. eauto.
  - rewrite delete_id by done. auto.
Qed.

(** ** [stop_detection] *)

Lemma after_join_refl w : after_join w w.
Proof. repeat split; auto. Qed.

Lemma after_join_emit wj w m : after_join wj w → after_join wj (emit (Print m) w).
Proof.
  intros (Ht & Hp & He). repeat split; cbn; [done | |].
  - etrans; [exact Hp |]. by apply prefix_app_r.
  - intros e H. apply elem_of_app in H as [H | H]; [auto |].
    apply list_elem_of_singleton in H. eauto.
Qed.

Lemma after_join_del_if_present wj w k m :
  after_join wj w → after_join wj (del_if_present k m w).
Proof.
  intros (Ht & Hp & He).
  destruct (del_if_present_spec k m w) as (Ht' & _ & Hp' & He').
  repeat split; [congruence | by etrans |].
  intros e H. apply He' in H as [H | H]; auto.
Qed.

Lemma after_join_del wj w k w' :
  after_join wj w → del k w = inl w' → after_join wj w'.
Proof.
  unfold del. intros H. destruct (active_detection_threads w !! k); [| done].
  intros [= <-]. exact H.
Qed.

Lemma is_alive_after_join wj w' x : after_join wj w' → is_alive x w' = is_alive x wj.
Proof. intros (Ht & _). unfold is_alive. by rewrite Ht. Qed.

(** The world in which [stop_detection] comes back from its join. *)
Lemma stop_detection_joined acts interview_id thread (w : World) :
  active_detection_threads w !! interview_id = Some thread →
  let wj :=
    join acts thread 10
      (stop thread
         (emit (Print (FoundActiveThread interview_id))
            (emit (Print (AttemptingToStop interview_id)) w))) in
  (∀ t, threads w !! thread = Some t →
     ∃ t', threads wj !! thread = Some t' ∧ _stop_event t' = true)
  ∧ Join thread 10 (is_alive thread wj) ∈ trace wj
  ∧ (∀ j timeout b, Join j timeout b ∈ trace wj →
       Join j timeout b ∈ trace w
       ∨ (j = thread ∧ timeout = 10%Q ∧ b = is_alive thread wj))
  ∧ active_detection_threads wj ⊆ active_detection_threads w
  ∧ trace w `prefix_of` trace wj.
Proof.
  intros Hreg wj. subst wj.
  set (w1 := emit _ (emit _ w)).
  split; [| split; [| split; [| split]]].
  - intros t Ht.
    destruct (signalled_through_join acts thread 10 w1 thread t Ht)
      as (t' & H' & _ & _ & Hs & _).
    exists t'. auto.
  - rewrite join_trace. apply elem_of_app. right. by apply list_elem_of_singleton.
  - intros j timeout b. rewrite join_trace. intros H.
    apply elem_of_app in H as [H | H].
    + apply concurrently_trace in H.
      destruct (stop_frame thread w1) as (_ & Htr & _). rewrite Htr in H.
      subst w1. cbn in H.
      rewrite <- app_assoc in H. apply elem_of_app in H as [H | H]; [auto |].
      cbn in H. apply elem_of_cons in H as [H | H]; [discriminate |].
      apply list_elem_of_singleton in H. discriminate.
    + apply list_elem_of_singleton in H. injection H as -> -> ->. right. done.
  - cbn. etrans; [apply concurrently_registry |].
    destruct (stop_frame thread w1) as (-> & _). done.
  - rewrite join_trace. etrans; [| by apply prefix_app_r].
    etrans; [| apply concurrently_trace].
    destruct (stop_frame thread w1) as (_ & -> & _). subst w1. cbn.
    rewrite <- app_assoc. by apply prefix_app_r.
Qed.

(** How [stop_detection] ends, once back from the join in world [wj]. *)
Lemma stop_detection_tail acts interview_id thread (w : World) :
  active_detection_threads w !! interview_id = Some thread →
  let wj :=
    join acts thread 10
      (stop thread
         (emit (Print (FoundActiveThread interview_id))
            (emit (Print (AttemptingToStop interview_id)) w))) in
  let w' := (stop_detection acts interview_id w).1 in
  let result := (stop_detection acts interview_id w).2 in
  after_join wj w'
  ∧ active_detection_threads w' !! interview_id = None
  ∧ active_detection_threads w' ⊆ active_detection_threads wj
  ∧ (is_alive thread wj = true → Print (DidNotStopCleanly interview_id) ∈ trace w')
  ∧ (is_alive thread wj = false → result = None)
  ∧ (result = None →
     active_detection_threads w' = delete interview_id (active_detection_threads wj)).
Proof.
  intros Hreg wj. unfold stop_detection. cbn [emit active_detection_threads].
  rewrite Hreg. fold wj. clearbody wj.
  destruct (is_alive thread wj) eqn:Hal.
  - destruct (del interview_id (emit (Print (DidNotStopCleanly interview_id)) wj))
      as [w2 | e] eqn:Hdel; cbn [fst snd].
    + assert (Haj : after_join wj w2).
      { eapply after_join_del; [| exact Hdel]. apply after_join_emit, after_join_refl. }
      assert (Hin : Print (DidNotStopCleanly interview_id) ∈ trace w2).
      { unfold del in Hdel. cbn in Hdel.
        destruct (active_detection_threads wj !! interview_id); [| done].
        injection Hdel as <-. cbn. apply elem_of_app. right.
        by apply list_elem_of_singleton. }
      assert (Hr2 : active_detection_threads w2 =
                    delete interview_id (active_detection_threads wj)).
      { unfold del in Hdel. cbn in Hdel.
        destruct (active_detection_threads wj !! interview_id); [| done].
        by injection Hdel as <-. }
      destruct (del_if_present_spec interview_id None w2) as (_ & Hd1 & Hp1 & _).
      destruct (del_if_present_spec interview_id
                  (Some (ForceRemovedTracking interview_id))
                  (del_if_present interview_id None w2)) as (_ & Hd2 & Hp2 & _).
      split; [by do 2 apply after_join_del_if_present |].
      split; [rewrite Hd2; apply lookup_delete_eq |].
      split; [rewrite Hd2, Hd1, Hr2;
              do 2 (etrans; [apply delete_subseteq |]); apply delete_subseteq |].
      split; [intros _; eapply elem_of_prefix; [exact Hin | by etrans] |].
      split; [done |].
      intros _. rewrite Hd2, Hd1, Hr2. by rewrite !delete_delete_eq.
    + unfold del in Hdel. cbn in Hdel.
      destruct (active_detection_threads wj !! interview_id) eqn:Hk; [done |].
      split; [apply after_join_emit, after_join_refl |].
      split; [exact Hk |]. split; [done |].
      split; [intros _; cbn; apply elem_of_app; right;
              by apply list_elem_of_singleton |].
      split; done.
  - cbn [fst snd].
    set (w2 := emit (Print (StoppedSuccessfully interview_id)) wj).
    destruct (del_if_present_spec interview_id None w2) as (_ & Hd1 & Hp1 & _).
    destruct (del_if_present_spec interview_id
                (Some (ForceRemovedTracking interview_id))
                (del_if_present interview_id None w2)) as (_ & Hd2 & Hp2 & _).
    split; [do 2 apply after_join_del_if_present;
            apply after_join_emit, after_join_refl |].
    split; [rewrite Hd2; apply lookup_delete_eq |].
    split; [rewrite Hd2, Hd1; etrans; [apply delete_subseteq |];
            apply delete_subseteq |].
    split; [done |]. split; [done |].
    intros _. rewrite Hd2, Hd1. by rewrite delete_delete_eq.
Qed.

Lemma stop_detection_absent acts interview_id (w : World) :
  active_detection_threads w !! interview_id = None →
  stop_detection acts interview_id w =
    (emit (Print (NoActiveDetectionFound interview_id))
       (emit (Print (AttemptingToStop interview_id)) w), None).
Proof.
  intros Hreg. unfold stop_detection. cbn [emit active_detection_threads].
  rewrite Hreg. unfold del_if_present. cbn [emit active_detection_threads].
  by rewrite Hreg.
Qed.

(** What a call of [stop_detection] leaves behind, by the state of the
    registry at the call. *)
Lemma stop_detection_outcome acts interview_id (w : World) :
  let w' := (stop_detection acts interview_id w).1 in
  let result := (stop_detection acts interview_id w).2 in
  active_detection_threads w' !! interview_id = None
  ∧ (active_detection_threads w !! interview_id = None →
       result = None
       ∧ w' = emit (Print (NoActiveDetectionFound interview_id))
                (emit (Print (AttemptingToStop interview_id)) w))
  ∧ (∀ thread, active_detection_threads w !! interview_id = Some thread →
       (∀ t, threads w !! thread = Some t →
          ∃ t', threads w' !! thread = Some t' ∧ _stop_event t' = true)
       ∧ Join thread 10 (is_alive thread w') ∈ trace w'
       ∧ (∀ j timeout b, Join j timeout b ∈ trace w' →
            Join j timeout b ∈ trace w
            ∨ (j = thread ∧ timeout = 10%Q ∧ b = is_alive thread w'))
       ∧ (is_alive thread w' = true →
            Print (DidNotStopCleanly interview_id) ∈ trace w')
       ∧ (is_alive thread w' = false → result = None)).
Proof.
  cbv zeta. split; [| split].
  - destruct (active_detection_threads w !! interview_id) as [thread|] eqn:Hreg.
    + by destruct (stop_detection_tail acts interview_id thread w Hreg) as (_ & ? & _).
    + by rewrite stop_detection_absent.
  - intros Hreg. by rewrite stop_detection_absent.
  - intros thread Hreg.
    destruct (stop_detection_tail acts interview_id thread w Hreg)
      as (Haj & Hnone & _ & Hwarn & Hok & _).
    destruct (stop_detection_joined acts interview_id thread w Hreg)
      as (Hsig & Hjoin & Honly & _ & _).
    cbv zeta in *.
    set (wj := join acts thread 10 _) in *.
    rewrite (is_alive_after_join _ _ thread Haj).
    destruct Haj as (Ht & Hp & He).
    split; [| split; [| split; [| split]]]; try done.
    + intros t Hl. rewrite Ht. by apply (Hsig t).
    + by eapply elem_of_prefix.
    + intros j timeout b H. apply He in H as [H | [m H]]; [auto | discriminate].
Qed.

(** C4.  [stop_detection] on an id without a registry entry changes nothing:
    it prints that no active detection was found and raises nothing.  On an
    id with an entry it sets the thread's stop event and joins it once, with
    a timeout of 10 seconds; if the thread is still alive then, it prints the
    warning, and the entry is removed all the same.  However the call ends,
    the registry has no entry for the id afterwards. *)
Theorem stop_detection_spec acts interview_id (w : World) :
  let w' := (stop_detection acts interview_id w).1 in
  let result := (stop_detection acts interview_id w).2 in
  active_detection_threads w' !! interview_id = None
  ∧ (active_detection_threads w !! interview_id = None →
       result = None
       ∧ w' = emit (Print (NoActiveDetectionFound interview_id))
                (emit (Print (AttemptingToStop interview_id)) w))
  ∧ (∀ thread, active_detection_threads w !! interview_id = Some thread →
       (∀ t, threads w !! thread = Some t →
          ∃ t', threads w' !! thread = Some t' ∧ _stop_event t' = true)
       ∧ Join thread 10 (is_alive thread w') ∈ trace w'
       ∧ (∀ j timeout b, Join j timeout b ∈ trace w' →
            Join j timeout b ∈ trace w
            ∨ (j = thread ∧ timeout = 10%Q ∧ b = is_alive thread w'))
       ∧ (is_alive thread w' = true →
            Print (DidNotStopCleanly interview_id) ∈ trace w')
       ∧ (is_alive thread w' = false → result = None)).
Proof. exact (stop_detection_outcome acts interview_id w). Qed.

Lemma stop_detection_spec_witness :
  let w := (start_detection [] 0 1 30 (initial_world {[1 := "ongoing"]} [])).1 in
  ((stop_detection [] 2 w).2 = None
   ∧ (stop_detection [] 2 w).1 =
       emit (Print (NoActiveDetectionFound 2)) (emit (Print (AttemptingToStop 2)) w))
  ∧ (active_detection_threads (stop_detection [] 1 w).1 !! 1 = None
     ∧ Print (DidNotStopCleanly 1) ∈ trace (stop_detection [] 1 w).1)
  ∧ (stop_detection [(0%nat, tick_at 2 attentive)] 1 w).2 = None.
Proof.
  intros w. split; [| split].
  - destruct (stop_detection_spec [] 2 w) as (_ & Habsent & _).
    apply Habsent. vm_compute. reflexivity.
  - destruct (stop_detection_spec [] 1 w) as (Hnone & _ & Hentry).
    split; [exact Hnone |].
    destruct (Hentry 0%nat) as (_ & _ & _ & Hwarn & _).
    + vm_compute. reflexivity.
    + apply Hwarn. vm_compute. reflexivity.
  - destruct (stop_detection_spec [(0%nat, tick_at 2 attentive)] 1 w)
      as (_ & _ & Hentry).
    destruct (Hentry 0%nat) as (_ & _ & _ & _ & Hok).
    + vm_compute. reflexivity.
    + apply Hok. vm_compute. reflexivity.
Defined.

(** ** [force_stop_all_detection] *)

Lemma force_stop_one_spec acts (w : World) k thread :
  let w' := force_stop_one acts w (k, thread) in
  active_detection_threads w' ⊆ delete k (active_detection_threads w)
  ∧ (∀ x t, threads w !! x = Some t →
       ∃ t', threads w' !! x = Some t' ∧
             interview t' = interview t ∧
             (alive t' = true → alive t = true) ∧
             (x = thread → _stop_event t' = true) ∧
             (_stop_event t = true → _stop_event t' = true))
  ∧ trace w `prefix_of` trace w'
  ∧ Join thread 2 (is_alive thread w') ∈ trace w'
  ∧ (∀ j timeout b, Join j timeout b ∈ trace w' →
       Join j timeout b ∈ trace w ∨ (j = thread ∧ timeout = 2%Q)).
Proof.
  cbv zeta. unfold force_stop_one.
  set (w1 := emit (Print (ForceStopping k)) w).
  set (wj := join (acts k) thread 2 (stop thread w1)).
  destruct (del_if_present_spec k None wj) as (Ht & Hr & Hp & He).
  assert (Hjp : trace w `prefix_of` trace wj).
  { subst wj. rewrite join_trace.
    etrans; [| by apply prefix_app_r].
    etrans; [| apply concurrently_trace].
    destruct (stop_frame thread w1) as (_ & -> & _). by apply prefix_app_r. }
  assert (Hjj : Join thread 2 (is_alive thread wj) ∈ trace wj).
  { subst wj. rewrite join_trace. apply elem_of_app. right.
    by apply list_elem_of_singleton. }
  split; [| split; [| split; [| split]]].
  - rewrite Hr. apply delete_mono. subst wj. cbn.
    etrans; [apply concurrently_registry |].
    by destruct (stop_frame thread w1) as (-> & _).
  - intros x t Hx. rewrite Ht.
    apply (signalled_through_join (acts k) thread 2 w1 x t Hx).
  - by etrans.
  - replace (is_alive thread (del_if_present k None wj)) with (is_alive thread wj)
      by (unfold is_alive; by rewrite Ht).
    by eapply elem_of_prefix.
  - intros j timeout b H. apply He in H as [H | [m H]]; [| discriminate].
    subst wj. rewrite join_trace in H. apply elem_of_app in H as [H | H].
    + apply concurrently_trace in H.
      destruct (stop_frame thread w1) as (_ & Htr & _). rewrite Htr in H.
      subst w1. cbn in H. apply elem_of_app in H as [H | H]; [auto |].
      apply list_elem_of_singleton in H. discriminate.
    + apply list_elem_of_singleton in H. injection H as -> -> ->. auto.
Qed.

Lemma force_stop_fold acts (items : list (Z * nat)) :
  ∀ w : World,
  let w' := foldl (force_stop_one acts) w items in
  (∀ j v, active_detection_threads w' !! j = Some v →
     active_detection_threads w !! j = Some v ∧ j ∉ items.*1)
  ∧ (∀ x t, threads w !! x = Some t →
       ∃ t', threads w' !! x = Some t' ∧
             interview t' = interview t ∧
             (alive t' = true → alive t = true) ∧
             (x ∈ items.*2 → _stop_event t' = true) ∧
             (_stop_event t = true → _stop_event t' = true))
  ∧ trace w `prefix_of` trace w'
  ∧ (∀ thread, thread ∈ items.*2 → ∃ b, Join thread 2 b ∈ trace w')
  ∧ (∀ j timeout b, Join j timeout b ∈ trace w' →
       Join j timeout b ∈ trace w ∨ (j ∈ items.*2 ∧ timeout = 2%Q)).
Proof.
  induction items as [|[k thread] items IH]; intros w; cbn.
  - repeat split; auto.
    + apply not_elem_of_nil.
    + intros x t Hx. exists t. repeat split; auto.
      intros H. by apply elem_of_nil in H.
    + intros thread H. by apply elem_of_nil in H.
  - destruct (force_stop_one_spec acts w k thread) as (Hr1 & Ht1 & Hp1 & Hj1 & Ho1).
    destruct (IH (force_stop_one acts w (k, thread))) as (Hr & Ht & Hp & Hj & Ho).
    cbv zeta in *.
    set (w1 := force_stop_one acts w (k, thread)) in *.
    split; [| split; [| split; [| split]]].
    + intros j v H. apply Hr in H as [H Hni].
      eapply lookup_weaken in H; [| exact Hr1].
      apply lookup_delete_Some in H as [Hne H].
      split; [done |]. rewrite not_elem_of_cons. auto.
    + intros x t Hx.
      destruct (Ht1 x t Hx) as (t1 & Hx1 & Hi1 & Ha1 & Hs1 & Hk1).
      destruct (Ht x t1 Hx1) as (t2 & Hx2 & Hi2 & Ha2 & Hs2 & Hk2).
      exists t2. repeat split; try congruence; auto.
      intros H. apply elem_of_cons in H as [-> | H]; auto.
    + by etrans.
    + intros x H. apply elem_of_cons in H as [-> | H]; [| auto].
      eexists. eapply elem_of_prefix; [exact Hj1 | exact Hp].
    + intros j timeout b H. apply Ho in H as [H | [H ->]].
      * apply Ho1 in H as [H | [-> ->]]; [auto |].
        right. split; [apply elem_of_cons; auto | done].
      * right. split; [apply elem_of_cons; auto | done].
Qed.

(** C5.  [force_stop_all_detection] sets the stop event of every registered
    thread and joins each with a timeout of 2 seconds; whatever the threads
    do meanwhile, and whether or not they have finished, the registry is
    empty and the count of active sessions is 0 when it returns. *)
Theorem force_stop_all_detection_spec acts (w : World) :
  let w' := force_stop_all_detection acts w in
  active_detection_threads w' = ∅
  ∧ (get_active_detection_count w').2 = 0
  ∧ (∀ id thread, active_detection_threads w !! id = Some thread →
       (∀ t, threads w !! thread = Some t →
          ∃ t', threads w' !! thread = Some t' ∧ _stop_event t' = true)
       ∧ ∃ still_alive, Join thread 2 still_alive ∈ trace w')
  ∧ (∀ j timeout b, Join j timeout b ∈ trace w' →
       Join j timeout b ∈ trace w ∨ timeout = 2%Q).
Proof.
  cbv zeta. unfold force_stop_all_detection.
  set (w0 := emit (Print ForceStoppingAll) w).
  change (active_detection_threads w0) with (active_detection_threads w).
  destruct (force_stop_fold acts (map_to_list (active_detection_threads w)) w0)
    as (Hr & Ht & Hp & Hj & Ho).
  cbv zeta in *.
  set (w1 := foldl (force_stop_one acts) w0 _) in *.
  assert (Hempty : active_detection_threads w1 = ∅).
  { apply map_empty. intros j.
    destruct (active_detection_threads w1 !! j) as [v|] eqn:E; [| done].
    apply Hr in E as [E Hni]. exfalso. apply Hni.
    apply list_elem_of_fmap. exists (j, v). split; [done |].
    by apply elem_of_map_to_list. }
  split; [exact Hempty |]. split; [| split].
  - unfold get_active_detection_count. cbn.
    rewrite Hempty, map_to_list_empty. reflexivity.
  - intros id thread Hreg.
    assert (Hin : thread ∈ (map_to_list (active_detection_threads w)).*2).
    { apply list_elem_of_fmap. exists (id, thread). split; [done |].
      by apply elem_of_map_to_list. }
    split.
    + intros t Hl. destruct (Ht thread t Hl) as (t' & Hl' & _ & _ & Hs & _).
      exists t'. split; [exact Hl' | auto].
    + destruct (Hj thread Hin) as [b Hb]. exists b. cbn.
      apply elem_of_app. by left.
  - intros j timeout b H. cbn in H. apply elem_of_app in H as [H | H].
    + apply Ho in H as [H | [_ ->]]; [| auto].
      subst w0. cbn in H. apply elem_of_app in H as [H | H]; [auto |].
      apply list_elem_of_singleton in H. discriminate.
    + apply list_elem_of_singleton in H. discriminate.
Qed.

Lemma force_stop_all_detection_spec_witness :
  let w :=
    run_ops [Start [] 0 1 30; Start [] 0 2 30; Start [] 0 3 30;
             Start [] 0 4 30; Start [] 0 5 30]
      (initial_world
         {[1 := "ongoing"; 2 := "ongoing"; 3 := "ongoing";
           4 := "ongoing"; 5 := "ongoing"]} []) in
  let acts (id : Z) : list Act :=
    if decide (id ≤ 3) then [(Z.to_nat (id - 1), tick_at 2 attentive)] else [] in
  let w' := force_stop_all_detection acts w in
  (get_active_detection_count w).2 = 5
  ∧ active_detection_threads w' = ∅
  ∧ (get_active_detection_count w').2 = 0
  ∧ (λ x, is_alive x w') <$> [0; 1; 2; 3; 4]%nat = [false; false; false; true; true]
  ∧ (∃ t', threads w' !! 4%nat = Some t' ∧ _stop_event t' = true).
Proof.
  intros w acts w'.
  destruct (force_stop_all_detection_spec acts w) as (Hempty & Hcount & Hsig & _).
  split; [vm_compute; reflexivity |].
  split; [exact Hempty |]. split; [exact Hcount |].
  split; [vm_compute; reflexivity |].
  destruct (Hsig 5 4%nat) as (Hflag & _).
  - vm_compute. reflexivity.
  - eapply Hflag. vm_compute. reflexivity.
Defined.

(** ** Live sessions and the registry *)

Lemma run_iteration_length tid inp (w : World) :
  length (threads (run_iteration tid inp w)) = length (threads w).
Proof.
  destruct (run_iteration_cases tid inp w)
    as [-> | (self & Hl & Ha & [(w0 & -> & Ht & _) | (_ & _ & _ & ->)])].
  - done.
  - destruct (finish_spec tid self w0) as (-> & _). by rewrite length_insert, Ht.
  - destruct (detect_frame tid self inp w) as (Ht & _). cbn.
    by rewrite length_insert, Ht.
Qed.

Lemma concurrently_length acts (w : World) :
  length (threads (concurrently acts w)) = length (threads w).
Proof.
  unfold concurrently. revert w.
  induction acts as [|[tid inp] acts IH]; intros w; cbn; [done |].
  by rewrite IH, run_iteration_length.
Qed.

Lemma stop_length tid (w : World) :
  length (threads (stop tid w)) = length (threads w).
Proof.
  unfold stop. destruct (threads w !! tid); [| done]. cbn. apply length_insert.
Qed.

(** From "every old thread has a successor" to "every new thread has a
    predecessor", for heaps of equal length. *)
Lemma predecessor (R : DetectionThread → DetectionThread → Prop)
    (ts ts' : list DetectionThread) :
  length ts' = length ts →
  (∀ x t, ts !! x = Some t → ∃ t', ts' !! x = Some t' ∧ R t t') →
  ∀ x t', ts' !! x = Some t' → ∃ t, ts !! x = Some t ∧ R t t'.
Proof.
  intros Hlen Hfw x t' Hx.
  assert (Hlt : (x < length ts)%nat) by (rewrite <- Hlen; by eapply lookup_lt_Some).
  apply lookup_lt_is_Some in Hlt as [t Ht].
  destruct (Hfw x t Ht) as (t'' & Hx' & HR).
  exists t. split; [done |]. congruence.
Qed.

Lemma sessions_registered_emit e (w : World) :
  sessions_registered w → sessions_registered (emit e w).
Proof. done. Qed.

Lemma sessions_registered_run_iteration tid inp (w : World) :
  sessions_registered w → sessions_registered (run_iteration tid inp w).
Proof.
  intros Hinv.
  destruct (run_iteration_cases tid inp w)
    as [-> | (self & Hl & Ha & [(w0 & -> & Ht & Hr & _) | (_ & _ & _ & ->)])].
  - done.
  - destruct (finish_spec tid self w0) as (Ht' & Hr' & _).
    intros x t Hx Hal. rewrite Hr', Hr. rewrite Ht', Ht in Hx.
    destruct (decide (x = tid)) as [-> | Hne].
    + rewrite list_lookup_insert_eq in Hx by (by eapply lookup_lt_Some).
      injection Hx as <-. done.
    + rewrite list_lookup_insert_ne in Hx by done.
      pose proof (Hinv x t Hx Hal) as Hreg.
      rewrite lookup_delete_ne; [done |].
      intros Heq. rewrite <- Heq in Hreg.
      rewrite (Hinv tid self Hl Ha) in Hreg. congruence.
  - destruct (detect_frame tid self inp w) as (Ht & Hr & _ & _ & Hi & _ & _ & Hal' & _).
    intros x t Hx Hal. cbn in *. rewrite Hr. rewrite Ht in Hx.
    destruct (decide (x = tid)) as [-> | Hne].
    + rewrite list_lookup_insert_eq in Hx by (by eapply lookup_lt_Some).
      injection Hx as <-. rewrite Hi. by apply Hinv.
    + rewrite list_lookup_insert_ne in Hx by done. by apply Hinv.
Qed.

Lemma sessions_registered_concurrently acts (w : World) :
  sessions_registered w → sessions_registered (concurrently acts w).
Proof.
  unfold concurrently. revert w.
  induction acts as [|[tid inp] acts IH]; intros w Hinv; cbn; [done |].
  by apply IH, sessions_registered_run_iteration.
Qed.

Lemma sessions_registered_stop tid (w : World) :
  sessions_registered w → sessions_registered (stop tid w).
Proof.
  intros Hinv x t' Hx Hal.
  destruct (stop_frame tid w) as (-> & _).
  destruct (predecessor
              (λ t t', interview t' = interview t ∧ alive t' = alive t)
              (threads w) (threads (stop tid w)) (stop_length tid w)) with x t'
    as (t & Ht & Hi & Ha); [| done |].
  - intros y s Hy. destruct (stop_thread tid w y s Hy) as (s' & ? & ? & ? & _).
    eauto.
  - rewrite Hi. apply Hinv; [done | congruence].
Qed.

Lemma sessions_registered_join acts tid timeout (w : World) :
  sessions_registered w → sessions_registered (join acts tid timeout (stop tid w)).
Proof.
  intros Hinv. unfold join.
  by apply sessions_registered_emit, sessions_registered_concurrently,
    sessions_registered_stop.
Qed.

(** Removing the entry of an interview that has no live session. *)
Lemma sessions_registered_delete k (w w' : World) :
  sessions_registered w →
  threads w' = threads w →
  active_detection_threads w' = delete k (active_detection_threads w) →
  (∀ x, ¬ live_session w k x) →
  sessions_registered w'.
Proof.
  intros Hinv Ht Hr Hno x t Hx Hal. rewrite Ht in Hx. rewrite Hr.
  rewrite lookup_delete_ne; [by apply Hinv |].
  intros Heq. apply (Hno x). exists t. auto.
Qed.

Lemma joins_succeeded_prefix (tr tr' : list Effect) :
  tr `prefix_of` tr' → joins_succeeded tr' → joins_succeeded tr.
Proof.
  intros Hp Hj tid timeout Hin. apply (Hj tid timeout). by eapply elem_of_prefix.
Qed.

Lemma live_session_same_threads (w w' : World) id x :
  threads w' = threads w → live_session w' id x → live_session w id x.
Proof. unfold live_session. by intros ->. Qed.

(** [stop_detection] keeps live sessions registered when its join succeeds,
    and then leaves the interview without a live session. *)
Lemma stop_detection_keeps_registered acts interview_id (w : World) :
  let w' := (stop_detection acts interview_id w).1 in
  let result := (stop_detection acts interview_id w).2 in
  trace w `prefix_of` trace w'
  ∧ (joins_succeeded (trace w') → sessions_registered w →
       sessions_registered w'
       ∧ result = None
       ∧ ∀ x, ¬ live_session w' interview_id x).
Proof.
  cbv zeta.
  destruct (active_detection_threads w !! interview_id) as [thread|] eqn:Hreg.
  2: { rewrite stop_detection_absent by done. cbn. split.
       - rewrite <- app_assoc. by apply prefix_app_r.
       - intros _ Hinv. repeat split; [done |].
         intros x (t & Hx & Hal & Hi). pose proof (Hinv x t Hx Hal) as H.
         rewrite Hi in H. congruence. }
  destruct (stop_detection_tail acts interview_id thread w Hreg)
    as (Haj & Hnone & _ & _ & Hok & Hdel).
  destruct (stop_detection_joined acts interview_id thread w Hreg)
    as (_ & Hjoin & _ & Hsub & Hpre).
  cbv zeta in *.
  set (wj := join acts thread 10 _) in *.
  set (w' := (stop_detection acts interview_id w).1) in *.
  destruct Haj as (Ht & Hp & _).
  split; [by etrans |].
  intros Hjs Hinv.
  assert (Hinvj : sessions_registered wj).
  { subst wj. apply sessions_registered_join. by do 2 apply sessions_registered_emit. }
  assert (Hdead : is_alive thread wj = false).
  { destruct (is_alive thread wj) eqn:E; [| done].
    exfalso. apply (Hjs thread 10%Q). by eapply elem_of_prefix. }
  assert (Hno : ∀ x, ¬ live_session wj interview_id x).
  { intros x (t & Hx & Hal & Hi).
    pose proof (Hinvj x t Hx Hal) as H. rewrite Hi in H.
    eapply lookup_weaken in H; [| exact Hsub].
    assert (x = thread) as -> by congruence.
    unfold is_alive in Hdead. rewrite Hx in Hdead. congruence. }
  specialize (Hok Hdead). specialize (Hdel Hok).
  split; [| split; [done |]].
  - by eapply sessions_registered_delete.
  - intros x Hlive. apply (Hno x). by eapply live_session_same_threads.
Qed.

(** ** [start_detection] *)

(** What [start_detection] does once its [stop_detection] has returned
    normally in world [w1]. *)
Lemma start_detection_spec acts now interview_id duration_minutes (w w1 : World) :
  stop_detection acts interview_id (emit (Print (StartingDetection interview_id)) w)
    = (w1, None) →
  let w' := (start_detection acts now interview_id duration_minutes w).1 in
  let new := length (threads w1) in
  (start_detection acts now interview_id duration_minutes w).2 = inl new
  ∧ threads w' =
      threads w1 ++
        [ {| interview := interview_id; duration_minutes := duration_minutes;
             _stop_event := false; alive := true; start_time := now;
             focus_lost_start := None; no_face_start := None |} ]
  ∧ active_detection_threads w' =
      <[interview_id := new]> (active_detection_threads w1)
  ∧ trace w' =
      trace w1 ++ [Print (DetectionStarted interview_id);
                   Print (ThreadStarted interview_id)].
Proof.
  intros Hsd. cbv zeta. unfold start_detection. rewrite Hsd.
  unfold thread_start. cbn [threads set_threads set_active_detection_threads].
  rewrite list_lookup_middle by done. cbn.
  rewrite insert_app_r_alt by done. rewrite Nat.sub_diag. cbn.
  rewrite <- app_assoc. done.
Qed.

Lemma start_detection_keeps_registered acts now interview_id duration_minutes
    (w : World) :
  let w' := (start_detection acts now interview_id duration_minutes w).1 in
  trace w `prefix_of` trace w'
  ∧ (joins_succeeded (trace w') → sessions_registered w → sessions_registered w').
Proof.
  cbv zeta.
  pose proof (stop_detection_keeps_registered acts interview_id
                (emit (Print (StartingDetection interview_id)) w)) as Hsd.
  cbv zeta in Hsd.
  destruct (stop_detection acts interview_id
              (emit (Print (StartingDetection interview_id)) w))
    as [w1 [e|]] eqn:E; cbn [fst snd] in Hsd; destruct Hsd as [Hp Hsd].
  - unfold start_detection. rewrite E. cbn [fst].
    split; [etrans; [| exact Hp]; by apply prefix_app_r |].
    intros Hjs Hinv. destruct (Hsd Hjs) as (_ & ? & _); [| done].
    by apply sessions_registered_emit.
  - destruct (start_detection_spec acts now interview_id duration_minutes w w1 E)
      as (_ & Ht & Hr & Htr).
    cbv zeta in *.
    set (w' := (start_detection acts now interview_id duration_minutes w).1) in *.
    assert (Hp1 : trace w1 `prefix_of` trace w') by (rewrite Htr; by apply prefix_app_r).
    split.
    { etrans; [| exact Hp1]. etrans; [| exact Hp]. by apply prefix_app_r. }
    intros Hjs Hinv.
    destruct Hsd as (Hinv1 & _ & Hno).
    { by eapply joins_succeeded_prefix. }
    { by apply sessions_registered_emit. }
    intros x t Hx Hal. rewrite Ht in Hx. rewrite Hr.
    destruct (decide (x < length (threads w1))%nat) as [Hlt | Hge].
    + rewrite lookup_app_l in Hx by done.
      rewrite lookup_insert_ne; [by apply Hinv1 |].
      intros Heq. apply (Hno x). exists t. auto.
    + rewrite lookup_app_r in Hx by lia.
      destruct (x - length (threads w1))%nat as [|k] eqn:Hk; cbn in Hx; [| done].
      injection Hx as <-. cbn. rewrite lookup_insert_eq. f_equal. lia.
Qed.

(** ** [force_stop_all_detection] and [cleanup_inactive_threads] keep live
    sessions registered *)

Lemma force_stop_one_registered acts (R : gmap Z nat) (w : World) k thread :
  R !! k = Some thread →
  active_detection_threads w ⊆ R →
  joins_succeeded (trace (force_stop_one acts w (k, thread))) →
  sessions_registered w →
  sessions_registered (force_stop_one acts w (k, thread)).
Proof.
  intros HR Hsub Hjs Hinv. unfold force_stop_one in *.
  set (w1 := emit (Print (ForceStopping k)) w) in *.
  set (wj := join (acts k) thread 2 (stop thread w1)) in *.
  destruct (del_if_present_spec k None wj) as (Ht & Hr & Hp & _).
  assert (Hinvj : sessions_registered wj).
  { subst wj. apply sessions_registered_join. by apply sessions_registered_emit. }
  assert (Hsubj : active_detection_threads wj ⊆ R).
  { etrans; [| exact Hsub]. subst wj. cbn.
    etrans; [apply concurrently_registry |].
    by destruct (stop_frame thread w1) as (-> & _). }
  eapply sessions_registered_delete; try done.
  intros x (t & Hx & Hal & Hi).
  pose proof (Hinvj x t Hx Hal) as H. rewrite Hi in H.
  eapply lookup_weaken in H; [| exact Hsubj].
  assert (x = thread) as -> by congruence.
  apply (Hjs thread 2%Q). eapply elem_of_prefix; [| exact Hp].
  subst wj. rewrite join_trace. apply elem_of_app. right.
  apply list_elem_of_singleton. f_equal.
  unfold is_alive. fold (join (acts k) thread 2 (stop thread w1)).
  change (threads (concurrently (acts k) (stop thread w1)))
    with (threads (join (acts k) thread 2 (stop thread w1))).
  by rewrite Hx.
Qed.

Lemma force_stop_fold_registered acts (R : gmap Z nat) (items : list (Z * nat)) :
  ∀ w : World,
  (∀ k thread, (k, thread) ∈ items → R !! k = Some thread) →
  active_detection_threads w ⊆ R →
  joins_succeeded (trace (foldl (force_stop_one acts) w items)) →
  sessions_registered w →
  sessions_registered (foldl (force_stop_one acts) w items).
Proof.
  induction items as [|[k thread] items IH]; intros w HR Hsub Hjs Hinv; cbn in *.
  - done.
  - destruct (force_stop_one_spec acts w k thread) as (Hr1 & _).
    destruct (force_stop_fold acts items (force_stop_one acts w (k, thread)))
      as (_ & _ & Hp & _).
    cbv zeta in *.
    apply IH; try done.
    + intros k' thread' Hin. apply HR. by apply elem_of_cons; right.
    + etrans; [exact Hr1 |]. etrans; [apply delete_subseteq | done].
    + apply (force_stop_one_registered acts R); try done.
      * apply HR. by apply elem_of_cons; left.
      * by eapply joins_succeeded_prefix.
Qed.

Lemma cleanup_fold (R : gmap Z nat) (items : list (Z * nat)) :
  ∀ acc : World * list Z,
  (∀ k thread, (k, thread) ∈ items → R !! k = Some thread) →
  active_detection_threads acc.1 ⊆ R →
  let acc' := foldl cleanup_one acc items in
  trace acc.1 `prefix_of` trace acc'.1
  ∧ (∀ j timeout b, Join j timeout b ∈ trace acc'.1 → Join j timeout b ∈ trace acc.1)
  ∧ (sessions_registered acc.1 → sessions_registered acc'.1).
Proof.
  induction items as [|[k thread] items IH]; intros [w l] HR Hsub; cbn [foldl].
  - cbn. auto.
  - assert (HR' : ∀ k' thread', (k', thread') ∈ items → R !! k' = Some thread').
    { intros k' thread' Hin. apply HR. by apply elem_of_cons; right. }
    cbn [fst] in *.
    assert (Hstep : cleanup_one (w, l) (k, thread) =
              if negb (is_alive thread w) then
                (emit (Print (CleanedUpInactive k))
                   (set_active_detection_threads
                      (delete k (active_detection_threads w)) w), l ++ [k])
              else (w, l)) by reflexivity.
    rewrite Hstep. clear Hstep.
    destruct (is_alive thread w) eqn:Hal; cbn [negb].
    + by apply (IH (w, l)).
    + set (w1 := emit _ (set_active_detection_threads _ w)).
      destruct (IH (w1, l ++ [k]) HR') as (Hp & Hj & Hi).
      { cbn. etrans; [apply delete_subseteq | done]. }
      cbv zeta in *. cbn [fst] in *.
      split; [| split].
      * etrans; [| exact Hp]. by apply prefix_app_r.
      * intros j timeout b H. apply Hj in H. cbn in H.
        apply elem_of_app in H as [H | H]; [done |].
        apply list_elem_of_singleton in H. discriminate.
      * intros Hinv. apply Hi.
        apply (sessions_registered_delete k w); try done.
        intros x (t & Hx & Ha & Hint).
        pose proof (Hinv x t Hx Ha) as H. rewrite Hint in H.
        eapply lookup_weaken in H; [| exact Hsub].
        assert (R !! k = Some thread) by (apply HR; by apply elem_of_cons; left).
        assert (x = thread) as -> by congruence.
        unfold is_alive in Hal. rewrite Hx in Hal. congruence.
Qed.

(** ** Histories *)

Lemma exec_keeps_registered op (w : World) :
  trace w `prefix_of` trace (exec op w)
  ∧ (joins_succeeded (trace (exec op w)) → sessions_registered w →
       sessions_registered (exec op w)).
Proof.
  destruct op as [acts now id d | acts id | acts | | tid inp | id st | id]; cbn [exec].
  - apply start_detection_keeps_registered.
  - destruct (stop_detection_keeps_registered acts id w) as [Hp H].
    split; [exact Hp |]. intros Hjs Hinv. by apply H.
  - unfold force_stop_all_detection.
    set (w0 := emit (Print ForceStoppingAll) w).
    change (active_detection_threads w0) with (active_detection_threads w).
    destruct (force_stop_fold acts (map_to_list (active_detection_threads w)) w0)
      as (_ & _ & Hp & _).
    cbv zeta in Hp. split.
    + cbn [trace emit]. apply prefix_app_r.
      etrans; [| exact Hp]. subst w0. cbn. by apply prefix_app_r.
    + intros Hjs Hinv. apply sessions_registered_emit.
      apply (force_stop_fold_registered acts (active_detection_threads w)); try done.
      * intros k thread Hin. by apply elem_of_map_to_list.
      * eapply joins_succeeded_prefix; [| exact Hjs]. by apply prefix_app_r.
  - unfold cleanup_inactive_threads.
    destruct (cleanup_fold (active_detection_threads w)
                (map_to_list (active_detection_threads w)) (w, []))
      as (Hp & _ & Hi).
    { intros k thread Hin. by apply elem_of_map_to_list. }
    { done. }
    cbv zeta in *.
    destruct (foldl cleanup_one (w, []) _) as [w1 l]. cbn [fst] in *.
    split; [etrans; [exact Hp |]; by apply prefix_app_r |].
    intros _ Hinv. by apply sessions_registered_emit, Hi.
  - split; [apply run_iteration_trace |].
    intros _. apply sessions_registered_run_iteration.
  - done.
  - done.
Qed.

Lemma run_ops_keeps_registered ops :
  ∀ w : World,
  trace w `prefix_of` trace (run_ops ops w)
  ∧ (joins_succeeded (trace (run_ops ops w)) → sessions_registered w →
       sessions_registered (run_ops ops w)).
Proof.
  unfold run_ops. induction ops as [|op ops IH]; intros w; cbn [foldl].
  - done.
  - destruct (IH (exec op w)) as [Hp Hi].
    destruct (exec_keeps_registered op w) as [Hp1 Hi1].
    split; [by etrans |].
    intros Hjs Hinv. apply Hi; [done |].
    apply Hi1; [| done]. by eapply joins_succeeded_prefix.
Qed.

Lemma sessions_registered_unique (w : World) :
  sessions_registered w → at_most_one_live w.
Proof.
  intros Hinv id x y (t & Hx & Ha & Hi) (s' & Hy & Hb & Hj).
  pose proof (Hinv x t Hx Ha) as H1. pose proof (Hinv y s' Hy Hb) as H2.
  rewrite Hi in H1. rewrite Hj in H2. congruence.
Qed.

Lemma stop_detection_length acts interview_id (w : World) :
  length (threads (stop_detection acts interview_id w).1) = length (threads w).
Proof.
  destruct (active_detection_threads w !! interview_id) as [thread|] eqn:Hreg.
  - destruct (stop_detection_tail acts interview_id thread w Hreg) as ((Ht & _) & _).
    rewrite Ht. cbn. by rewrite concurrently_length, stop_length.
  - by rewrite stop_detection_absent.
Qed.

(** [start_detection] on an id that has an entry: the registered thread is
    signalled and joined before anything is registered; on a normal return
    the entry of the id is a new, live thread. *)
Lemma start_detection_restarts acts now interview_id duration_minutes
    (w : World) old t :
  active_detection_threads w !! interview_id = Some old →
  threads w !! old = Some t →
  let w' := (start_detection acts now interview_id duration_minutes w).1 in
  let result := (start_detection acts now interview_id duration_minutes w).2 in
  (∃ t', threads w' !! old = Some t' ∧ _stop_event t' = true)
  ∧ Join old 10 (is_alive old w') ∈ trace w'
  ∧ (is_alive old w' = false → result = inl (length (threads w)))
  ∧ (∀ new, result = inl new →
       new = length (threads w) ∧ new ≠ old
       ∧ active_detection_threads w' !! interview_id = Some new
       ∧ live_session w' interview_id new).
Proof.
  intros Hreg Hold. cbv zeta.
  set (w0 := emit (Print (StartingDetection interview_id)) w).
  destruct (stop_detection_outcome acts interview_id w0) as (_ & _ & Hentry).
  destruct (Hentry old Hreg) as (Hsig & Hjoin & _ & _ & Hok). clear Hentry.
  destruct (Hsig t Hold) as (t' & Hold' & Hflag). clear Hsig.
  pose proof (stop_detection_length acts interview_id w0) as Hlen.
  assert (Hlt : (old < length (threads w))%nat) by (by eapply lookup_lt_Some).
  destruct (stop_detection acts interview_id w0) as [w1 [e|]] eqn:E;
    cbn [fst snd] in *.
  - unfold start_detection. fold w0. rewrite E. cbn [fst snd].
    split; [eauto |]. split; [done |]. split; [| done].
    intros Hdead. by specialize (Hok Hdead).
  - destruct (start_detection_spec acts now interview_id duration_minutes w w1 E)
      as (Hres & Ht & Hr & Htr).
    cbv zeta in *.
    assert (Hal : is_alive old (start_detection acts now interview_id duration_minutes w).1
                  = is_alive old w1).
    { unfold is_alive. rewrite Ht, lookup_app_l by (rewrite Hlen; exact Hlt). done. }
    unfold live_session. change (threads w0) with (threads w) in Hlen.
    rewrite Hal, Ht, Hr, Htr, Hres, Hlen.
    split; [| split; [| split]].
    + rewrite lookup_app_l by (rewrite Hlen; exact Hlt). eauto.
    + apply elem_of_app. by left.
    + done.
    + intros new [= <-]. split; [done |]. split; [lia |].
      split; [apply lookup_insert_eq |].
      exists {| interview := interview_id; duration_minutes := duration_minutes;
                _stop_event := false; alive := true; start_time := now;
                focus_lost_start := None; no_face_start := None |}.
      split; [| done]. rewrite <- Hlen. by apply list_lookup_middle.
Qed.

(** C1, as the code has it.  The registry is a dictionary, so an interview
    has at most one registered session; [start_detection] on an id that has
    an entry first signals and joins (for up to 10 seconds) the registered
    thread, and only then registers a new one, which is live and is the
    entry of the id.  Through any history in which every join found its
    thread finished, every live session is the registered one, so no
    interview has two live sessions. *)
Theorem one_live_session_when_joins_succeed :
  (∀ ivs tbl ops,
     let w := run_ops ops (initial_world ivs tbl) in
     joins_succeeded (trace w) →
     at_most_one_live w
     ∧ ∀ id tid, live_session w id tid →
         active_detection_threads w !! id = Some tid)
  ∧ (∀ acts now interview_id duration_minutes (w : World) old t,
       active_detection_threads w !! interview_id = Some old →
       threads w !! old = Some t →
       let w' := (start_detection acts now interview_id duration_minutes w).1 in
       let result := (start_detection acts now interview_id duration_minutes w).2 in
       (∃ t', threads w' !! old = Some t' ∧ _stop_event t' = true)
       ∧ Join old 10 (is_alive old w') ∈ trace w'
       ∧ (is_alive old w' = false → result = inl (length (threads w)))
       ∧ (∀ new, result = inl new →
            new = length (threads w) ∧ new ≠ old
            ∧ active_detection_threads w' !! interview_id = Some new
            ∧ live_session w' interview_id new)).
Proof.
  split.
  - intros ivs tbl ops w Hjs.
    assert (Hinv : sessions_registered w).
    { apply run_ops_keeps_registered; [exact Hjs |].
      intros x t Hx. by destruct x. }
    split; [by apply sessions_registered_unique |].
    intros id tid (t & Hx & Ha & <-). by apply Hinv.
  - intros. by eapply start_detection_restarts.
Qed.

Lemma one_live_session_when_joins_succeed_witness :
  let w1 := run_ops [Start [] 0 1 30] (initial_world {[1 := "ongoing"]} []) in
  let w := run_ops [Start [] 0 1 30; Start [(0%nat, tick_at 2 attentive)] 3 1 30]
             (initial_world {[1 := "ongoing"]} []) in
  (at_most_one_live w
   ∧ ∀ id tid, live_session w id tid → active_detection_threads w !! id = Some tid)
  ∧ (∃ t', threads w !! 0%nat = Some t' ∧ _stop_event t' = true)
  ∧ active_detection_threads w !! 1 = Some 1%nat
  ∧ live_session w 1 1.
Proof.
  intros w1 w.
  destruct one_live_session_when_joins_succeed as [Hhist Hstart].
  split.
  - apply (Hhist {[1 := "ongoing"]} []
             [Start [] 0 1 30; Start [(0%nat, tick_at 2 attentive)] 3 1 30]).
    intros tid timeout Hin. vm_compute in Hin.
    repeat (apply elem_of_cons in Hin as [Hin | Hin]; [discriminate |]).
    by apply elem_of_nil in Hin.
  - destruct (Hstart [(0%nat, tick_at 2 attentive)] 3%Q 1 30 w1 0%nat
                {| interview := 1; duration_minutes := 30; _stop_event := false;
                   alive := true; start_time := 0; focus_lost_start := None;
                   no_face_start := None |})
      as (Hflag & _ & Hres & Hnew).
    + vm_compute. reflexivity.
    + vm_compute. reflexivity.
    + split; [exact Hflag |].
      destruct (Hnew 1%nat) as (_ & _ & Hreg & Hlive).
      * apply Hres. vm_compute. reflexivity.
      * split; [exact Hreg | exact Hlive].
Defined.

(** C1 as stated fails on the code.  A session is started for interview 1;
    ten seconds later it is started again while the first thread is stuck
    and does not finish within the 10-second join.  [stop_detection] removes
    its entry all the same and the second thread is registered: two live
    sessions for interview 1. *)
Lemma two_live_sessions_after_join_timeout :
  let w := run_ops [Start [] 0 1 30; Start [] 10 1 30]
             (initial_world {[1 := "ongoing"]} []) in
  live_session w 1 0
  ∧ live_session w 1 1
  ∧ active_detection_threads w !! 1 = Some 1%nat
  ∧ Join 0 10 true ∈ trace w
  ∧ ¬ at_most_one_live w.
Proof.
  cbv zeta.
  assert (H0 : live_session
                 (run_ops [Start [] 0 1 30; Start [] 10 1 30]
                    (initial_world {[1 := "ongoing"]} [])) 1 0).
  { eexists. split; [vm_compute; reflexivity | split; reflexivity]. }
  assert (H1 : live_session
                 (run_ops [Start [] 0 1 30; Start [] 10 1 30]
                    (initial_world {[1 := "ongoing"]} [])) 1 1).
  { eexists. split; [vm_compute; reflexivity | split; reflexivity]. }
  split; [exact H0 |]. split; [exact H1 |].
  split; [vm_compute; reflexivity |].
  split.
  - vm_compute. repeat (first [apply list_elem_of_here | apply list_elem_of_further]).
  - intros Hone. by specialize (Hone 1 0%nat 1%nat H0 H1).
Qed.

(** When the stuck thread of that history finally leaves its loop, it deletes
    the entry stored under its interview id -- by now the entry of its
    successor, which keeps running unregistered. *)
Example stale_exit_unregisters_successor :
  let w := run_ops [Start [] 0 1 30; Start [] 10 1 30; Tick 0 (tick_at 12 attentive)]
             (initial_world {[1 := "ongoing"]} []) in
  is_alive 0 w = false
  ∧ is_alive 1 w = true
  ∧ active_detection_threads w !! 1 = None
  ∧ (is_detection_active 1 w).2 = false.
Proof. cbv zeta. repeat split; vm_compute; reflexivity. Qed.

(** ** The rows an iteration inserts *)

Lemma log_all_rows now self cs (w : World) :
  ∃ rows, event_log (log_all false now self cs w) = event_log w ++ rows
          ∧ calls_of rows = cs.
Proof.
  unfold log_all. revert w. induction cs as [|c cs IH]; intros w; cbn [foldl].
  - exists []. by rewrite app_nil_r.
  - destruct (IH (_log_event false now self c w)) as (rows & -> & Hc).
    destruct c as [[ty desc] conf]. cbn. unfold QuerySet.create.
    eexists (_ :: rows). rewrite <- app_assoc. split; [reflexivity |].
    unfold calls_of in *. cbn. by rewrite Hc.
Qed.

Lemma detect_rows tid self inp (w : World) :
  insert_error inp = false →
  ∃ rows,
    event_log (detect tid self inp w).2 = event_log w ++ rows
    ∧ calls_of rows =
        (focus_detection (focus_lost_start self) (current_time inp)
           (focus_maintained (readings inp)) (u_focus inp)).2
        ++ (face_detection (no_face_start self) (current_time inp)
              (face_count (readings inp)) (u_no_face inp)
              (u_multiple_faces inp)).2
        ++ object_detection (objects (readings inp)) (u_object inp)
        ++ drowsiness_detection (drowsy (readings inp)) (u_drowsiness inp)
    ∧ focus_lost_start (detect tid self inp w).1 =
        (focus_detection (focus_lost_start self) (current_time inp)
           (focus_maintained (readings inp)) (u_focus inp)).1.
Proof.
  intros Herr. unfold detect. rewrite Herr.
  destruct (focus_detection _ _ _ _) as [f fc].
  destruct (face_detection _ _ _ _ _) as [n nc]. cbn [fst snd].
  repeat match goal with
  | |- context [event_log (log_all false ?a ?b ?cs ?w0)] =>
      let r := fresh "rows" in
      let H := fresh "Hrows" in
      destruct (log_all_rows a b cs w0) as (r & -> & H);
      cbn [event_log emit]
  end.
  exists (rows2 ++ rows1 ++ rows0 ++ rows).
  split; [by rewrite <- !app_assoc |].
  split; [| reflexivity].
  unfold calls_of in *. rewrite !fmap_app. by rewrite Hrows, Hrows0, Hrows1, Hrows2.
Qed.

Lemma detected_is_not_focus (obj : string) :
  obj +:+ "_detected" ≠ "focus_loss" ∧ obj +:+ "_detected" ≠ "focus_lost".
Proof.
  split; intros H;
    repeat (destruct obj as [|? obj]; cbn in H;
            [discriminate H | injection H as _ H]);
    destruct obj; discriminate H.
Qed.

Lemma of_type_all ty (cs : list LogCall) :
  Forall (λ c, c.1.1 = ty) cs → of_type ty cs = cs.
Proof.
  unfold of_type. induction 1 as [|c cs Hc _ IH]; [done |].
  rewrite filter_cons_True by done. f_equal. exact IH.
Qed.

Lemma of_type_none ty (cs : list LogCall) :
  Forall (λ c, c.1.1 ≠ ty) cs → of_type ty cs = [].
Proof.
  unfold of_type. induction 1 as [|c cs Hc _ IH]; [done |].
  rewrite filter_cons_False by done. exact IH.
Qed.

Lemma of_type_app ty (cs1 cs2 : list LogCall) :
  of_type ty (cs1 ++ cs2) = of_type ty cs1 ++ of_type ty cs2.
Proof. apply filter_app. Qed.

(** Only the focus step logs "focus_loss"; no step logs "focus_lost". *)
Lemma steps_of_type start t focus u start' n u1 u2 objs uo d ud ty :
  ty = "focus_loss" ∨ ty = "focus_lost" →
  of_type ty
    ((focus_detection start t focus u).2
     ++ (face_detection start' t n u1 u2).2
     ++ object_detection objs uo
     ++ drowsiness_detection d ud)
  = if decide (ty = "focus_loss") then (focus_detection start t focus u).2 else [].
Proof.
  intros Hty. rewrite !of_type_app.
  rewrite (of_type_none ty (face_detection start' t n u1 u2).2).
  2: { unfold face_detection.
       destruct (decide (n = 0)); [| destruct (decide (1 < n))]; cbn.
       - destruct start' as [s0|]; cbn; [| constructor].
         destruct (Qlt_le_dec _ _); cbn; repeat constructor.
         destruct Hty as [-> | ->]; discriminate.
       - repeat constructor. destruct Hty as [-> | ->]; discriminate.
       - constructor. }
  rewrite (of_type_none ty (object_detection objs uo)).
  2: { apply Forall_forall. intros c Hc. unfold object_detection in Hc.
       apply elem_of_lookup_imap_1 in Hc as (i & obj & -> & _). cbn.
       destruct (detected_is_not_focus obj). destruct Hty as [-> | ->]; done. }
  rewrite (of_type_none ty (drowsiness_detection d ud)).
  2: { destruct d; cbn; repeat constructor.
       destruct Hty as [-> | ->]; discriminate. }
  rewrite !app_nil_r.
  assert (Hf : Forall (λ c : LogCall, c.1.1 = "focus_loss")
                 (focus_detection start t focus u).2).
  { unfold focus_detection. destruct focus; cbn; [constructor |].
    destruct start as [s0|]; cbn; [| constructor].
    destruct (Qlt_le_dec _ _); cbn; repeat constructor. }
  case_decide as Hd.
  - subst ty. by apply of_type_all.
  - apply of_type_none. eapply Forall_impl; [exact Hf |]. cbn. congruence.
Qed.

(** ** The focus debounce *)

(** [int] of a rational between two consecutive naturals. *)
Lemma int_between (q : Q) (n : Z) :
  0 ≤ n → (inject_Z n <= q)%Q → (q < inject_Z (n + 1))%Q → int q = n.
Proof.
  destruct q as [a d]. unfold int, Qle, Qlt, inject_Z. cbn.
  intros Hn Hle Hlt.
  rewrite Z.quot_div_nonneg by lia.
  symmetry. apply (Z.div_unique_pos a (Z.pos d) n (a - n * Z.pos d)); lia.
Qed.

Lemma focus_step_lost_waiting (start t u : Q) calls :
  (t - start <= 5)%Q →
  focus_step (Some start, calls) (t, false, u) = (Some start, calls).
Proof.
  intros Hle. unfold focus_step, focus_detection, focus_lost_threshold. cbn.
  destruct (Qlt_le_dec 5 (t - start)) as [Hlt | _]; [lra |].
  by rewrite app_nil_r.
Qed.

Lemma focus_step_lost_fires (start t u : Q) calls :
  (5 < t - start)%Q →
  focus_step (Some start, calls) (t, false, u) =
    (None,
     calls ++ [("focus_loss",
                "Focus lost for " +:+ pretty (int (t - start)) +:+ " seconds",
                uniform 0.7 0.9 u)]).
Proof.
  intros Hlt. unfold focus_step, focus_detection, focus_lost_threshold. cbn.
  destruct (Qlt_le_dec 5 (t - start)) as [_ | Hle]; [done | lra].
Qed.

(** While the readings stay within 5 seconds of the first, nothing is logged. *)
Lemma focus_run_waiting (start : Q) (ticks : list (Q * Q)) calls :
  Forall (λ p, p.1 - start <= 5)%Q ticks →
  foldl focus_step (Some start, calls) (lost ticks) = (Some start, calls).
Proof.
  unfold lost. induction 1 as [|[t u] ticks Ht _ IH]; cbn [fmap list_fmap foldl].
  - done.
  - cbn [fst snd] in *. rewrite focus_step_lost_waiting by done. exact IH.
Qed.

(** After the event, readings less than 5 seconds later log nothing more. *)
Lemma focus_run_after_event (t0 : Q) (ticks : list (Q * Q)) :
  ∀ st calls,
  (∀ s, st = Some s → t0 + 5 < s)%Q →
  Forall (λ p, t0 + 5 < p.1 ∧ p.1 <= t0 + 5.1)%Q ticks →
  (foldl focus_step (st, calls) (lost ticks)).2 = calls.
Proof.
  unfold lost.
  induction ticks as [|[t u] ticks IH]; intros st calls Hst Hall;
    cbn [fmap list_fmap foldl]; [done |].
  apply Forall_cons_1 in Hall as [[Hlo Hhi] Hall]. cbn [fst snd] in *.
  destruct st as [s|].
  - rewrite focus_step_lost_waiting by (specialize (Hst s eq_refl); lra).
    by apply IH.
  - assert (focus_step (None, calls) (t, false, u) = (Some t, calls)) as ->.
    { unfold focus_step. cbn. by rewrite app_nil_r. }
    apply IH; [| done]. by intros s [= <-].
Qed.

Lemma nondecreasing_bounds (hi : Q) (ts : list Q) :
  ∀ lo, nondecreasing lo hi ts →
  (lo <= hi)%Q ∧ Forall (λ t, lo <= t ∧ t <= hi)%Q ts.
Proof.
  induction ts as [|t ts IH]; intros lo H; cbn in H.
  - split; [done | constructor].
  - destruct H as [Hlo H]. destruct (IH t H) as [Hhi Hall].
    split; [lra |]. constructor; [lra |].
    eapply Forall_impl; [exact Hall |]. cbn. intros x [? ?]. lra.
Qed.

Lemma focus_lost_description (d : Q) :
  (5 < d)%Q → (d <= 5.1)%Q →
  "Focus lost for " +:+ pretty (int d) +:+ " seconds" = "Focus lost for 5 seconds".
Proof.
  intros Hlo Hhi. rewrite (int_between d 5); [by vm_compute | lia | |].
  - change (inject_Z 5) with 5%Q. lra.
  - change (inject_Z (5 + 1)) with 6%Q. lra.
Qed.

(** Focus lost from [t0] on, read again at [t0 + 5.1]: whatever readings lie
    in between, exactly one event is logged. *)
Lemma focus_run_fires_once (t0 u_end : Q) (mids : list (Q * Q)) :
  ∀ lo,
  (t0 <= lo)%Q →
  nondecreasing lo (t0 + 5.1) mids.*1 →
  ∃ u,
    u ∈ mids.*2 ++ [u_end]
    ∧ (foldl focus_step (Some t0, []) (lost (mids ++ [((t0 + 5.1)%Q, u_end)]))).2 =
        [("focus_loss", "Focus lost for 5 seconds", uniform 0.7 0.9 u)].
Proof.
  induction mids as [|[t u] mids IH]; intros lo Hlo Hnd.
  - cbn in Hnd. unfold lost. cbn [app fmap list_fmap foldl fst snd].
    rewrite focus_step_lost_fires by lra. cbn [snd app].
    rewrite focus_lost_description by lra.
    exists u_end. split; [apply elem_of_cons; by left | reflexivity].
  - cbn in Hnd. destruct Hnd as [Ht Hnd]. cbn [fst snd] in *.
    destruct (nondecreasing_bounds _ _ _ Hnd) as [Hthi Hall].
    unfold lost. cbn [app fmap list_fmap foldl fst snd].
    fold (lost (mids ++ [((t0 + 5.1)%Q, u_end)])).
    destruct (Qlt_le_dec 5 (t - t0)) as [Hfire | Hwait].
    + rewrite focus_step_lost_fires by done.
      rewrite focus_lost_description by lra.
      rewrite (focus_run_after_event t0).
      * exists u. split; [apply elem_of_cons; by left | reflexivity].
      * intros s. discriminate.
      * apply Forall_app. split.
        -- apply Forall_forall. intros [x ux] Hin. cbn.
           rewrite Forall_forall in Hall.
           destruct (Hall x) as [? ?]; [| lra].
           apply list_elem_of_fmap. by exists (x, ux).
        -- repeat constructor; cbn; lra.
    + rewrite focus_step_lost_waiting by done.
      destruct (IH t) as (u' & Hin & Heq); [lra | done |].
      exists u'. split; [apply elem_of_cons; by right | exact Heq].
Qed.

(** The debounce on the focus step alone. *)
Lemma focus_run_debounce (t0 u0 u_end : Q) (mids : list (Q * Q)) :
  (∀ t' u',
     Forall (λ p, p.1 <= t0 + 4.9)%Q mids →
     focus_run None
       (lost ((t0, u0) :: mids ++ [((t0 + 4.9)%Q, u_end)]) ++ [(t', true, u')])
       = (None, []))
  ∧ (nondecreasing t0 (t0 + 5.1) mids.*1 →
     ∃ u,
       u ∈ mids.*2 ++ [u_end]
       ∧ (focus_run None (lost ((t0, u0) :: mids ++ [((t0 + 5.1)%Q, u_end)]))).2
         = [("focus_loss", "Focus lost for 5 seconds", uniform 0.7 0.9 u)]).
Proof.
  assert (Hfirst : ∀ rest,
            focus_run None (lost ((t0, u0) :: rest)) =
            foldl focus_step (Some t0, []) (lost rest)) by reflexivity.
  split.
  - intros t' u' Hall. unfold focus_run. rewrite foldl_app.
    fold (focus_run None (lost ((t0, u0) :: mids ++ [((t0 + 4.9)%Q, u_end)]))).
    rewrite Hfirst, focus_run_waiting; [reflexivity |].
    apply Forall_app. split.
    + eapply Forall_impl; [exact Hall |]. cbn. intros p Hp. lra.
    + repeat constructor. cbn. lra.
  - intros Hnd. rewrite Hfirst.
    apply (focus_run_fires_once t0 u_end mids t0); try done. lra.
Qed.

Lemma focus_fold_acc (ticks : list (Q * bool * Q)) :
  ∀ st acc,
  foldl focus_step (st, acc) ticks =
    ((foldl focus_step (st, []) ticks).1,
     acc ++ (foldl focus_step (st, []) ticks).2).
Proof.
  induction ticks as [|[[t f] u] ticks IH]; intros st acc; cbn [foldl].
  - cbn. by rewrite app_nil_r.
  - unfold focus_step at 2 4 6. cbn [fst snd].
    destruct (focus_detection st t f u) as [st1 calls]. cbn [app].
    rewrite (IH st1 (acc ++ calls)), (IH st1 calls). cbn [fst snd].
    by rewrite app_assoc.
Qed.

Lemma calls_of_app (rows1 rows2 : list models.EventLog) :
  calls_of (rows1 ++ rows2) = calls_of rows1 ++ calls_of rows2.
Proof. apply fmap_app. Qed.

(** A session that stays in its loop: its focus timer and the focus events
    among the rows it inserts are those of the focus step run over its
    iterations; it inserts no "focus_lost" row. *)
Lemma run_thread_focus tid (inps : list TickInput) :
  ∀ self (w : World),
  threads w !! tid = Some self → alive self = true →
  Forall (λ inp, insert_error inp = false) inps →
  is_alive tid (run_thread tid inps w) = true →
  ∃ self' rows,
    threads (run_thread tid inps w) !! tid = Some self'
    ∧ event_log (run_thread tid inps w) = event_log w ++ rows
    ∧ focus_lost_start self' =
        (focus_run (focus_lost_start self) (focus_tick <$> inps)).1
    ∧ of_type "focus_loss" (calls_of rows) =
        (focus_run (focus_lost_start self) (focus_tick <$> inps)).2
    ∧ of_type "focus_lost" (calls_of rows) = [].
Proof.
  induction inps as [|inp inps IH]; intros self w Hl Ha Herr Hrun.
  - exists self, []. cbn. by rewrite app_nil_r.
  - apply Forall_cons_1 in Herr as [Herr Herrs].
    change (run_thread tid (inp :: inps) w)
      with (run_thread tid inps (run_iteration tid inp w)) in *.
    destruct (run_iteration_alive tid self inp w Hl Ha)
      as [(w0 & Hfin & Ht & _) | (_ & _ & _ & Hcont)].
    { exfalso. assert (Hl0 : threads w0 !! tid = Some self) by (by rewrite Ht).
      destruct (finish_ends_session tid self w0 Hl0) as (Hd & _ & _ & _ & Hno).
      rewrite Hfin, Hno, Hd in Hrun. discriminate. }
    destruct (detect_frame tid self inp w) as (Ht & _ & _ & _ & _ & _ & _ & Hal & _).
    destruct (detect_rows tid self inp w Herr) as (rows1 & Hev & Hcalls & Htimer).
    cbv zeta in *.
    set (self1 := (detect tid self inp w).1) in *.
    set (w1 := (detect tid self inp w).2) in *.
    rewrite Hcont in *.
    destruct (IH self1 (emit (Wait tid poll_interval) (set_thread tid self1 w1)))
      as (self' & rows2 & Hl' & Hev' & Htimer' & Hloss & Hlost); try done.
    { cbn. rewrite Ht. apply list_lookup_insert_eq. by eapply lookup_lt_Some. }
    { by rewrite Hal. }
    exists self', (rows1 ++ rows2).
    assert (Hrun1 : focus_run (focus_lost_start self) (focus_tick <$> inp :: inps) =
              ((focus_run (focus_lost_start self1) (focus_tick <$> inps)).1,
               (focus_detection (focus_lost_start self) (current_time inp)
                  (focus_maintained (readings inp)) (u_focus inp)).2
               ++ (focus_run (focus_lost_start self1) (focus_tick <$> inps)).2)).
    { unfold focus_run. cbn [fmap list_fmap foldl].
      unfold focus_step at 2. unfold focus_tick at 1. cbn [fst snd].
      rewrite Htimer.
      destruct (focus_detection _ _ _ _) as [st1 calls]. cbn [fst snd app].
      by rewrite focus_fold_acc. }
    rewrite Hrun1. cbn [fst snd].
    rewrite !calls_of_app, !of_type_app, Hcalls, !steps_of_type by auto.
    rewrite Hloss, Hlost.
    repeat split; try done.
    cbn in Hev'. rewrite Hev', Hev. by rewrite app_assoc.
Qed.

(** The decimal literals of the engine as Python reads them, and what
    [random.uniform(0.7, 0.9)] returns at the least draw and at 1/2. *)
Example binary64_literals :
  (binary64 0.7 == 6305039478318694 # 9007199254740992)%Q
  ∧ (binary64 0.9 == 8106479329266893 # 9007199254740992)%Q
  ∧ (binary64 0.1 == 3602879701896397 # 36028797018963968)%Q
  ∧ (uniform 0.7 0.9 0 == binary64 0.7)%Q
  ∧ (uniform 0.7 0.9 (1 # 2) == 3602879701896397 # 4503599627370496)%Q.
Proof. repeat apply conj; vm_compute; reflexivity. Qed.

(** C2, evaluated on the code.  A session stays in its loop while the
    provider reports focus lost from a first reading at [t0] on.  If the last
    such reading comes 4.9 seconds after the first and an attentive reading
    follows, the session inserts no focus event.  If a focus-lost reading
    comes 5.1 seconds after the first, it inserts exactly one, with the
    elapsed seconds (5) in its description -- of event type "focus_loss",
    which is not declared; in neither case is there a row of type
    "focus_lost".  Its confidence is what [random.uniform(0.7, 0.9)]
    returns for the draw of the iteration that logs it; at the largest draw
    of [random()] that is the float 0.9, so the interval is not open at
    0.9. *)
Theorem focus_debounce_logs_focus_loss tid self (w : World)
    (inps : list TickInput) (t0 u0 u_end : Q) (mids : list (Q * Q)) :
  threads w !! tid = Some self → alive self = true →
  focus_lost_start self = None →
  Forall (λ inp, insert_error inp = false) inps →
  is_alive tid (run_thread tid inps w) = true →
  ∃ rows,
    event_log (run_thread tid inps w) = event_log w ++ rows
    ∧ of_type "focus_lost" (calls_of rows) = []
    ∧ (∀ t' u',
         Forall (λ p, p.1 <= t0 + 4.9)%Q mids →
         focus_tick <$> inps =
           lost ((t0, u0) :: mids ++ [((t0 + 4.9)%Q, u_end)]) ++ [(t', true, u')] →
         of_type "focus_loss" (calls_of rows) = [])
    ∧ (nondecreasing t0 (t0 + 5.1) mids.*1 →
       focus_tick <$> inps = lost ((t0, u0) :: mids ++ [((t0 + 5.1)%Q, u_end)]) →
       ∃ u,
         u ∈ mids.*2 ++ [u_end]
         ∧ of_type "focus_loss" (calls_of rows) =
             [("focus_loss", "Focus lost for 5 seconds", uniform 0.7 0.9 u)])
    ∧ ("focus_loss" ∉ models.event_type_values)
    ∧ (uniform 0.7 0.9 largest_draw == binary64 0.9)%Q
    ∧ (0.9 <= uniform 0.7 0.9 largest_draw)%Q.
Proof.
  intros Hl Ha Hnone Herr Hrun.
  destruct (run_thread_focus tid inps self w Hl Ha Herr Hrun)
    as (self' & rows & _ & Hev & _ & Hloss & Hlost).
  destruct (focus_run_debounce t0 u0 u_end mids) as [Hshort Hlong].
  rewrite Hnone in Hloss.
  exists rows. split; [exact Hev |]. split; [exact Hlost |].
  split; [| split; [| split; [| split]]].
  - intros t' u' Hall Hticks. rewrite Hloss, Hticks.
    by rewrite (Hshort t' u' Hall).
  - intros Hnd Hticks. rewrite Hloss, Hticks. by apply Hlong.
  - intros H.
    repeat (apply elem_of_cons in H as [H | H]; [discriminate |]).
    by apply elem_of_nil in H.
  - vm_compute. reflexivity.
  - vm_compute. discriminate.
Qed.


Lemma focus_debounce_logs_focus_loss_witness :
  let w := (start_detection [] 100 1 30 (initial_world {[1 := "ongoing"]} [])).1 in
  let short := [tick_at 100 looking_away; tick_at 102 looking_away;
                tick_at (100 + 4.9) looking_away; tick_at 107 attentive] in
  let long := [tick_at 100 looking_away; tick_at 102 looking_away;
               tick_at (100 + 5.1) looking_away] in
  (∃ rows, event_log (run_thread 0 short w) = event_log w ++ rows
           ∧ of_type "focus_lost" (calls_of rows) = []
           ∧ of_type "focus_loss" (calls_of rows) = [])
  ∧ (∃ rows u,
       event_log (run_thread 0 long w) = event_log w ++ rows
       ∧ of_type "focus_lost" (calls_of rows) = []
       ∧ of_type "focus_loss" (calls_of rows) =
           [("focus_loss", "Focus lost for 5 seconds", uniform 0.7 0.9 u)]).
Proof.
  intros w short long.
  pose (self := {| interview := 1; duration_minutes := 30; _stop_event := false;
                   alive := true; start_time := 100; focus_lost_start := None;
                   no_face_start := None |}).
  split.
  - destruct (focus_debounce_logs_focus_loss 0 self w short 100 0.5 0.5 [(102%Q, 0.5%Q)])
      as (rows & Hev & Hlost & Hshort & _).
    + vm_compute. reflexivity.
    + reflexivity.
    + reflexivity.
    + repeat constructor.
    + vm_compute. reflexivity.
    + exists rows. split; [exact Hev |]. split; [exact Hlost |].
      apply (Hshort 107%Q 0.5%Q).
      * repeat constructor; cbn; lra.
      * reflexivity.
  - destruct (focus_debounce_logs_focus_loss 0 self w long 100 0.5 0.5 [(102%Q, 0.5%Q)])
      as (rows & Hev & Hlost & _ & Hlong & _).
    + vm_compute. reflexivity.
    + reflexivity.
    + reflexivity.
    + repeat constructor.
    + vm_compute. reflexivity.
    + destruct Hlong as (u & _ & Hloss).
      * cbn. repeat split; lra.
      * reflexivity.
      * exists rows, u. auto.
Defined.

(** ** Event types *)

(** The event types an iteration can log with the simulated provider: the
    focus step logs "focus_loss", every other step a declared type. *)
Lemma logged_event_types :
  (∀ start t focus u,
     Forall (λ c : LogCall, c.1.1 = "focus_loss") (focus_detection start t focus u).2)
  ∧ (∀ start t n u1 u2,
       Forall (λ c : LogCall, c.1.1 ∈ models.event_type_values)
         (face_detection start t n u1 u2).2)
  ∧ (∀ r k u,
       Forall (λ c : LogCall, c.1.1 ∈ models.event_type_values)
         (object_detection (_detect_objects r k) u))
  ∧ (∀ d u,
       Forall (λ c : LogCall, c.1.1 ∈ models.event_type_values)
         (drowsiness_detection d u)).
Proof.
  split; [| split; [| split]].
  - intros start t focus u. unfold focus_detection.
    destruct focus; cbn; [constructor |].
    destruct start as [s|]; cbn; [| constructor].
    destruct (Qlt_le_dec _ _); cbn; repeat constructor.
  - intros start t n u1 u2. unfold face_detection.
    destruct (decide (n = 0)); [| destruct (decide (1 < n))]; cbn.
    + destruct start as [s|]; cbn; [| constructor].
      destruct (Qlt_le_dec _ _); cbn; repeat constructor.
    + repeat constructor.
    + constructor.
  - intros r k u. unfold _detect_objects, choice.
    destruct (Qlt_le_dec r 0.05); cbn [app]; [| constructor].
    assert (Hk : (k `mod` 3 < 3)%nat) by (apply Nat.mod_upper_bound; lia).
    change (length ["phone"; "notes"; "device"]) with 3%nat.
    destruct (k `mod` 3)%nat as [|[|[|j]]]; [| | | lia]; repeat constructor.
  - intros d u. destruct d; cbn; repeat constructor.
Qed.

(** C8, evaluated on the code.  A session sees focus lost at its start and
    again 5.1 seconds later: the one event it logs has type "focus_loss",
    which [EVENT_TYPE_CHOICES] does not declare.  The report counts events of
    type "focus_lost" and finds none; the summary counts "focus_loss" and
    finds one. *)
Theorem focus_event_type_not_declared :
  let w0 := (start_detection [] 0 1 30 (initial_world {[1 := "ongoing"]} [])).1 in
  let w := run_thread 0 [tick_at 0 looking_away; tick_at 5.1 looking_away] w0 in
  ((λ e, (models.event_type e, models.description e)) <$> event_log w)
    = [("focus_loss", "Focus lost for 5 seconds")]
  ∧ ("focus_loss" ∉ models.event_type_values)
  ∧ (models.event_type_values =
       ["focus_lost"; "no_face"; "multiple_faces"; "phone_detected";
        "notes_detected"; "device_detected"; "drowsiness"; "audio_anomaly"])
  ∧ focus_loss (get_detection_summary 1 (event_log w)) = 1
  ∧ reports.focus_lost_events (reports.generate_report 1 (event_log w)) = 0.
Proof.
  cbv zeta. split; [| split; [| split; [| split]]].
  - vm_compute. reflexivity.
  - vm_compute. intros H.
    repeat (apply elem_of_cons in H as [H | H]; [discriminate |]).
    by apply elem_of_nil in H.
  - reflexivity.
  - vm_compute. reflexivity.
  - vm_compute. reflexivity.
Qed.

End Engine.

(** * More of the engine: cleanup and the active count *)

Section Cleanup.
Import detection_engine.

Lemma cleanup_fold_exact (items : list (Z * nat)) :
  ∀ (w : World) (l : list Z),
  NoDup items.*1 →
  (∀ k t, (k, t) ∈ items → active_detection_threads w !! k = Some t) →
  let acc' := foldl cleanup_one (w, l) items in
  threads acc'.1 = threads w
  ∧ interviews acc'.1 = interviews w
  ∧ event_log acc'.1 = event_log w
  ∧ (∀ j t, active_detection_threads acc'.1 !! j = Some t ↔
            active_detection_threads w !! j = Some t
            ∧ ¬ ((j, t) ∈ items ∧ is_alive t w = false))
  ∧ (size (active_detection_threads acc'.1) + length acc'.2
     = size (active_detection_threads w) + length l)%nat.
Proof.
  induction items as [|[k t0] items IH]; intros w l Hnd Hin; cbn [foldl].
  - cbn. do 3 (split; [done |]). split; [| done]. intros j t. split.
    + intros Hj. split; [done |]. intros [H' _]. by apply elem_of_nil in H'.
    + by intros [Hj _].
  - cbn in Hnd. apply NoDup_cons in Hnd as [Hk Hnd].
    assert (Hk0 : active_detection_threads w !! k = Some t0).
    { apply Hin. apply elem_of_cons. by left. }
    assert (Hstep : cleanup_one (w, l) (k, t0) =
              if negb (is_alive t0 w) then
                (emit (Print (CleanedUpInactive k))
                   (set_active_detection_threads
                      (delete k (active_detection_threads w)) w), l ++ [k])
              else (w, l)) by reflexivity.
    rewrite Hstep. clear Hstep.
    destruct (is_alive t0 w) eqn:Hal; cbn [negb].
    + destruct (IH w l Hnd) as (Ht & Hi & He & Hr & Hs).
      { intros k' t Hkt. apply Hin. apply elem_of_cons. by right. }
      cbv zeta in *. do 3 (split; [done |]). split; [| done]. intros j t. split.
      * intros H. apply Hr in H as [H Hn]. split; [done |].
        intros [Hm Hd]. apply elem_of_cons in Hm as [Hm | Hm]; [| by apply Hn].
        injection Hm as -> ->. congruence.
      * intros [H Hn]. apply Hr. split; [done |].
        intros [Hm Hd]. apply Hn. split; [| done]. apply elem_of_cons. by right.
    + set (w1 := emit (Print (CleanedUpInactive k))
                   (set_active_detection_threads
                      (delete k (active_detection_threads w)) w)).
      destruct (IH w1 (l ++ [k]) Hnd) as (Ht & Hi & He & Hr & Hs).
      { intros k' t Hkt. cbn. rewrite lookup_delete_ne.
        - apply Hin. apply elem_of_cons. by right.
        - intros <-. apply Hk. apply list_elem_of_fmap. by exists (k, t). }
      cbv zeta in *. split; [exact Ht |]. split; [exact Hi |]. split; [exact He |].
      split.
      * intros j t. rewrite Hr. cbn [active_detection_threads w1 emit
                                      set_active_detection_threads].
        change (is_alive t w1) with (is_alive t w).
        destruct (decide (j = k)) as [-> | Hne].
        -- rewrite lookup_delete_eq. split; [by intros [? _] |].
           intros [H Hn]. exfalso. apply Hn.
           assert (t = t0) as -> by congruence.
           split; [apply elem_of_cons; by left | done].
        -- rewrite lookup_delete_ne by done. split.
           ++ intros [H Hn]. split; [done |]. intros [Hm Hd]. apply Hn.
              apply elem_of_cons in Hm as [Hm | Hm]; [congruence | done].
           ++ intros [H Hn]. split; [done |]. intros [Hm Hd]. apply Hn.
              split; [apply elem_of_cons; by right | done].
      * rewrite Hs. cbn [active_detection_threads w1 emit
                           set_active_detection_threads].
        rewrite map_size_delete_Some by eauto. rewrite length_app. cbn.
        assert (0 < size (active_detection_threads w))%nat; [| lia].
        destruct (size (active_detection_threads w)) eqn:Hz; [| lia].
        apply map_size_empty_inv in Hz. rewrite Hz in Hk0. by rewrite lookup_empty in Hk0.
Qed.

Lemma cleanup_fold_count (items : list (Z * nat)) :
  ∀ (w : World) (l : list Z),
  length (foldl cleanup_one (w, l) items).2
  = (length l + length (filter (λ kt, is_alive kt.2 w = false) items))%nat.
Proof.
  induction items as [|[k t0] items IH]; intros w l; cbn [foldl].
  - cbn. lia.
  - assert (Hstep : cleanup_one (w, l) (k, t0) =
              if negb (is_alive t0 w) then
                (emit (Print (CleanedUpInactive k))
                   (set_active_detection_threads
                      (delete k (active_detection_threads w)) w), l ++ [k])
              else (w, l)) by reflexivity.
    rewrite Hstep. clear Hstep. rewrite filter_cons. cbn [snd].
    destruct (is_alive t0 w) eqn:Hal; cbn [negb].
    + rewrite IH. by case_decide.
    + rewrite IH. rewrite length_app. cbn [length].
      case_decide; [| done]. cbn [length]. unfold is_alive.
      cbn [threads emit set_active_detection_threads]. lia.
Qed.

Lemma alive_dead_split (w : World) (items : list (Z * nat)) :
  (length (filter (λ t, is_alive t w = true) items.*2)
   + length (filter (λ kt, is_alive kt.2 w = false) items)
   = length items)%nat.
Proof.
  induction items as [|[k t] items IH]; [done |].
  cbn [fmap list_fmap snd]. rewrite !filter_cons. cbn [snd].
  destruct (is_alive t w) eqn:E; repeat case_decide; try done; cbn; lia.
Qed.

Lemma cleanup_exact (w : World) :
  let w' := (cleanup_inactive_threads w).1 in
  let removed := (cleanup_inactive_threads w).2 in
  (∀ id t, active_detection_threads w' !! id = Some t ↔
           active_detection_threads w !! id = Some t ∧ is_alive t w = true)
  ∧ removed = Z.of_nat (size (active_detection_threads w))
              - Z.of_nat (size (active_detection_threads w'))
  ∧ removed + (get_active_detection_count w).2
    = Z.of_nat (size (active_detection_threads w))
  ∧ threads w' = threads w
  ∧ interviews w' = interviews w
  ∧ event_log w' = event_log w.
Proof.
  cbv zeta. unfold cleanup_inactive_threads.
  destruct (cleanup_fold_exact (map_to_list (active_detection_threads w)) w [])
    as (Ht & Hi & He & Hr & Hs).
  { apply NoDup_fst_map_to_list. }
  { intros k t Hkt. by apply elem_of_map_to_list. }
  pose proof (cleanup_fold_count (map_to_list (active_detection_threads w)) w [])
    as Hc.
  pose proof (alive_dead_split w (map_to_list (active_detection_threads w))) as Hsplit.
  rewrite length_map_to_list in Hsplit.
  cbv zeta in *.
  destruct (foldl cleanup_one (w, []) _) as [w1 l].
  cbn [fst snd active_detection_threads threads interviews event_log emit
       length] in *.
  split; [| split; [| split; [| done]]].
  - intros id t. rewrite Hr. split.
    + intros [H Hn]. split; [done |].
      destruct (is_alive t w) eqn:E; [done |]. exfalso. apply Hn.
      split; [by apply elem_of_map_to_list | done].
    + intros [H Ha]. split; [done |]. intros [_ Hd]. congruence.
  - lia.
  - unfold get_active_detection_count. cbn [snd]. lia.
Qed.

(** X1.  [cleanup_inactive_threads] removes from the registry exactly the
    entries whose thread is no longer alive and returns how many it removed;
    entries of live threads, the threads themselves, the interviews and the
    events are untouched, and a second cleanup has nothing left to remove. *)
Theorem cleanup_removes_exactly_the_dead (w : World) :
  let w' := (cleanup_inactive_threads w).1 in
  let removed := (cleanup_inactive_threads w).2 in
  (∀ id t, active_detection_threads w' !! id = Some t ↔
           active_detection_threads w !! id = Some t ∧ is_alive t w = true)
  ∧ removed = Z.of_nat (size (active_detection_threads w))
              - Z.of_nat (size (active_detection_threads w'))
  ∧ threads w' = threads w
  ∧ interviews w' = interviews w
  ∧ event_log w' = event_log w
  ∧ (cleanup_inactive_threads w').2 = 0.
Proof.
  cbv zeta.
  destruct (cleanup_exact w) as (Hr & Hn & _ & Ht & Hi & He).
  destruct (cleanup_exact (cleanup_inactive_threads w).1) as (Hr' & Hn' & _).
  cbv zeta in *.
  do 5 (split; [done |]).
  rewrite Hn'.
  replace (active_detection_threads
             (cleanup_inactive_threads (cleanup_inactive_threads w).1).1)
    with (active_detection_threads (cleanup_inactive_threads w).1); [lia |].
  apply map_eq. intros j. apply option_eq. intros t.
  rewrite Hr'. split; [| by intros [? _]].
  intros H. split; [done |]. apply Hr in H as [_ Ha].
  unfold is_alive in *. by rewrite Ht.
Qed.

(** X2.  The count [get_active_detection_count] returns and the number of
    entries a cleanup would remove add up to the size of the registry; so the
    count lies between 0 and the number of entries, and right after a cleanup
    every entry counts as active. *)
Theorem active_count_and_cleanup (w : World) :
  (get_active_detection_count w).2 + (cleanup_inactive_threads w).2
  = Z.of_nat (size (active_detection_threads w))
  ∧ 0 ≤ (get_active_detection_count w).2 ≤ Z.of_nat (size (active_detection_threads w))
  ∧ (get_active_detection_count (cleanup_inactive_threads w).1).2
    = Z.of_nat (size (active_detection_threads (cleanup_inactive_threads w).1)).
Proof.
  destruct (cleanup_exact w) as (Hr & Hn & Hsum & Ht & _).
  destruct (cleanup_exact (cleanup_inactive_threads w).1) as (Hr' & Hn' & Hsum' & _).
  cbv zeta in *.
  assert (Hsame : active_detection_threads
             (cleanup_inactive_threads (cleanup_inactive_threads w).1).1
           = active_detection_threads (cleanup_inactive_threads w).1).
  { apply map_eq. intros j. apply option_eq. intros t.
    rewrite Hr'. split; [by intros [? _] |].
    intros H. split; [done |]. apply Hr in H as [_ Ha].
    unfold is_alive in *. by rewrite Ht. }
  rewrite Hsame in Hn'.
  assert (0 ≤ (cleanup_inactive_threads w).2).
  { unfold cleanup_inactive_threads. destruct (foldl _ _ _). cbn. lia. }
  assert (0 ≤ (get_active_detection_count w).2).
  { unfold get_active_detection_count. cbn. lia. }
  lia.
Qed.

End Cleanup.

(** * The stores through engine operations *)

Section EngineSteps.
Import detection_engine.

Lemma ages_refl t : ages t t.
Proof. by repeat split. Qed.

Lemma ages_trans t1 t2 t3 : ages t1 t2 → ages t2 t3 → ages t1 t3.
Proof.
  intros (? & ? & ? & ? & ?) (? & ? & ? & ? & ?).
  repeat split; try congruence; auto.
Qed.

Lemma evolves_ages t t' : evolves t t' → ages t t'.
Proof.
  intros (? & ? & ? & Hs & Ha). repeat split; try done.
  - intros Hd. destruct (alive t') eqn:E; [| done]. rewrite Ha in Hd; done.
  - intros. by rewrite Hs.
Qed.

Lemma engine_step_refl (w : World) : engine_step w w.
Proof.
  repeat split; try done; [| by left].
  intros x t Hx. exists t. split; [done | apply ages_refl].
Qed.

Lemma engine_step_trans (w1 w2 w3 : World) :
  engine_step w1 w2 → engine_step w2 w3 → engine_step w1 w3.
Proof.
  intros (Ht & Hl & Hr & Hi & He & Ho & Hp) (Ht' & Hl' & Hr' & Hi' & He' & Ho' & Hp').
  split; [| split; [| split; [| split; [| split; [| split]]]]].
  - intros x t Hx. destruct (Ht x t Hx) as (t2 & Hx2 & Ha).
    destruct (Ht' x t2 Hx2) as (t3 & Hx3 & Ha'). exists t3.
    split; [done |]. by eapply ages_trans.
  - congruence.
  - by etrans.
  - congruence.
  - by etrans.
  - auto.
  - intros e He3. apply Hp' in He3 as [He2 | (tid & t2 & Hx2 & Ha2 & Hi2)]; [auto |].
    right. exists tid.
    assert (Hlt : (tid < length (threads w1))%nat).
    { rewrite <- Hl. by eapply lookup_lt_Some. }
    apply lookup_lt_is_Some in Hlt as [t1 Hx1].
    destruct (Ht tid t1 Hx1) as (t2' & Hx2' & Hag).
    assert (t2' = t2) as -> by congruence.
    destruct Hag as (Hiv & _ & _ & Hal & _).
    exists t1. split; [done |]. split; [| congruence].
    destruct (alive t1); [done |]. rewrite Hal in Ha2; done.
Qed.

(** Only the trace or the registry change, and the registry only shrinks. *)
Lemma engine_step_same_heap (w w' : World) :
  threads w' = threads w →
  active_detection_threads w' ⊆ active_detection_threads w →
  interviews w' = interviews w →
  event_log w' = event_log w →
  engine_step w w'.
Proof.
  intros Ht Hr Hi He. repeat split; try done.
  - intros x t Hx. exists t. rewrite Ht. split; [done | apply ages_refl].
  - by rewrite Ht.
  - by rewrite He.
  - by rewrite He.
  - rewrite He. by left.
Qed.

Lemma engine_step_emit e (w : World) : engine_step w (emit e w).
Proof. by apply engine_step_same_heap. Qed.

Lemma engine_step_del_if_present k m (w : World) :
  engine_step w (del_if_present k m w).
Proof.
  unfold del_if_present.
  destruct (active_detection_threads w !! k); [| apply engine_step_refl].
  destruct m; apply engine_step_same_heap; try done; cbn; apply delete_subseteq.
Qed.

Lemma engine_step_stop tid (w : World) : engine_step w (stop tid w).
Proof.
  unfold stop. destruct (threads w !! tid) as [s|] eqn:Hl; [| apply engine_step_refl].
  repeat split; try done; cbn; [| | by left].
  - intros x t Hx. destruct (decide (x = tid)) as [-> | Hne].
    + rewrite list_lookup_insert_eq by (by eapply lookup_lt_Some).
      eexists. split; [done |]. simplify_eq. by repeat split.
    + rewrite list_lookup_insert_ne by done. exists t. split; [done | apply ages_refl].
  - apply length_insert.
Qed.

Lemma _log_event_events err now self c (w : World) :
  event_log w `prefix_of` event_log (_log_event err now self c w)
  ∧ (QuerySet.insertion_ordered (event_log w) →
     QuerySet.insertion_ordered (event_log (_log_event err now self c w)))
  ∧ ∀ e, e ∈ event_log (_log_event err now self c w) →
         e ∈ event_log w ∨ models.interview e = interview self.
Proof.
  destruct c as [[ty desc] conf]. unfold _log_event.
  destruct err; cbn; [auto |].
  split; [by apply prefix_app_r |]. split.
  - apply create_insertion_ordered.
  - unfold QuerySet.create. intros e He.
    apply elem_of_app in He as [He | He]; [by left |].
    apply list_elem_of_singleton in He. right. by subst e.
Qed.

Lemma log_all_events err now self cs (w : World) :
  event_log w `prefix_of` event_log (log_all err now self cs w)
  ∧ (QuerySet.insertion_ordered (event_log w) →
     QuerySet.insertion_ordered (event_log (log_all err now self cs w)))
  ∧ ∀ e, e ∈ event_log (log_all err now self cs w) →
         e ∈ event_log w ∨ models.interview e = interview self.
Proof.
  unfold log_all. revert w. induction cs as [|c cs IH]; intros w; cbn [foldl].
  - auto.
  - destruct (IH (_log_event err now self c w)) as (Hp & Ho & Hi).
    destruct (_log_event_events err now self c w) as (Hp1 & Ho1 & Hi1).
    split; [by etrans |]. split; [auto |].
    intros e He. apply Hi in He as [He | He]; auto.
Qed.

Lemma detect_events tid self inp (w : World) :
  event_log w `prefix_of` event_log (detect tid self inp w).2
  ∧ (QuerySet.insertion_ordered (event_log w) →
     QuerySet.insertion_ordered (event_log (detect tid self inp w).2))
  ∧ ∀ e, e ∈ event_log (detect tid self inp w).2 →
         e ∈ event_log w ∨ models.interview e = interview self.
Proof.
  unfold detect.
  destruct (focus_detection _ _ _ _) as [f fc].
  destruct (face_detection _ _ _ _ _) as [n nc]. cbn [fst snd].
  set (err := insert_error inp). set (now := db_now inp).
  set (w1 := log_all err now self fc (emit (Call tid DetectFocus) w)).
  set (w2 := log_all err now self nc (emit (Call tid DetectFaces) w1)).
  set (w3 := log_all err now self _ (emit (Call tid DetectObjects) w2)).
  set (w4 := log_all err now self _ (emit (Call tid DetectDrowsiness) w3)).
  destruct (log_all_events err now self fc (emit (Call tid DetectFocus) w))
    as (Hp1 & Ho1 & Hi1).
  destruct (log_all_events err now self nc (emit (Call tid DetectFaces) w1))
    as (Hp2 & Ho2 & Hi2).
  destruct (log_all_events err now self
              (object_detection (objects (readings inp)) (u_object inp))
              (emit (Call tid DetectObjects) w2)) as (Hp3 & Ho3 & Hi3).
  destruct (log_all_events err now self
              (drowsiness_detection (drowsy (readings inp)) (u_drowsiness inp))
              (emit (Call tid DetectDrowsiness) w3)) as (Hp4 & Ho4 & Hi4).
  fold w1 in Hp1, Ho1, Hi1. fold w2 in Hp2, Ho2, Hi2.
  fold w3 in Hp3, Ho3, Hi3. fold w4 in Hp4, Ho4, Hi4.
  cbn [event_log emit] in *.
  split; [| split].
  - etrans; [exact Hp1 |]. etrans; [exact Hp2 |]. by etrans.
  - auto.
  - intros e He.
    apply Hi4 in He as [He | He]; [| by right].
    apply Hi3 in He as [He | He]; [| by right].
    apply Hi2 in He as [He | He]; [| by right].
    apply Hi1 in He as [He | He]; [by left | by right].
Qed.

Lemma engine_step_run_iteration tid inp (w : World) :
  engine_step w (run_iteration tid inp w).
Proof.
  split; [| split; [| split; [| split]]].
  - intros x t Hx. destruct (run_iteration_thread tid inp w x t Hx) as (t' & ? & ?).
    exists t'. split; [done |]. by apply evolves_ages.
  - apply run_iteration_length.
  - apply run_iteration_registry.
  - destruct (run_iteration_cases tid inp w)
      as [-> | (self & Hl & Ha & [(w0 & -> & _ & _ & Hi & _) | (_ & _ & _ & ->)])].
    + done.
    + destruct (finish_spec tid self w0) as (_ & _ & -> & _). done.
    + cbn [interviews emit set_thread set_threads].
      by destruct (detect_frame tid self inp w) as (_ & _ & -> & _).
  - destruct (run_iteration_cases tid inp w)
      as [-> | (self & Hl & Ha & [(w0 & -> & _ & _ & _ & He & _) | (_ & _ & _ & ->)])].
    + split; [done |]. split; [done |]. by left.
    + destruct (finish_spec tid self w0) as (_ & _ & _ & -> & _). rewrite He.
      split; [done |]. split; [done |]. by left.
    + cbn [event_log emit set_thread set_threads].
      destruct (detect_events tid self inp w) as (Hp & Ho & Hin).
      split; [done |]. split; [done |].
      intros e He. apply Hin in He as [He | He]; [by left |].
      right. exists tid, self. done.
Qed.

Lemma engine_step_concurrently acts (w : World) :
  engine_step w (concurrently acts w).
Proof.
  unfold concurrently. revert w.
  induction acts as [|[tid inp] acts IH]; intros w; cbn [foldl].
  - apply engine_step_refl.
  - eapply engine_step_trans; [apply engine_step_run_iteration | apply IH].
Qed.

Lemma engine_step_join acts tid timeout (w : World) :
  engine_step w (join acts tid timeout w).
Proof.
  unfold join. eapply engine_step_trans; [apply engine_step_concurrently |].
  apply engine_step_emit.
Qed.

Lemma engine_step_del k (w w' : World) : del k w = inl w' → engine_step w w'.
Proof.
  unfold del. destruct (active_detection_threads w !! k); [| done].
  intros [= <-]. apply engine_step_same_heap; try done. cbn. apply delete_subseteq.
Qed.

Lemma engine_step_stop_detection acts interview_id (w : World) :
  engine_step w (stop_detection acts interview_id w).1.
Proof.
  unfold stop_detection. cbn [active_detection_threads emit].
  destruct (active_detection_threads w !! interview_id) as [thread|].
  - set (wj := join acts thread 10 _).
    assert (Hj : engine_step w wj).
    { unfold wj. eapply engine_step_trans; [| apply engine_step_join].
      eapply engine_step_trans; [| apply engine_step_stop].
      eapply engine_step_trans; apply engine_step_emit. }
    clearbody wj.
    destruct (is_alive thread wj).
    + destruct (del interview_id (emit _ wj)) as [w3|e] eqn:Hd; cbn [fst].
      * eapply engine_step_trans; [| apply engine_step_del_if_present].
        eapply engine_step_trans; [| apply engine_step_del_if_present].
        eapply engine_step_trans; [| eapply engine_step_del, Hd].
        eapply engine_step_trans; [exact Hj | apply engine_step_emit].
      * eapply engine_step_trans; [exact Hj | apply engine_step_emit].
    + cbn [fst].
      eapply engine_step_trans; [| apply engine_step_del_if_present].
      eapply engine_step_trans; [| apply engine_step_del_if_present].
      eapply engine_step_trans; [exact Hj | apply engine_step_emit].
  - cbn [fst].
    eapply engine_step_trans; [| apply engine_step_del_if_present].
    eapply engine_step_trans; apply engine_step_emit.
Qed.

Lemma engine_step_foldl {A} (f : World → A → World) (items : list A) :
  (∀ w a, engine_step w (f w a)) → ∀ w, engine_step w (foldl f w items).
Proof.
  intros Hf. induction items as [|a items IH]; intros w; cbn [foldl].
  - apply engine_step_refl.
  - eapply engine_step_trans; [apply Hf | apply IH].
Qed.

Lemma engine_step_force_stop_one acts (w : World) item :
  engine_step w (force_stop_one acts w item).
Proof.
  destruct item as [k thread]. unfold force_stop_one.
  eapply engine_step_trans; [| apply engine_step_del_if_present].
  eapply engine_step_trans; [| apply engine_step_join].
  eapply engine_step_trans; [| apply engine_step_stop].
  apply engine_step_emit.
Qed.

Lemma engine_step_force_stop_all_detection acts (w : World) :
  engine_step w (force_stop_all_detection acts w).
Proof.
  unfold force_stop_all_detection.
  eapply engine_step_trans; [| apply engine_step_emit].
  eapply engine_step_trans; [apply engine_step_emit |].
  apply engine_step_foldl. apply engine_step_force_stop_one.
Qed.

Lemma engine_step_cleanup_inactive_threads (w : World) :
  engine_step w (cleanup_inactive_threads w).1.
Proof.
  destruct (cleanup_exact w) as (Hr & _ & _ & Ht & Hi & He). cbv zeta in *.
  apply engine_step_same_heap; try done.
  apply map_subseteq_spec. intros id t H. by apply Hr in H as [H _].
Qed.

(** The engine operations other than [Start]. *)
Lemma engine_step_exec op (w : World) :
  engine_op op = true → started_interviews [op] = [] → engine_step w (exec op w).
Proof.
  destruct op; cbn; try done; intros _ _.
  - apply engine_step_stop_detection.
  - apply engine_step_force_stop_all_detection.
  - apply engine_step_cleanup_inactive_threads.
  - apply engine_step_run_iteration.
Qed.

Lemma engine_step_history (w w' : World) :
  engine_step w w' → history_step [] w w'.
Proof.
  intros (Ht & Hl & _ & _ & Hp & Ho & He).
  split; [done |]. split; [| split; [done |]; split; [done |]].
  - intros x t' Hx. left. apply lookup_lt_is_Some. rewrite <- Hl.
    by eapply lookup_lt_Some.
  - intros e Hin. apply He in Hin as [? | ?]; auto.
Qed.

Lemma history_step_mono ids ids' (w w' : World) :
  ids ⊆ ids' → history_step ids w w' → history_step ids' w w'.
Proof.
  intros Hsub (Ht & Hn & Hp & Ho & He).
  split; [done |]. split; [| split; [done |]; split; [done |]].
  - intros x t' Hx. destruct (Hn x t' Hx) as [? | ?]; auto.
  - intros e Hin. destruct (He e Hin) as [? | [? | ?]]; auto.
Qed.

Lemma history_step_same_stores ids (w w' : World) :
  threads w' = threads w → event_log w' = event_log w → history_step ids w w'.
Proof.
  intros Ht He. split; [| split; [| split; [| split]]].
  - intros x t Hx. exists t. rewrite Ht. split; [done | apply ages_refl].
  - intros x t' Hx. left. rewrite <- Ht. by eexists.
  - by rewrite He.
  - by rewrite He.
  - intros e Hin. left. by rewrite <- He.
Qed.

Lemma history_step_refl ids (w : World) : history_step ids w w.
Proof. by apply history_step_same_stores. Qed.

Lemma history_step_trans ids1 ids2 (w1 w2 w3 : World) :
  history_step ids1 w1 w2 → history_step ids2 w2 w3 →
  history_step (ids1 ++ ids2) w1 w3.
Proof.
  intros (Ht & Hn & Hp & Ho & He) (Ht' & Hn' & Hp' & Ho' & He').
  split; [| split; [| split; [| split]]].
  - intros x t Hx. destruct (Ht x t Hx) as (t2 & Hx2 & Ha).
    destruct (Ht' x t2 Hx2) as (t3 & Hx3 & Ha'). exists t3.
    split; [done |]. by eapply ages_trans.
  - intros x t3 Hx3. destruct (Hn' x t3 Hx3) as [[t2 Hx2] | Hin].
    + destruct (Hn x t2 Hx2) as [? | Hin]; [by left |].
      right. apply elem_of_app. left.
      destruct (Ht' x t2 Hx2) as (t3' & Hx3' & Hag).
      assert (t3' = t3) as -> by congruence.
      destruct Hag as (-> & _). done.
    + right. apply elem_of_app. by right.
  - by etrans.
  - auto.
  - intros e Hin. destruct (He' e Hin) as [H2 | [Hid | (tid & t2 & Hx2 & Hal & Hiv)]].
    + destruct (He e H2) as [? | [? | ?]]; auto.
      right. left. apply elem_of_app. by left.
    + right. left. apply elem_of_app. by right.
    + destruct (Hn tid t2 Hx2) as [[t1 Hx1] | Hid].
      * right. right. exists tid, t1. split; [done |].
        destruct (Ht tid t1 Hx1) as (t2' & Hx2' & Hag).
        assert (t2' = t2) as -> by congruence.
        destruct Hag as (Hi & _ & _ & Hd & _). split; [| congruence].
        destruct (alive t1); [done |]. rewrite Hd in Hal; done.
      * right. left. apply elem_of_app. left. by rewrite <- Hiv.
Qed.

Lemma history_step_start_detection acts now interview_id duration_minutes
    (w : World) :
  history_step [interview_id] w
    (start_detection acts now interview_id duration_minutes w).1.
Proof.
  pose proof (engine_step_stop_detection acts interview_id
                (emit (Print (StartingDetection interview_id)) w)) as Hs.
  assert (H0 : history_step [] w
                 (stop_detection acts interview_id
                    (emit (Print (StartingDetection interview_id)) w)).1).
  { apply engine_step_history.
    eapply engine_step_trans; [apply engine_step_emit | exact Hs]. }
  destruct (stop_detection acts interview_id
              (emit (Print (StartingDetection interview_id)) w))
    as [w1 [e|]] eqn:Hsd.
  - unfold start_detection. rewrite Hsd. cbn [fst] in *.
    eapply history_step_mono; [| exact H0].
    intros x Hx. by apply elem_of_nil in Hx.
  - destruct (start_detection_spec acts now interview_id duration_minutes w w1 Hsd)
      as (_ & Hth & _).
    cbv zeta in Hth.
    assert (Hev : event_log (start_detection acts now interview_id
                               duration_minutes w).1 = event_log w1).
    { unfold start_detection. rewrite Hsd. unfold thread_start.
      cbn [threads set_threads set_active_detection_threads].
      rewrite list_lookup_middle by done. done. }
    cbn [fst] in H0.
    change [interview_id] with ([] ++ [interview_id]).
    eapply history_step_trans; [exact H0 |].
    split; [| split; [| split; [| split]]].
    + intros x t Hx. exists t. split; [| apply ages_refl].
      rewrite Hth. by apply lookup_app_l_Some.
    + intros x t' Hx. rewrite Hth in Hx.
      apply lookup_app_Some in Hx as [Hx | [_ Hx]]; [by left; eexists |].
      right. apply list_lookup_singleton_Some in Hx as [_ <-].
      apply list_elem_of_singleton. done.
    + by rewrite Hev.
    + by rewrite Hev.
    + intros e. rewrite Hev. by left.
Qed.

Lemma history_step_exec op (w : World) :
  history_step (started_interviews [op]) w (exec op w).
Proof.
  destruct op as [acts now id d | acts id | acts | | tid inp | id st | id];
    cbn [exec started_interviews omap list_omap].
  - apply history_step_start_detection.
  - apply engine_step_history, engine_step_stop_detection.
  - apply engine_step_history, engine_step_force_stop_all_detection.
  - apply engine_step_history, engine_step_cleanup_inactive_threads.
  - apply engine_step_history, engine_step_run_iteration.
  - by apply history_step_same_stores.
  - by apply history_step_same_stores.
Qed.

Lemma started_interviews_cons op ops :
  started_interviews (op :: ops) = started_interviews [op] ++ started_interviews ops.
Proof. unfold started_interviews. cbn. by destruct op. Qed.

Lemma history_step_run_ops ops :
  ∀ w : World, history_step (started_interviews ops) w (run_ops ops w).
Proof.
  unfold run_ops. induction ops as [|op ops IH]; intros w; cbn [foldl].
  - apply history_step_refl.
  - rewrite started_interviews_cons.
    eapply history_step_trans; [apply history_step_exec | apply IH].
Qed.

Lemma exec_interviews op (w : World) :
  engine_op op = true → interviews (exec op w) = interviews w.
Proof.
  intros Hop. destruct op as [acts now id d | acts id | acts | | tid inp | id st | id];
    try done; cbn [exec].
  - pose proof (engine_step_stop_detection acts id
                  (emit (Print (StartingDetection id)) w)) as (_ & _ & _ & Hi & _).
    unfold start_detection.
    destruct (stop_detection acts id (emit (Print (StartingDetection id)) w))
      as [w1 [e|]]; cbn [fst] in *; [done |].
    unfold thread_start. cbn [threads set_threads set_active_detection_threads].
    rewrite list_lookup_middle by done. done.
  - by destruct (engine_step_stop_detection acts id w) as (_ & _ & _ & Hi & _).
  - by destruct (engine_step_force_stop_all_detection acts w) as (_ & _ & _ & Hi & _).
  - by destruct (engine_step_cleanup_inactive_threads w) as (_ & _ & _ & Hi & _).
  - by destruct (engine_step_run_iteration tid inp w) as (_ & _ & _ & Hi & _).
Qed.

Lemma run_ops_interviews ops :
  ∀ w : World,
  Forall (λ op, engine_op op = true) ops →
  interviews (run_ops ops w) = interviews w.
Proof.
  unfold run_ops. induction ops as [|op ops IH]; intros w Hall; cbn [foldl]; [done |].
  apply Forall_cons in Hall as [Hop Hall].
  rewrite IH by done. by apply exec_interviews.
Qed.

(** X3.  Through any history of registry calls, thread iterations and
    status writes (no interview is deleted) the event table is append-only:
    the rows present before are still there, unchanged and in place; a table
    in insertion order stays so; and every added row is for an interview
    that a [start_detection] of the history names or that had a live session
    when the history began. *)
Theorem event_log_append_only ops (w : World) :
  Forall (λ op, keeps_events op = true) ops →
  event_log w `prefix_of` event_log (run_ops ops w)
  ∧ (QuerySet.insertion_ordered (event_log w) →
     QuerySet.insertion_ordered (event_log (run_ops ops w)))
  ∧ (∀ e, e ∈ event_log (run_ops ops w) →
       e ∈ event_log w
       ∨ models.interview e ∈ started_interviews ops
       ∨ ∃ tid, live_session w (models.interview e) tid).
Proof.
  intros _. by destruct (history_step_run_ops ops w) as (_ & _ & Hp & Ho & He).
Qed.

Lemma event_log_append_only_witness :
  let w := initial_world {[1 := "ongoing"; 2 := "ongoing"]}
             (QuerySet.create 0 9 "no_face" "" 1 []) in
  let ops := [Start [] 0 1 30; Tick 0 (tick_at 0 looking_away);
              Tick 0 (tick_at 6 looking_away); SaveInterview 1 "completed";
              Stop [(0%nat, tick_at 8 attentive)] 1] in
  length (event_log (run_ops ops w)) = 2%nat
  ∧ event_log w `prefix_of` event_log (run_ops ops w)
  ∧ ∀ e, e ∈ event_log (run_ops ops w) →
         e ∈ event_log w ∨ models.interview e ∈ [1].
Proof.
  intros w ops.
  destruct (event_log_append_only ops w) as (H1 & _ & H3).
  - repeat constructor.
  - split; [vm_compute; reflexivity |]. split; [exact H1 |].
    intros e He. destruct (H3 e He) as [H | [H | (tid & t & Hl & _)]].
    + by left.
    + by right.
    + cbn in Hl. by rewrite lookup_nil in Hl.
Defined.

(** X4.  Through any history a thread object keeps its interview, its
    duration budget and its start time; once it is no longer alive it never
    runs again, and a stop event that was set is never cleared.  Thread
    handles stay valid, and the only threads the history adds are sessions
    for the interviews its [start_detection] calls name. *)
Theorem threads_only_age ops (w : World) :
  (∀ tid t, threads w !! tid = Some t →
     ∃ t', threads (run_ops ops w) !! tid = Some t'
           ∧ interview t' = interview t
           ∧ duration_minutes t' = duration_minutes t
           ∧ start_time t' = start_time t
           ∧ (alive t = false → alive t' = false)
           ∧ (_stop_event t = true → _stop_event t' = true))
  ∧ (∀ tid t', threads (run_ops ops w) !! tid = Some t' →
       is_Some (threads w !! tid) ∨ interview t' ∈ started_interviews ops).
Proof.
  destruct (history_step_run_ops ops w) as (Ht & Hn & _). split; [| done].
  intros tid t Hx. destruct (Ht tid t Hx) as (t' & Hx' & Hag). by exists t'.
Qed.

(** X5.  The engine only reads the interview table: a history made of
    [start_detection], [stop_detection], [force_stop_all_detection],
    [cleanup_inactive_threads] and thread iterations leaves every interview
    row, and so every status, as it was. *)
Theorem engine_never_writes_interviews ops (w : World) :
  Forall (λ op, engine_op op = true) ops →
  interviews (run_ops ops w) = interviews w.
Proof. apply run_ops_interviews. Qed.

Lemma engine_never_writes_interviews_witness :
  let w := initial_world {[1 := "ongoing"; 2 := "scheduled"]} [] in
  let ops := [Start [] 0 1 1; Tick 0 (tick_at 0 attentive);
              Tick 0 (tick_at 61 attentive); Start [] 0 2 30;
              Tick 1 (tick_at 62 attentive); Cleanup; ForceStopAll (λ _, [])] in
  threads (run_ops ops w) !! 0%nat ≠ threads w !! 0%nat
  ∧ interviews (run_ops ops w) = interviews w.
Proof.
  intros w ops. split; [vm_compute; discriminate |].
  apply (engine_never_writes_interviews ops w). repeat constructor.
Defined.

Lemma engine_step_registry_sound (w w' : World) :
  engine_step w w' → registry_sound w → registry_sound w'.
Proof.
  intros (Ht & _ & Hr & _) Hs id tid Hreg.
  eapply lookup_weaken in Hreg; [| exact Hr].
  destruct (Hs id tid Hreg) as (t & Hx & Hi).
  destruct (Ht tid t Hx) as (t' & Hx' & Hi' & _).
  exists t'. split; [done | congruence].
Qed.

Lemma exec_registry_sound op (w : World) :
  registry_sound w → registry_sound (exec op w).
Proof.
  intros Hs. destruct op as [acts now id d | acts id | acts | | tid inp | id st | id];
    cbn [exec]; try done.
  - pose proof (engine_step_stop_detection acts id
                  (emit (Print (StartingDetection id)) w)) as Hstep.
    destruct (stop_detection acts id (emit (Print (StartingDetection id)) w))
      as [w1 [e|]] eqn:Hsd.
    + unfold start_detection. rewrite Hsd. cbn [fst] in *.
      by eapply engine_step_registry_sound.
    + destruct (start_detection_spec acts now id d w w1 Hsd) as (_ & Hth & Hreg & _).
      cbv zeta in *. cbn [fst] in Hstep.
      assert (Hs1 : registry_sound w1) by by eapply engine_step_registry_sound.
      intros k tid. rewrite Hreg, Hth.
      destruct (decide (k = id)) as [-> | Hne].
      * rewrite lookup_insert_eq. intros [= <-].
        eexists. split; [by apply list_lookup_middle | done].
      * rewrite lookup_insert_ne by done. intros Hk.
        destruct (Hs1 k tid Hk) as (t & Hx & Hi).
        exists t. split; [by apply lookup_app_l_Some | done].
  - eapply engine_step_registry_sound; [apply engine_step_stop_detection | done].
  - eapply engine_step_registry_sound; [apply engine_step_force_stop_all_detection | done].
  - eapply engine_step_registry_sound; [apply engine_step_cleanup_inactive_threads | done].
  - eapply engine_step_registry_sound; [apply engine_step_run_iteration | done].
Qed.

Lemma run_ops_registry_sound ops :
  ∀ w : World, registry_sound w → registry_sound (run_ops ops w).
Proof.
  unfold run_ops. induction ops as [|op ops IH]; intros w Hs; cbn [foldl]; [done |].
  by apply IH, exec_registry_sound.
Qed.

Lemma is_detection_active_true interview_id (w : World) :
  registry_sound w →
  (is_detection_active interview_id w).2 = true ↔
  ∃ tid, active_detection_threads w !! interview_id = Some tid
         ∧ live_session w interview_id tid.
Proof.
  intros Hs. unfold is_detection_active, is_alive. cbn [snd]. split.
  - destruct (active_detection_threads w !! interview_id) as [tid|] eqn:Hreg; [| done].
    destruct (Hs interview_id tid Hreg) as (t & Hx & Hi). rewrite Hx.
    intros Ha. exists tid. split; [done |]. by exists t.
  - intros (tid & -> & t & -> & Ha & _). done.
Qed.

(** X6.  After any history from a fresh process, every registry entry
    names a thread that belongs to the interview it is stored under, so
    [is_detection_active] answers True exactly when the registered thread is
    a live session of that interview; when no join of the history timed out
    it answers True for every interview that has a live session at all. *)
Theorem is_detection_active_meaning ivs tbl ops interview_id :
  let w := run_ops ops (initial_world ivs tbl) in
  (∀ id tid, active_detection_threads w !! id = Some tid →
     ∃ t, threads w !! tid = Some t ∧ interview t = id)
  ∧ ((is_detection_active interview_id w).2 = true ↔
     ∃ tid, active_detection_threads w !! interview_id = Some tid
            ∧ live_session w interview_id tid)
  ∧ (joins_succeeded (trace w) →
     (∃ tid, live_session w interview_id tid) →
     (is_detection_active interview_id w).2 = true).
Proof.
  intros w.
  assert (Hs : registry_sound w).
  { apply run_ops_registry_sound. intros id tid H. cbn in H.
    by rewrite lookup_empty in H. }
  split; [exact Hs |]. split; [by apply is_detection_active_true |].
  intros Hj (tid & Hlive). apply is_detection_active_true; [done |].
  exists tid. split; [| done].
  destruct (run_ops_keeps_registered ops (initial_world ivs tbl)) as [_ Hreg].
  destruct Hlive as (t & Hx & Ha & <-).
  apply Hreg; try done.
Qed.

Lemma engine_step_not_alive x (w w' : World) :
  engine_step w w' → is_alive x w = false → is_alive x w' = false.
Proof.
  intros (Ht & Hlen & _). unfold is_alive.
  destruct (threads w !! x) as [t|] eqn:Hl.
  - destruct (Ht x t Hl) as (t' & -> & _ & _ & _ & Hd & _). exact Hd.
  - intros _. apply lookup_ge_None in Hl.
    assert (Hn : threads w' !! x = None) by (apply lookup_ge_None; lia).
    by rewrite Hn.
Qed.

End EngineSteps.

(** * Debounced events of a session are rate limited *)

Section Debounce.
Import detection_engine.

Variable thr : Q.
Variable ty : string.
Variable timer : DetectionThread → option Q.

Hypothesis detect_step : ∀ tid self inp (w : World),
  ∃ rows,
    event_log (detect tid self inp w).2 = event_log w ++ rows
    ∧ debounced thr (timer self) (current_time inp)
        (timer (detect tid self inp w).1)
        (length (of_type ty (calls_of rows))).

Lemma budget_later lo t t' st spent :
  (t <= t')%Q → budget lo t st spent → budget lo t' st spent.
Proof.
  unfold budget. destruct st as [s|]; intros Ht H; [destruct H; split |]; lra.
Qed.

Lemma budget_spent lo t st spent : budget lo t st spent → (spent <= t - lo)%Q.
Proof. unfold budget. destruct st as [s|]; intros H; [destruct H |]; lra. Qed.

Lemma budget_debounced lo t t' st st' spent n :
  (t <= t')%Q → budget lo t st spent → debounced thr st t' st' n →
  budget lo t' st' (spent + thr * inject_Z (Z.of_nat n)).
Proof.
  intros Ht Hb [(-> & Hst) | (-> & -> & s & -> & Hfire)].
  - change (inject_Z (Z.of_nat 0)) with 0%Q.
    assert (Hb' : budget lo t' st spent) by by eapply budget_later.
    pose proof (budget_spent _ _ _ _ Hb') as Hs.
    destruct Hst as [-> | [-> | ->]]; unfold budget in *.
    + lra.
    + split; lra.
    + destruct st as [s|]; [destruct Hb'; split |]; lra.
  - change (inject_Z (Z.of_nat 1)) with 1%Q. unfold budget in *.
    destruct Hb. lra.
Qed.

Lemma run_thread_budget tid hi (inps : list TickInput) :
  ∀ (w : World) self lo t spent,
  threads w !! tid = Some self →
  (alive self = true → budget lo t (timer self) spent) →
  (spent <= t - lo)%Q →
  nondecreasing t hi (current_time <$> inps) →
  ∃ rows,
    event_log (run_thread tid inps w) = event_log w ++ rows
    ∧ (spent + thr * inject_Z (Z.of_nat (length (of_type ty (calls_of rows))))
       <= hi - lo)%Q.
Proof.
  induction inps as [|inp inps IH]; intros w self lo t spent Hl Hb Hs Hnd.
  - exists []. cbn in *. rewrite app_nil_r. split; [done |].
    change (inject_Z (Z.of_nat 0)) with 0%Q. lra.
  - cbn [fmap list_fmap nondecreasing] in Hnd. destruct Hnd as [Ht Hnd].
    change (run_thread tid (inp :: inps) w)
      with (run_thread tid inps (run_iteration tid inp w)).
    destruct (run_iteration_cases tid inp w)
      as [-> | (self0 & Hl0 & Ha & [(w0 & -> & Hth & _ & _ & Hev & _)
                                   | (_ & _ & _ & ->)])].
    + apply (IH w self lo (current_time inp) spent); try done.
      * intros Hal. eapply budget_later; [exact Ht | auto].
      * lra.
    + destruct (finish_spec tid self0 w0) as (Hth' & _ & _ & Hev' & _).
      destruct (IH (finish tid self0 w0) (with_alive false self0) lo
                  (current_time inp) spent) as (rows & Hrows & Hle); try done.
      * rewrite Hth', Hth. apply list_lookup_insert_eq. by eapply lookup_lt_Some.
      * lra.
      * exists rows. rewrite Hrows, Hev', Hev. done.
    + assert (self0 = self) as -> by congruence.
      destruct (detect_frame tid self inp w) as (Hth & _ & _ & _ & _ & _ & _ & Hal & _).
      destruct (detect_step tid self inp w) as (rows1 & Hev & Hdeb).
      cbv zeta in *.
      set (self1 := (detect tid self inp w).1) in *.
      set (w1 := (detect tid self inp w).2) in *.
      pose proof (budget_debounced lo t (current_time inp) _ _ spent _ Ht (Hb Ha) Hdeb)
        as Hb1.
      destruct (IH (emit (Wait tid poll_interval) (set_thread tid self1 w1)) self1 lo
                  (current_time inp)
                  (spent + thr * inject_Z (Z.of_nat
                                  (length (of_type ty (calls_of rows1)))))%Q)
        as (rows2 & Hrows & Hle); try done.
      * cbn. rewrite Hth. apply list_lookup_insert_eq. by eapply lookup_lt_Some.
      * by eapply budget_spent.
      * exists (rows1 ++ rows2). split.
        -- rewrite Hrows. cbn. rewrite Hev. by rewrite app_assoc.
        -- rewrite calls_of_app, of_type_app, length_app, Nat2Z.inj_add, inject_Z_plus.
           lra.
Qed.

End Debounce.

Section RateLimit.
Import detection_engine.

Lemma log_all_insert_error now self cs (w : World) :
  event_log (log_all true now self cs w) = event_log w.
Proof.
  unfold log_all. revert w. induction cs as [|[[ty desc] conf] cs IH]; intros w;
    cbn [foldl]; [done |].
  by rewrite IH.
Qed.

Lemma detect_timers tid self inp (w : World) :
  focus_lost_start (detect tid self inp w).1 =
    (focus_detection (focus_lost_start self) (current_time inp)
       (focus_maintained (readings inp)) (u_focus inp)).1
  ∧ no_face_start (detect tid self inp w).1 =
      (face_detection (no_face_start self) (current_time inp)
         (face_count (readings inp)) (u_no_face inp) (u_multiple_faces inp)).1.
Proof.
  unfold detect.
  destruct (focus_detection _ _ _ _) as [f fc].
  by destruct (face_detection _ _ _ _ _) as [n nc].
Qed.

Lemma detect_insert_error tid self inp (w : World) :
  insert_error inp = true → event_log (detect tid self inp w).2 = event_log w.
Proof.
  intros Herr. unfold detect. rewrite Herr.
  destruct (focus_detection _ _ _ _) as [f fc].
  destruct (face_detection _ _ _ _ _) as [n nc]. cbn [fst snd].
  rewrite !log_all_insert_error. cbn [event_log emit].
  rewrite !log_all_insert_error. cbn [event_log emit].
  rewrite !log_all_insert_error. cbn [event_log emit].
  by rewrite !log_all_insert_error.
Qed.

Lemma focus_detection_debounced st t focus u :
  debounced focus_lost_threshold st t (focus_detection st t focus u).1
    (length (focus_detection st t focus u).2).
Proof.
  unfold focus_detection. destruct focus; cbn; [left; auto |].
  destruct st as [s|]; [| left; auto].
  destruct (Qlt_le_dec _ _) as [Hlt | Hle]; cbn; [| left; auto].
  right. split; [done |]. split; [done |]. by exists s.
Qed.

Lemma face_detection_debounced st t n u1 u2 :
  debounced no_face_threshold st t (face_detection st t n u1 u2).1
    (length (of_type "no_face" (face_detection st t n u1 u2).2)).
Proof.
  unfold face_detection.
  destruct (decide (n = 0)); [| destruct (decide (1 < n)); cbn; left; auto].
  destruct st as [s|]; [| left; auto].
  destruct (Qlt_le_dec _ _) as [Hlt | Hle]; cbn; [| left; auto].
  right. split; [done |]. split; [done |]. by exists s.
Qed.

Lemma detected_is_not_no_face (obj : string) : obj +:+ "_detected" ≠ "no_face".
Proof.
  intros H;
    repeat (destruct obj as [|? obj]; cbn in H;
            [discriminate H | injection H as _ H]);
    destruct obj; discriminate H.
Qed.

Lemma steps_no_face start t focus u start' n u1 u2 objs uo d ud :
  of_type "no_face"
    ((focus_detection start t focus u).2
     ++ (face_detection start' t n u1 u2).2
     ++ object_detection objs uo
     ++ drowsiness_detection d ud)
  = of_type "no_face" (face_detection start' t n u1 u2).2.
Proof.
  rewrite !of_type_app.
  rewrite (of_type_none "no_face" (focus_detection start t focus u).2).
  2: { unfold focus_detection. destruct focus; cbn; [constructor |].
       destruct start as [s0|]; cbn; [| constructor].
       destruct (Qlt_le_dec _ _); cbn; repeat constructor. discriminate. }
  rewrite (of_type_none "no_face" (object_detection objs uo)).
  2: { apply Forall_forall. intros c Hc. unfold object_detection in Hc.
       apply elem_of_lookup_imap_1 in Hc as (i & obj & -> & _). cbn.
       apply detected_is_not_no_face. }
  rewrite (of_type_none "no_face" (drowsiness_detection d ud)).
  2: { destruct d; cbn; repeat constructor. discriminate. }
  by rewrite !app_nil_r.
Qed.

Lemma debounced_none thr st t st' :
  st' = None ∨ st' = Some t ∨ st' = st → debounced thr st t st' 0.
Proof. intros H. left. done. Qed.

Lemma debounced_weaken thr st t st' n :
  debounced thr st t st' n → debounced thr st t st' 0.
Proof.
  intros [(_ & H) | (_ & -> & _)]; apply debounced_none; auto.
Qed.

Lemma detect_focus_step tid self inp (w : World) :
  ∃ rows,
    event_log (detect tid self inp w).2 = event_log w ++ rows
    ∧ debounced focus_lost_threshold (focus_lost_start self) (current_time inp)
        (focus_lost_start (detect tid self inp w).1)
        (length (of_type "focus_loss" (calls_of rows))).
Proof.
  destruct (detect_timers tid self inp w) as [-> _].
  destruct (insert_error inp) eqn:Herr.
  - exists []. rewrite app_nil_r. split; [by apply detect_insert_error |].
    eapply debounced_weaken, focus_detection_debounced.
  - destruct (detect_rows tid self inp w Herr) as (rows & Hev & Hcalls & _).
    exists rows. split; [done |].
    rewrite Hcalls, steps_of_type by auto. rewrite decide_True by done.
    apply focus_detection_debounced.
Qed.

Lemma detect_no_face_step tid self inp (w : World) :
  ∃ rows,
    event_log (detect tid self inp w).2 = event_log w ++ rows
    ∧ debounced no_face_threshold (no_face_start self) (current_time inp)
        (no_face_start (detect tid self inp w).1)
        (length (of_type "no_face" (calls_of rows))).
Proof.
  destruct (detect_timers tid self inp w) as [_ ->].
  destruct (insert_error inp) eqn:Herr.
  - exists []. rewrite app_nil_r. split; [by apply detect_insert_error |].
    eapply debounced_weaken, face_detection_debounced.
  - destruct (detect_rows tid self inp w Herr) as (rows & Hev & Hcalls & _).
    exists rows. split; [done |].
    rewrite Hcalls, steps_no_face. apply face_detection_debounced.
Qed.

(** X7.  The two debounced events are rate limited.  For a session whose
    timers are not running, over iterations whose clock readings never go
    back and lie between [lo] and [hi], the rows the session inserts hold at
    most one [focus_loss] event per 5 seconds and one [no_face] event per 10
    seconds of that span, whatever the provider reports and whether or not
    the session ends or an insert fails on the way. *)
Theorem debounced_events_rate_limited tid self (inps : list TickInput)
    (lo hi : Q) (w : World) :
  threads w !! tid = Some self →
  focus_lost_start self = None →
  no_face_start self = None →
  nondecreasing lo hi (current_time <$> inps) →
  ∃ rows,
    event_log (run_thread tid inps w) = event_log w ++ rows
    ∧ (5 * inject_Z (Z.of_nat (length (of_type "focus_loss" (calls_of rows))))
       <= hi - lo)%Q
    ∧ (10 * inject_Z (Z.of_nat (length (of_type "no_face" (calls_of rows))))
       <= hi - lo)%Q.
Proof.
  intros Hl Hf Hn Hnd.
  destruct (run_thread_budget focus_lost_threshold "focus_loss" focus_lost_start
              detect_focus_step tid hi inps w self lo lo 0%Q)
    as (rows & Hev & Hfocus); try done.
  { intros _. rewrite Hf. unfold budget. lra. }
  { lra. }
  destruct (run_thread_budget no_face_threshold "no_face" no_face_start
              detect_no_face_step tid hi inps w self lo lo 0%Q)
    as (rows' & Hev' & Hface); try done.
  { intros _. rewrite Hn. unfold budget. lra. }
  { lra. }
  assert (rows' = rows) as ->.
  { rewrite Hev in Hev'. by apply app_inv_head in Hev'. }
  exists rows. split; [done |].
  unfold focus_lost_threshold in Hfocus. unfold no_face_threshold in Hface.
  split; lra.
Qed.

Lemma debounced_events_rate_limited_witness :
  let w := (start_detection [] 0 1 30 (initial_world {[1 := "ongoing"]} [])).1 in
  let inps := [tick_at 0 looking_away; tick_at 6 looking_away;
               tick_at 8 looking_away] in
  ∃ rows,
    event_log (run_thread 0 inps w) = event_log w ++ rows
    ∧ (5 * inject_Z (Z.of_nat (length (of_type "focus_loss" (calls_of rows))))
       <= 8 - 0)%Q
    ∧ (10 * inject_Z (Z.of_nat (length (of_type "no_face" (calls_of rows))))
       <= 8 - 0)%Q.
Proof.
  intros w inps.
  apply (debounced_events_rate_limited 0
           {| interview := 1; duration_minutes := 30; _stop_event := false;
              alive := true; start_time := 0; focus_lost_start := None;
              no_face_start := None |} inps 0 8 w).
  - vm_compute. reflexivity.
  - reflexivity.
  - reflexivity.
  - cbn. repeat split; lra.
Defined.

End RateLimit.

(** * Reports built from the event table *)

Section Reports.
Import models reports.

Lemma suspicious_count (qs : list EventLog) :
  QuerySet.count
    (QuerySet.filter_event_type_in
       ["phone_detected"; "notes_detected"; "device_detected"; "multiple_faces"] qs)
  = QuerySet.count (QuerySet.filter_event_type "phone_detected" qs)
    + QuerySet.count (QuerySet.filter_event_type "notes_detected" qs)
    + QuerySet.count (QuerySet.filter_event_type "device_detected" qs)
    + QuerySet.count (QuerySet.filter_event_type "multiple_faces" qs).
Proof.
  unfold QuerySet.count, QuerySet.filter_event_type_in, QuerySet.filter_event_type.
  induction qs as [|e qs IH]; [done |].
  rewrite !filter_cons.
  destruct (decide (event_type e = "phone_detected")) as [H1 | H1];
    destruct (decide (event_type e = "notes_detected")) as [H2 | H2];
    destruct (decide (event_type e = "device_detected")) as [H3 | H3];
    destruct (decide (event_type e = "multiple_faces")) as [H4 | H4];
    try (rewrite H1 in *; discriminate); try (rewrite H2 in *; discriminate);
    try (rewrite H3 in *; discriminate);
    case_decide as Hin; cbn [length]; try lia;
    exfalso; first [ apply Hin; rewrite ?H1, ?H2, ?H3, ?H4; set_solver | set_solver ].
Qed.

Lemma filter_interview_snoc i (tbl : list EventLog) e :
  QuerySet.filter_interview i (tbl ++ [e]) =
  QuerySet.filter_interview i tbl ++ (if decide (models.interview e = i) then [e] else []).
Proof.
  unfold QuerySet.filter_interview. by rewrite filter_app.
Qed.

Lemma filter_event_type_snoc_other ty (qs : list EventLog) e :
  event_type e ≠ ty →
  QuerySet.filter_event_type ty (qs ++ [e]) = QuerySet.filter_event_type ty qs.
Proof.
  intros Hne. unfold QuerySet.filter_event_type. rewrite filter_app.
  rewrite filter_cons, filter_nil. rewrite decide_False by done. apply app_nil_r.
Qed.

Lemma generate_report_snoc_irrelevant i (tbl : list EventLog) e :
  models.interview e ≠ i ∨ event_type e ∉ event_type_values →
  generate_report i (tbl ++ [e]) = generate_report i tbl.
Proof.
  intros Hirr. unfold generate_report. rewrite filter_interview_snoc.
  case_decide as Hi; [| by rewrite app_nil_r].
  destruct Hirr as [Hne | Hty]; [done |].
  assert (Hin : ∀ ty, ty ∈ event_type_values → event_type e ≠ ty).
  { intros ty Hin Heq. apply Hty. by rewrite Heq. }
  assert (Hsus : QuerySet.filter_event_type_in
            ["phone_detected"; "notes_detected"; "device_detected"; "multiple_faces"]
            (QuerySet.filter_interview i tbl ++ [e])
          = QuerySet.filter_event_type_in
              ["phone_detected"; "notes_detected"; "device_detected"; "multiple_faces"]
              (QuerySet.filter_interview i tbl)).
  { unfold QuerySet.filter_event_type_in. rewrite filter_app, filter_cons, filter_nil.
    rewrite decide_False; [apply app_nil_r |].
    intros H. apply Hty. unfold event_type_values. cbn. set_solver. }
  rewrite Hsus.
  rewrite !filter_event_type_snoc_other;
    [done | apply Hin; unfold event_type_values; cbn; set_solver ..].
Qed.

(** X8.  What an event costs in the report [generate_report] builds.  The
    four types counted as suspicious are charged twice, once per type and
    once at 5 points as suspicious events, so the score is
    max(0, 100 - (2 focus_lost + 3 no_face + 13 multiple_faces
    + 15 phone_detected + 13 notes_detected + 11 device_detected
    + 3 drowsiness + 4 audio_anomaly)) over the interview's events.  Events
    of another interview or of an undeclared type cost nothing: the report
    is the same with or without them, and that includes the ['focus_loss']
    events the detection thread logs. *)
Theorem generate_report_effective_weights (i : Z) (tbl : list EventLog) :
  let n ty :=
    QuerySet.count (QuerySet.filter_event_type ty (QuerySet.filter_interview i tbl)) in
  integrity_score (generate_report i tbl) =
    Z.max 0
      (100 - (2 * n "focus_lost" + 3 * n "no_face" + 13 * n "multiple_faces"
              + 15 * n "phone_detected" + 13 * n "notes_detected"
              + 11 * n "device_detected" + 3 * n "drowsiness"
              + 4 * n "audio_anomaly"))
  ∧ suspicious_events (generate_report i tbl) =
      n "phone_detected" + n "notes_detected" + n "device_detected"
      + n "multiple_faces"
  ∧ (∀ e, models.interview e ≠ i ∨ event_type e ∉ event_type_values →
       generate_report i (tbl ++ [e]) = generate_report i tbl)
  ∧ (∀ now desc conf,
       generate_report i (QuerySet.create now i "focus_loss" desc conf tbl)
       = generate_report i tbl).
Proof.
  cbv zeta. split; [| split; [| split]].
  - unfold generate_report. cbn. rewrite suspicious_count. f_equal. lia.
  - unfold generate_report. cbn. apply suspicious_count.
  - apply generate_report_snoc_irrelevant.
  - intros now desc conf. unfold QuerySet.create.
    apply generate_report_snoc_irrelevant. right. cbn.
    unfold event_type_values. cbn. intros H.
    repeat (apply elem_of_cons in H as [H | H]; [discriminate |]).
    by apply elem_of_nil in H.
Qed.

(** X9.  The view [generate_report] creates a report only for an interview
    whose status is ['completed'], which has no report and whose duration is
    null: with a duration set, [Report.objects.create] raises on
    [total_duration=interview.duration] and no report is ever written.  The
    view changes the report table exactly when it answers that the report was
    generated; the new row is the one built from the events as they are
    then, and every report already in the table, of this or another
    interview, is left as it was -- so once a report is generated, calling
    the view again never refreshes it, whatever events the table has
    gained. *)
Theorem generate_report_view_once (insert_error insert_error' : bool)
    (interview_id : Z) (statuses : gmap Z string) (durations : gmap Z Z)
    (rs : gmap Z Report) (tbl tbl' : list EventLog) :
  let view := reports_views.generate_report in
  let rs' := (view insert_error interview_id statuses durations rs tbl).1 in
  let outcome := (view insert_error interview_id statuses durations rs tbl).2 in
  (outcome = reports_views.ReportGenerated ↔
     statuses !! interview_id = Some "completed" ∧ rs !! interview_id = None
     ∧ durations !! interview_id = None ∧ insert_error = false)
  ∧ (outcome = reports_views.ReportGenerated →
       rs' = <[interview_id := generate_report interview_id tbl]> rs)
  ∧ (outcome ≠ reports_views.ReportGenerated → rs' = rs)
  ∧ (∀ k r, rs !! k = Some r → rs' !! k = Some r)
  ∧ (is_Some (durations !! interview_id) →
       rs' = rs ∧ outcome ≠ reports_views.ReportGenerated)
  ∧ (statuses !! interview_id = Some "completed" → rs !! interview_id = None →
       is_Some (durations !! interview_id) →
       outcome = reports_views.CreateRaises)
  ∧ (outcome = reports_views.ReportGenerated →
       view insert_error' interview_id statuses durations rs' tbl'
       = (rs', reports_views.ReportAlreadyExists)).
Proof.
  cbv zeta. unfold reports_views.generate_report.
  destruct (statuses !! interview_id) as [status|] eqn:Hst; cbn [fst snd];
    [| repeat split; try done; naive_solver].
  destruct (decide (status ≠ "completed")) as [Hne | Heq]; cbn [fst snd];
    [repeat split; try done; naive_solver |].
  apply dec_stable in Heq. subst status.
  destruct (rs !! interview_id) as [r0|] eqn:Hr; cbn [fst snd];
    [repeat split; try done; naive_solver |].
  destruct (durations !! interview_id) as [d|] eqn:Hd; cbn [fst snd];
    [repeat split; try done; naive_solver |].
  destruct insert_error; cbn [fst snd];
    [repeat split; try done; naive_solver |].
  split; [done |]. split; [done |]. split; [done |]. split.
  { intros k r Hk. rewrite lookup_insert_ne; [done |]. congruence. }
  split; [by intros [? ?] |]. split; [by intros _ _ [? ?] |].
  intros _. by rewrite lookup_insert_eq.
Qed.

(** With a duration set the view never writes a report; with a null one it
    does, once. *)
Example generate_report_view_cases :
  let statuses : gmap Z string := {[ 4 := "completed" ]} in
  (reports_views.generate_report false 4 statuses {[ 4 := 30 ]} ∅ []).2
    = reports_views.CreateRaises
  ∧ (reports_views.generate_report false 4 statuses ∅ ∅ []).2
    = reports_views.ReportGenerated.
Proof. split; reflexivity. Qed.

End Reports.

(** * The views that drive the engine *)

Section InterviewViews.
Import detection_engine interviews_models http interviews_views.

Lemma ends_at_next_iteration tid t inp (w : World) :
  threads w !! tid = Some t →
  _stop_event t = true ∨ interviews w !! interview t ≠ Some "ongoing" →
  is_alive tid (run_iteration tid inp w) = false
  ∧ event_log (run_iteration tid inp w) = event_log w.
Proof.
  intros Hl Hend. destruct (alive t) eqn:Ha.
  - destruct (run_iteration_alive tid t inp w Hl Ha)
      as [(w0 & -> & Ht & _ & _ & He & _) | (Hs & Hst & _)].
    + assert (Hl0 : threads w0 !! tid = Some t) by by rewrite Ht.
      destruct (finish_ends_session tid t w0 Hl0) as (Hd & _ & _ & Hev & _).
      split; [done | congruence].
    + destruct Hend as [Hend | Hend]; [congruence | done].
  - rewrite run_iteration_not_alive; [| by unfold is_alive; rewrite Hl].
    split; [| done]. unfold is_alive. by rewrite Hl.
Qed.

Lemma manage_check (roles : list string) (r : string) (a b : Z) :
  r ∈ roles ∨ a = b →
  negb (bool_decide (r ∈ roles)) && negb (bool_decide (a = b)) = false.
Proof.
  intros [H | H]; rewrite (bool_decide_eq_true_2 _ H); [done |].
  apply andb_false_r.
Qed.

Lemma manage_check_denied (roles : list string) (r : string) (a b : Z) :
  r ∉ roles → a ≠ b →
  negb (bool_decide (r ∈ roles)) && negb (bool_decide (a = b)) = true.
Proof.
  intros H1 H2. by rewrite (bool_decide_eq_false_2 _ H1), (bool_decide_eq_false_2 _ H2).
Qed.

(** X10.  An authorised POST to [end_interview] always completes the
    interview: its status is ['completed'] (no other row changes), the
    registry holds no entry for it, the answer is the redirect with the
    success message even when stopping raised, and [end_time] is the time of
    the request.  The fallback after [stop_detection] never runs, since the
    entry is gone by then: the outcome does not depend on what the threads
    would do during a forced stop.  Events are only appended, and every
    thread of the interview that is still alive ends at its next iteration
    without logging. *)
Theorem end_interview_completes acts acts_force now request interview_id
    interview (w : World) :
  is_Some (interviews w !! interview_id) →
  method request = POST →
  role (user request) ∈ ["admin"; "interviewer"]
    ∨ interviewer interview = user_id (user request) →
  let r := end_interview acts acts_force now request interview_id interview w in
  let w' := r.1.1 in
  interviews w' = <[interview_id := "completed"]> (interviews w)
  ∧ active_detection_threads w' !! interview_id = None
  ∧ response r.2 = RedirectInterviewDetail interview_id
  ∧ messages r.2 = [InterviewCompleted]
  ∧ end_time r.1.2 = Some now
  ∧ (∀ acts_force',
       end_interview acts acts_force' now request interview_id interview w = r)
  ∧ event_log w `prefix_of` event_log w'
  ∧ (∀ tid t inp, threads w' !! tid = Some t →
       detection_engine.interview t = interview_id →
       is_alive tid (run_iteration tid inp w') = false
       ∧ event_log (run_iteration tid inp w') = event_log w').
Proof.
  intros [status Hst] Hm Hauth. cbv zeta.
  set (w0 := set_interviews (<[interview_id := "completed"]> (interviews w)) w).
  pose proof (engine_step_stop_detection acts interview_id w0)
    as (_ & _ & _ & Hi & Hp & _).
  destruct (stop_detection_outcome acts interview_id w0) as (Hgone & _).
  cbv zeta in Hgone.
  assert (Hshape : ∀ af,
    end_interview acts af now request interview_id interview w =
    match stop_detection acts interview_id w0 with
    | (w1, Some e) =>
        (w1, with_end_time (Some now) interview,
         {| response := RedirectInterviewDetail interview_id;
            messages := [InterviewCompleted];
            printed :=
              [RequestMethod (method request); UserAndRole (user request);
               EndingInterview interview_id; MarkedCompleted interview_id;
               ErrorStoppingDetection e; StatusNow interview_id "completed";
               StatusAfterSave interview_id "completed"] |})
    | (w1, None) =>
        ((is_detection_active interview_id w1).1,
         with_end_time (Some now) interview,
         {| response := RedirectInterviewDetail interview_id;
            messages := [InterviewCompleted];
            printed :=
              [RequestMethod (method request); UserAndRole (user request);
               EndingInterview interview_id; MarkedCompleted interview_id;
               StopDetectionReturned interview_id;
               DetectionInactive interview_id;
               StatusNow interview_id "completed";
               StatusAfterSave interview_id "completed"] |})
    end).
  { intros af. unfold end_interview. rewrite Hst, (manage_check _ _ _ _ Hauth), Hm.
    fold w0.
    destruct (stop_detection acts interview_id w0) as [w1 [e|]]; cbn [fst snd] in *.
    - rewrite Hi. unfold w0. cbn [interviews set_interviews].
      by rewrite lookup_insert_eq.
    - unfold is_detection_active. rewrite Hgone. cbn [interviews emit].
      rewrite Hi. unfold w0. cbn [interviews set_interviews].
      by rewrite lookup_insert_eq. }
  assert (Hw : ∃ w1, (end_interview acts acts_force now request interview_id
                        interview w).1.1 = w1
                     ∧ threads w1 = threads (stop_detection acts interview_id w0).1
                     ∧ interviews w1 = interviews w0
                     ∧ event_log w1 = event_log (stop_detection acts interview_id w0).1
                     ∧ active_detection_threads w1 !! interview_id = None).
  { rewrite Hshape.
    destruct (stop_detection acts interview_id w0) as [w1 [e|]]; cbn [fst snd] in *;
      eexists; (split; [reflexivity |]); done. }
  destruct Hw as (w1 & Hw1 & Hth & Hiv & Hev & Hreg).
  rewrite Hw1.
  split; [by rewrite Hiv |]. split; [done |].
  split; [rewrite Hshape; by destruct (stop_detection acts interview_id w0) as [? [?|]] |].
  split; [rewrite Hshape; by destruct (stop_detection acts interview_id w0) as [? [?|]] |].
  split; [rewrite Hshape; by destruct (stop_detection acts interview_id w0) as [? [?|]] |].
  split; [intros af; by rewrite !Hshape |].
  split; [by rewrite Hev |].
  intros tid t inp Hl Hid. apply (ends_at_next_iteration tid t inp w1 Hl).
  right. rewrite Hid, Hiv. unfold w0. cbn [interviews set_interviews].
  rewrite lookup_insert_eq. discriminate.
Qed.

Lemma end_interview_completes_witness :
  let w := (start_detection [] 0 1 30 (initial_world {[1 := "ongoing"]} [])).1 in
  let request :=
    {| user := {| user_id := 7; role := "candidate"; is_staff := false |};
       method := POST |} in
  let interview :=
    {| candidate := 3; interviewer := 7; duration := Some 30;
       start_time := Some 0%Q; end_time := None |} in
  let r := end_interview [(0%nat, tick_at 2 attentive)] (λ _, []) 100 request 1
             interview w in
  interviews r.1.1 = <[1 := "completed"]> (interviews w)
  ∧ active_detection_threads r.1.1 !! 1 = None
  ∧ messages r.2 = [InterviewCompleted].
Proof.
  intros w request interview r.
  destruct (end_interview_completes [(0%nat, tick_at 2 attentive)] (λ _, []) 100
              request 1 interview w) as (H1 & H2 & _ & H4 & _).
  - vm_compute. eauto.
  - reflexivity.
  - right. reflexivity.
  - split; [exact H1 |]. split; [exact H2 | exact H4].
Defined.

Lemma complete_all_fold (l : list (Z * string)) :
  ∀ w : World,
  let w' :=
    foldl (λ w (kv : Z * string),
             set_interviews (<[kv.1 := "completed"]> (interviews w)) w) w l in
  threads w' = threads w
  ∧ active_detection_threads w' = active_detection_threads w
  ∧ event_log w' = event_log w
  ∧ trace w' = trace w
  ∧ ∀ id, interviews w' !! id =
          if decide (id ∈ l.*1) then Some "completed" else interviews w !! id.
Proof.
  induction l as [|[k st] l IH]; intros w; cbn [foldl].
  - cbn. repeat split; try done.
  - destruct (IH (set_interviews (<[k := "completed"]> (interviews w)) w))
      as (Ht & Hr & He & Htr & Hi).
    cbv zeta in *. cbn [fst] in *. repeat split; try done.
    intros id. rewrite Hi. cbn [interviews set_interviews fmap list_fmap fst].
    destruct (decide (id ∈ l.*1)) as [Hin | Hnin].
    + rewrite decide_True; [done |]. apply elem_of_cons. by right.
    + destruct (decide (id = k)) as [-> | Hne].
      * rewrite lookup_insert_eq. rewrite decide_True; [done |].
        apply elem_of_cons. by left.
      * rewrite lookup_insert_ne by done. rewrite decide_False; [done |].
        intros H. apply elem_of_cons in H as [? | ?]; done.
Qed.

Lemma force_stop_all_detection_empties acts (w : World) :
  active_detection_threads (force_stop_all_detection acts w) = ∅.
Proof.
  unfold force_stop_all_detection. cbn [active_detection_threads emit].
  destruct (force_stop_fold acts (map_to_list (active_detection_threads w))
              (emit (Print ForceStoppingAll) w)) as (Hreg & _).
  cbv zeta in Hreg. apply map_eq. intros k. rewrite lookup_empty.
  destruct (active_detection_threads (foldl _ _ _) !! k) as [v|] eqn:Hk; [| done].
  apply Hreg in Hk as [Hk Hnin]. exfalso. apply Hnin.
  apply list_elem_of_fmap. exists (k, v). split; [done |].
  by apply elem_of_map_to_list.
Qed.

(** X11.  [emergency_stop_all], for a staff user, leaves nothing running:
    the registry is empty, every interview that was ['ongoing'] is
    ['completed'] and no other status changes, the answer counts the
    interviews it ended, events are only appended, and every thread --
    registered or not -- ends at its next iteration without logging. *)
Theorem emergency_stop_all_stops_everything acts request (w : World) :
  is_staff (user request) = true →
  let w' := (emergency_stop_all acts request w).1 in
  let ended :=
    Z.of_nat (length (filter (λ kv : Z * string, kv.2 = "ongoing")
                        (map_to_list (interviews w)))) in
  active_detection_threads w' = ∅
  ∧ (∀ id, interviews w' !! id =
           (λ st : string, if decide (st = "ongoing") then "completed" else st)
             <$> interviews w !! id)
  ∧ (emergency_stop_all acts request w).2 =
      JsonResponse
        [("success", Bool true);
         ("message",
          Str ("Stopped all detection and ended " +:+ pretty ended
               +:+ " ongoing interviews"))] 200
  ∧ event_log w `prefix_of` event_log w'
  ∧ (∀ tid inp,
       is_alive tid (run_iteration tid inp w') = false
       ∧ event_log (run_iteration tid inp w') = event_log w').
Proof.
  intros Hstaff. cbv zeta. unfold emergency_stop_all. rewrite Hstaff. cbn [negb fst snd].
  pose proof (engine_step_force_stop_all_detection acts w)
    as (_ & _ & _ & Hi & Hp & _).
  pose proof (force_stop_all_detection_empties acts w) as Hempty.
  set (w1 := force_stop_all_detection acts w) in *.
  rewrite Hi.
  set (ongoing := filter (λ kv : Z * string, kv.2 = "ongoing")
                    (map_to_list (interviews w))).
  destruct (complete_all_fold ongoing w1) as (Ht & Hr & He & _ & Hiv).
  cbv zeta in *.
  set (w2 := foldl _ w1 ongoing) in *.
  assert (Hst : ∀ id, interviews w2 !! id =
            (λ st : string, if decide (st = "ongoing") then "completed" else st)
              <$> interviews w !! id).
  { intros id. rewrite Hiv, Hi. destruct (decide (id ∈ ongoing.*1)) as [Hin | Hnin].
    - apply list_elem_of_fmap in Hin as ([k st] & -> & Hin).
      apply list_elem_of_filter in Hin as [Hon Hin]. cbn in *. subst st.
      apply elem_of_map_to_list in Hin. rewrite Hin. cbn. by rewrite decide_True.
    - destruct (interviews w !! id) as [st|] eqn:Hl; [| done]. cbn.
      rewrite decide_False; [done |]. intros ->. apply Hnin.
      apply list_elem_of_fmap. exists (id, "ongoing"). split; [done |].
      apply list_elem_of_filter. split; [done |]. by apply elem_of_map_to_list. }
  split; [by rewrite Hr |]. split; [exact Hst |]. split; [done |].
  split; [by rewrite He |].
  intros tid inp. destruct (threads w2 !! tid) as [t|] eqn:Hl.
  - apply (ends_at_next_iteration tid t inp w2 Hl). right.
    rewrite Hst. destruct (interviews w !! interview t) as [st|]; [| done]. cbn.
    case_decide; [discriminate |]. congruence.
  - rewrite run_iteration_not_alive; unfold is_alive; by rewrite Hl.
Qed.

Lemma emergency_stop_all_stops_everything_witness :
  let w := (start_detection [] 0 1 30
              (initial_world {[1 := "ongoing"; 2 := "scheduled"]} [])).1 in
  let request :=
    {| user := {| user_id := 1; role := "admin"; is_staff := true |};
       method := POST |} in
  let w' := (emergency_stop_all (λ _, []) request w).1 in
  active_detection_threads w' = ∅
  ∧ is_alive 0 w' = true
  ∧ is_alive 0 (run_iteration 0 (tick_at 2 attentive) w') = false.
Proof.
  intros w request w'.
  destruct (emergency_stop_all_stops_everything (λ _, []) request w)
    as (H1 & _ & _ & _ & H5).
  - reflexivity.
  - split; [exact H1 |]. split; [vm_compute; reflexivity |].
    apply (H5 0%nat (tick_at 2 attentive)).
Defined.

Lemma start_detection_outcome acts clock interview_id duration_minutes (w : World) :
  let r := start_detection acts clock interview_id duration_minutes w in
  interviews r.1 = interviews w
  ∧ event_log w `prefix_of` event_log r.1
  ∧ (∀ old t, active_detection_threads w !! interview_id = Some old →
       threads w !! old = Some t →
       ∃ t', threads r.1 !! old = Some t' ∧ _stop_event t' = true)
  ∧ match r.2 with
    | inl new =>
        active_detection_threads r.1 !! interview_id = Some new
        ∧ threads r.1 !! new =
            Some {| detection_engine.interview := interview_id;
                    detection_engine.duration_minutes := duration_minutes;
                    _stop_event := false; alive := true;
                    detection_engine.start_time := clock;
                    focus_lost_start := None; no_face_start := None |}
        ∧ threads w !! new = None
        ∧ (is_detection_active interview_id r.1).2 = true
    | inr e => active_detection_threads r.1 !! interview_id = None
    end.
Proof.
  cbv zeta. split; [| split; [| split]].
  - apply (exec_interviews (Start acts clock interview_id duration_minutes) w eq_refl).
  - by destruct (history_step_start_detection acts clock interview_id
                   duration_minutes w) as (_ & _ & Hp & _).
  - intros old t Hreg Hl.
    by destruct (start_detection_restarts acts clock interview_id duration_minutes
                   w old t Hreg Hl) as (H & _).
  - destruct (stop_detection acts interview_id
                (emit (Print (StartingDetection interview_id)) w))
      as [w1 [e|]] eqn:Hsd.
    + destruct (stop_detection_outcome acts interview_id
                  (emit (Print (StartingDetection interview_id)) w)) as (Hgone & _).
      cbv zeta in Hgone. rewrite Hsd in Hgone.
      unfold start_detection. rewrite Hsd. done.
    + destruct (start_detection_spec acts clock interview_id duration_minutes
                  w w1 Hsd) as (Hres & Hth & Hreg & _).
      cbv zeta in *. rewrite Hres.
      pose proof (stop_detection_length acts interview_id
                    (emit (Print (StartingDetection interview_id)) w)) as Hlen.
      rewrite Hsd in Hlen. cbn [fst threads emit] in Hlen.
      assert (Hnew : threads (start_detection acts clock interview_id
                                duration_minutes w).1 !! length (threads w1)
                     = Some {| detection_engine.interview := interview_id;
                               detection_engine.duration_minutes := duration_minutes;
                               _stop_event := false; alive := true;
                               detection_engine.start_time := clock;
                               focus_lost_start := None; no_face_start := None |}).
      { rewrite Hth. by apply list_lookup_middle. }
      split; [by rewrite Hreg, lookup_insert_eq |]. split; [exact Hnew |].
      split; [apply lookup_ge_None; lia |].
      unfold is_detection_active, is_alive. cbn [snd].
      by rewrite Hreg, lookup_insert_eq, Hnew.
Qed.

(** X12.  An authorised POST to [start_interview] always sets the status
    to ['ongoing'] and answers with the redirect to the interview.  The
    session it starts runs for the interview's duration, or for 30 minutes
    when the duration is missing or 0; [start_time] is kept when it is at
    most 300 seconds old and otherwise set to the time of the request.  When
    the view reports success the registry holds a new, live session thread
    for the interview and [is_detection_active] is true; otherwise it reports
    that detection failed and the interview is ongoing with no registered
    session.  A session registered before has been told to stop. *)
Theorem start_interview_starts_session acts now clock request interview_id
    interview (w : World) :
  is_Some (interviews w !! interview_id) →
  method request = POST →
  role (user request) ∈ ["admin"; "interviewer"]
    ∨ interviewer interview = user_id (user request) →
  let r := start_interview acts now clock request interview_id interview w in
  let w' := r.1.1 in
  let minutes :=
    match duration interview with
    | Some d => if decide (d = 0) then 30 else d
    | None => 30
    end in
  interviews w' = <[interview_id := "ongoing"]> (interviews w)
  ∧ response r.2 = RedirectInterviewDetail interview_id
  ∧ start_time r.1.2 =
      match start_time interview with
      | None => Some now
      | Some t => if Qlt_le_dec 300 (now - t) then Some now else Some t
      end
  ∧ (messages r.2 = [InterviewStarted]
     ∨ ∃ e, messages r.2 = [StartedButDetectionFailed e]
            ∧ active_detection_threads w' !! interview_id = None)
  ∧ (messages r.2 = [InterviewStarted] →
     ∃ new,
       active_detection_threads w' !! interview_id = Some new
       ∧ threads w' !! new =
           Some {| detection_engine.interview := interview_id;
                   detection_engine.duration_minutes := minutes;
                   _stop_event := false; alive := true;
                   detection_engine.start_time := clock;
                   focus_lost_start := None; no_face_start := None |}
       ∧ threads w !! new = None
       ∧ (is_detection_active interview_id w').2 = true)
  ∧ (∀ old t, active_detection_threads w !! interview_id = Some old →
       threads w !! old = Some t →
       ∃ t', threads w' !! old = Some t' ∧ _stop_event t' = true).
Proof.
  intros [status Hst] Hm Hauth. cbv zeta.
  set (w0 := set_interviews (<[interview_id := "ongoing"]> (interviews w)) w).
  set (minutes := match duration interview with
                  | Some d => if decide (d = 0) then 30 else d
                  | None => 30
                  end).
  set (saved := match start_time interview with
                | None => with_start_time (Some now) interview
                | Some t =>
                    if Qlt_le_dec 300 (now - t)
                    then with_start_time (Some now) interview
                    else interview
                end).
  assert (Hdur : duration saved = duration interview).
  { unfold saved. destruct (start_time interview); [destruct (Qlt_le_dec _ _) |]; done. }
  destruct (start_detection_outcome acts clock interview_id minutes w0)
    as (Hi & _ & Hold & Hres).
  cbv zeta in *.
  assert (Hshape :
    start_interview acts now clock request interview_id interview w =
    match start_detection acts clock interview_id minutes w0 with
    | (w1, inl _) =>
        (w1, saved,
         {| response := RedirectInterviewDetail interview_id;
            messages := [InterviewStarted];
            printed := [StatusUpdatedToOngoing interview_id] |})
    | (w1, inr e) =>
        (w1, saved,
         {| response := RedirectInterviewDetail interview_id;
            messages := [StartedButDetectionFailed e];
            printed := [StatusUpdatedToOngoing interview_id;
                        DetectionStartFailed e] |})
    end).
  { unfold start_interview. rewrite Hst, (manage_check _ _ _ _ Hauth), Hm.
    fold w0. fold saved. rewrite Hdur. fold minutes.
    by destruct (start_detection acts clock interview_id minutes w0) as [w1 [new|e]]. }
  rewrite Hshape.
  destruct (start_detection acts clock interview_id minutes w0) as [w1 [new|e]];
    cbn [fst snd response messages] in *.
  - split; [done |]. split; [done |].
    split; [unfold saved; destruct (start_time interview) eqn:E;
            [destruct (Qlt_le_dec _ _) |]; done |].
    split; [by left |]. split; [intros _; by exists new |]. exact Hold.
  - split; [done |]. split; [done |].
    split; [unfold saved; destruct (start_time interview) eqn:E;
            [destruct (Qlt_le_dec _ _) |]; done |].
    split; [right; by exists e |]. split; [done |]. exact Hold.
Qed.

Lemma start_interview_starts_session_witness :
  let w := initial_world {[1 := "scheduled"]} [] in
  let request :=
    {| user := {| user_id := 7; role := "interviewer"; is_staff := false |};
       method := POST |} in
  let interview :=
    {| candidate := 3; interviewer := 8; duration := Some 0;
       start_time := None; end_time := None |} in
  let r := start_interview [] 50 1000 request 1 interview w in
  interviews r.1.1 !! 1 = Some "ongoing"
  ∧ start_time r.1.2 = Some 50%Q
  ∧ messages r.2 = [InterviewStarted]
  ∧ (is_detection_active 1 r.1.1).2 = true.
Proof.
  intros w request interview r. subst r.
  destruct (start_interview_starts_session [] 50 1000 request 1 interview w)
    as (H1 & _ & H3 & _ & H5 & _).
  - vm_compute. eauto.
  - reflexivity.
  - left. vm_compute. set_solver.
  - split; [by rewrite H1, lookup_insert_eq |]. split; [exact H3 |].
    split; [reflexivity |].
    destruct H5 as (new & _ & _ & _ & Hact); [reflexivity | exact Hact].
Defined.

(** X13.  An authorised POST to [delete_interview] first stops
    detection.  When that raises, nothing is deleted: the interview keeps its
    status and the events stay.  Otherwise the interview row is gone together
    with every event of the interview, including those logged during the
    join, while the events of other interviews are kept; a thread of the
    interview that is still alive ends at its next iteration without
    logging.  Either way the registry holds no entry for the interview. *)
Theorem delete_interview_cascades acts request interview_id interview (w : World) :
  is_Some (interviews w !! interview_id) →
  method request = POST →
  role (user request) ∈ ["admin"]
    ∨ interviewer interview = user_id (user request) →
  let r := delete_interview acts request interview_id interview w in
  let w' := r.1.1 in
  active_detection_threads w' !! interview_id = None
  ∧ r.1.2 = RedirectInterviewList
  ∧ match (stop_detection acts interview_id w).2 with
    | Some e =>
        r.2 = [ErrorDeleting e]
        ∧ interviews w' = interviews w
        ∧ event_log w `prefix_of` event_log w'
    | None =>
        r.2 = [InterviewDeleted]
        ∧ interviews w' = delete interview_id (interviews w)
        ∧ (∀ e, e ∈ event_log w' → models.interview e ≠ interview_id)
        ∧ (∀ e, e ∈ event_log w → models.interview e ≠ interview_id →
             e ∈ event_log w')
        ∧ (∀ tid t inp, threads w' !! tid = Some t →
             detection_engine.interview t = interview_id →
             is_alive tid (run_iteration tid inp w') = false
             ∧ event_log (run_iteration tid inp w') = event_log w')
    end.
Proof.
  intros [status Hst] Hm Hauth. cbv zeta.
  unfold delete_interview. rewrite Hst, (manage_check _ _ _ _ Hauth), Hm.
  pose proof (engine_step_stop_detection acts interview_id w)
    as (_ & _ & _ & Hi & Hp & _).
  destruct (stop_detection_outcome acts interview_id w) as (Hgone & _).
  cbv zeta in Hgone.
  destruct (stop_detection acts interview_id w) as [w1 [e|]]; cbn [fst snd] in *.
  - done.
  - split; [done |]. split; [done |]. split; [done |].
    split; [by rewrite Hi |]. split; [| split].
    + intros e He. by apply list_elem_of_filter in He as [? _].
    + intros e He Hne. apply list_elem_of_filter. split; [done |].
      destruct Hp as [rows Hrows]. cbn [event_log set_interviews].
      rewrite Hrows. apply elem_of_app. by left.
    + intros tid t inp Hl Hid.
      apply (ends_at_next_iteration tid t inp _ Hl). right.
      rewrite Hid. cbn [interviews set_interviews set_event_log].
      by rewrite lookup_delete_eq.
Qed.

Lemma delete_interview_cascades_witness :
  let w0 := (start_detection [] 0 1 30
               (initial_world {[1 := "ongoing"; 2 := "ongoing"]} [])).1 in
  let w :=
    run_thread 0 [tick_at 0 looking_away; tick_at 6 looking_away]
      (set_event_log (QuerySet.create 0 2 "no_face" "" 1 []) w0) in
  let request :=
    {| user := {| user_id := 1; role := "admin"; is_staff := true |};
       method := POST |} in
  let interview :=
    {| candidate := 3; interviewer := 8; duration := None;
       start_time := None; end_time := None |} in
  let r := delete_interview [] request 1 interview w in
  length (event_log w) = 2%nat
  ∧ active_detection_threads r.1.1 !! 1 = None
  ∧ r.2 = [InterviewDeleted]
  ∧ length (event_log r.1.1) = 1%nat.
Proof.
  intros w0 w request interview r. subst r.
  destruct (delete_interview_cascades [] request 1 interview w) as (H1 & _ & H3).
  - vm_compute. eauto.
  - reflexivity.
  - left. vm_compute. set_solver.
  - split; [vm_compute; reflexivity |]. split; [exact H1 |].
    split; vm_compute; reflexivity.
Defined.

End InterviewViews.

(** * The views of the detection application *)

Section DetectionViews.
Import detection_engine interviews_models http detection_views.

(** X14.  [restart_detection] does not look at the interview's status.
    For an authorised user it stops, waits and starts again: the statuses are
    untouched, and when it reports success the registry holds a new live
    session for the interview (budget: the duration, or 30 minutes when
    missing or 0) and [is_detection_active] is true -- also when the
    interview is not ongoing, in which case that session ends at its first
    iteration without logging.  [run_detection], for the same user on such
    an interview, answers 400 and changes nothing. *)
Theorem restart_detection_ignores_status acts_stop acts_sleep acts_start clock
    request interview_id interview (w : World) status :
  interviews w !! interview_id = Some status →
  role (user request) ∈ ["admin"; "interviewer"]
    ∨ interviewer interview = user_id (user request) →
  let r := restart_detection acts_stop acts_sleep acts_start clock request
             interview_id interview w in
  let w' := r.1.1 in
  let minutes :=
    match duration interview with
    | Some d => if decide (d = 0) then 30 else d
    | None => 30
    end in
  interviews w' = interviews w
  ∧ (r.2 = [RestartedSuccessfully]
     ∨ ∃ e, r.2 = [FailedToRestart e]
            ∧ active_detection_threads w' !! interview_id = None)
  ∧ (r.2 = [RestartedSuccessfully] →
     r.1.2 = JsonResponse
               [("success", Bool true);
                ("message", Str "Detection restarted successfully");
                ("detection_active", Bool true)] 200
     ∧ ∃ new,
         active_detection_threads w' !! interview_id = Some new
         ∧ threads w' !! new =
             Some {| detection_engine.interview := interview_id;
                     detection_engine.duration_minutes := minutes;
                     _stop_event := false; alive := true;
                     detection_engine.start_time := clock;
                     focus_lost_start := None; no_face_start := None |}
         ∧ threads w !! new = None
         ∧ (is_detection_active interview_id w').2 = true
         ∧ (status ≠ "ongoing" → ∀ inp,
              is_alive new (run_iteration new inp w') = false
              ∧ event_log (run_iteration new inp w') = event_log w'))
  ∧ (status ≠ "ongoing" → ∀ acts clock',
       run_detection acts clock' request interview_id interview w =
       (w, JsonResponse
             [("status", Str "error");
              ("message", Str "Interview must be ongoing to start detection")]
             400, [])).
Proof.
  intros Hst Hauth. cbv zeta.
  set (minutes := match duration interview with
                  | Some d => if decide (d = 0) then 30 else d
                  | None => 30
                  end).
  assert (Hrun : status ≠ "ongoing" → ∀ acts clock',
       run_detection acts clock' request interview_id interview w =
       (w, JsonResponse
             [("status", Str "error");
              ("message", Str "Interview must be ongoing to start detection")]
             400, [])).
  { intros Hne acts clock'. unfold run_detection. rewrite Hst.
    assert (Hperm : bool_decide (role (user request) ∈ ["admin"; "interviewer"])
                    || bool_decide (interviewer interview = user_id (user request))
                    || bool_decide (candidate interview = user_id (user request))
                    = true).
    { destruct Hauth as [H | H]; rewrite (bool_decide_eq_true_2 _ H); [done |].
      by rewrite orb_true_r. }
    rewrite Hperm. cbn [negb]. by rewrite decide_True. }
  unfold restart_detection. rewrite Hst, (manage_check _ _ _ _ Hauth).
  pose proof (engine_step_stop_detection acts_stop interview_id w)
    as (_ & Hlen & _ & Hi & _).
  destruct (stop_detection_outcome acts_stop interview_id w) as (Hgone & _).
  cbv zeta in Hgone.
  destruct (stop_detection acts_stop interview_id w) as [w1 [e|]]; cbn [fst snd] in *.
  { split; [done |]. split; [right; by exists e |]. split; [done | exact Hrun]. }
  pose proof (engine_step_concurrently acts_sleep w1) as (_ & Hlen2 & _ & Hi2 & _).
  set (w2 := concurrently acts_sleep w1) in *.
  destruct (start_detection_outcome acts_start clock interview_id minutes w2)
    as (Hi3 & _ & _ & Hres).
  cbv zeta in *. fold minutes.
  destruct (start_detection acts_start clock interview_id minutes w2)
    as [w3 [new|e]]; cbn [fst snd] in *.
  - destruct Hres as (Hreg & Hnew & Hfresh & Hact).
    split; [congruence |]. split; [by left |]. split; [| exact Hrun].
    intros _. split; [done |]. exists new. repeat split; try done.
    + apply lookup_ge_None. apply lookup_ge_None in Hfresh. lia.
    + apply (ends_at_next_iteration new _ inp w3 Hnew). right. cbn.
      rewrite Hi3, Hi2, Hi, Hst. congruence.
    + apply (ends_at_next_iteration new _ inp w3 Hnew). right. cbn.
      rewrite Hi3, Hi2, Hi, Hst. congruence.
  - split; [congruence |]. split; [right; by exists e |]. split; [done | exact Hrun].
Qed.

Lemma restart_detection_ignores_status_witness :
  let w := initial_world {[1 := "completed"]} [] in
  let request :=
    {| user := {| user_id := 7; role := "interviewer"; is_staff := false |};
       method := POST |} in
  let interview :=
    {| candidate := 3; interviewer := 8; duration := Some 45;
       start_time := None; end_time := None |} in
  let r := restart_detection [] [] [] 10 request 1 interview w in
  r.2 = [RestartedSuccessfully]
  ∧ (is_detection_active 1 r.1.1).2 = true
  ∧ is_alive 0 (run_iteration 0 (tick_at 10 attentive) r.1.1) = false.
Proof.
  intros w request interview r. subst r.
  destruct (restart_detection_ignores_status [] [] [] 10 request 1 interview w
              "completed") as (_ & _ & H3 & _).
  - reflexivity.
  - left. vm_compute. set_solver.
  - destruct H3 as (_ & new & _ & _ & _ & Hact & Hend); [reflexivity |].
    split; [reflexivity |]. split; [exact Hact |]. vm_compute. reflexivity.
Defined.

(** X15.  [cleanup_threads], for a staff user, reports numbers that add
    up: the entries it cleaned and the entries remaining are together the
    entries the registry had, the remaining ones are exactly those
    [get_active_detection_count] counted as alive, and each of them still
    names a live thread. *)
Theorem cleanup_threads_reports request (w : World) :
  is_staff (user request) = true →
  let r := cleanup_threads request w in
  ∃ cleaned remaining,
    r.1.2 = JsonResponse [("success", Bool true);
                          ("cleaned_threads", Int cleaned);
                          ("remaining_threads", Int remaining)] 200
    ∧ r.2 = [CleanedUp cleaned]
    ∧ cleaned + remaining = Z.of_nat (size (active_detection_threads w))
    ∧ remaining = (get_active_detection_count w).2
    ∧ 0 ≤ cleaned
    ∧ (∀ id t, active_detection_threads r.1.1 !! id = Some t →
         is_alive t r.1.1 = true).
Proof.
  intros Hstaff. cbv zeta. unfold cleanup_threads. rewrite Hstaff. cbn [negb].
  destruct (cleanup_exact w) as (Hr & Hn & Hsum & Ht & _). cbv zeta in *.
  assert (0 ≤ (get_active_detection_count w).2).
  { unfold get_active_detection_count. cbn. lia. }
  assert (0 ≤ (cleanup_inactive_threads w).2).
  { unfold cleanup_inactive_threads. destruct (foldl _ _ _). cbn. lia. }
  destruct (cleanup_inactive_threads w) as [w1 cleaned]. cbn [fst snd] in *.
  eexists _, _. split; [reflexivity |]. split; [reflexivity |].
  split; [lia |]. split; [lia |]. split; [lia |].
  intros id t Hreg. apply Hr in Hreg as [_ Ha]. unfold is_alive in *. by rewrite Ht.
Qed.

Lemma cleanup_threads_reports_witness :
  let w := run_ops [Start [] 0 1 30; Start [] 0 2 30; SaveInterview 2 "completed";
                    Tick 1 (tick_at 2 attentive);
                    Start [] 0 2 30; SaveInterview 2 "completed"]
             (initial_world {[1 := "ongoing"; 2 := "ongoing"]} []) in
  let request :=
    {| user := {| user_id := 1; role := "admin"; is_staff := true |};
       method := POST |} in
  ∃ cleaned remaining,
    (cleanup_threads request w).1.2 =
      JsonResponse [("success", Bool true);
                    ("cleaned_threads", Int cleaned);
                    ("remaining_threads", Int remaining)] 200
    ∧ cleaned + remaining = 2.
Proof.
  intros w request.
  destruct (cleanup_threads_reports request w) as (c & r & H1 & _ & H3 & _).
  - reflexivity.
  - exists c, r. split; [exact H1 |]. rewrite H3. vm_compute. reflexivity.
Defined.

End DetectionViews.

(** * Video analysis, the summary and the printed report *)

Section Tables.
Import models reports detection_engine.

Lemma analyze_fold (interview_id : Z) (draws : nat → nat * Q * Q)
    (fails : nat → bool) (rounds : list nat) :
  ∀ (tbl : list EventLog) (c : Z),
  let r := foldl (video_analysis.analyze_round draws fails interview_id)
             (tbl, c) rounds in
  ∃ rows,
    r.1 = tbl ++ rows
    ∧ r.2 = c + Z.of_nat (length rows)
    ∧ length rows = length (filter (λ i, fails i = false) rounds)
    ∧ (QuerySet.insertion_ordered tbl → QuerySet.insertion_ordered (tbl ++ rows))
    ∧ Forall (λ e, models.interview e = interview_id
                   ∧ event_type e ∈ ["focus_loss"; "phone_detected"; "notes_detected"]
                   ∧ ∃ i, i ∈ rounds ∧ fails i = false
                        ∧ confidence_score e = uniform 0.7 0.9 (draws i).1.2)
        rows.
Proof.
  cbv zeta. induction rounds as [|i rounds IH]; intros tbl c; cbn [foldl].
  - exists []. rewrite app_nil_r. cbn [fst snd length filter list_filter].
    split; [reflexivity |]. split; [lia |]. split; [reflexivity |].
    split; [tauto | constructor].
  - destruct (draws i) as [[k u] now] eqn:Hd.
    destruct (fails i) eqn:Hf.
    + assert (Hstep : video_analysis.analyze_round draws fails interview_id (tbl, c) i
                      = (tbl, c)).
      { unfold video_analysis.analyze_round, try_log_event.
        rewrite Hd, Hf. reflexivity. }
      rewrite Hstep.
      destruct (IH tbl c) as (rows & Ht & Hc & Hl & Ho & Hall).
      exists rows. rewrite filter_cons, decide_False by congruence.
      split; [exact Ht |]. split; [exact Hc |]. split; [exact Hl |].
      split; [exact Ho |].
      eapply Forall_impl; [exact Hall |]. cbn beta.
      intros e (He & Hty & j & Hj & Hfj & Hconf).
      split; [exact He |]. split; [exact Hty |].
      exists j. split; [apply elem_of_cons; by right |]. split; assumption.
    + set (ty := choice k ["focus_loss"; "phone_detected"; "notes_detected"]).
      set (row := {| pk := QuerySet.next_pk tbl; models.interview := interview_id;
                     event_type := ty; timestamp := now;
                     description :=
                       "Video analysis detection " +:+ pretty (Z.of_nat i + 1)
                       +:+ ": " +:+ ty;
                     confidence_score := uniform 0.7 0.9 u |}).
      assert (Hstep : video_analysis.analyze_round draws fails interview_id (tbl, c) i
                      = (tbl ++ [row], c + 1)).
      { unfold video_analysis.analyze_round, try_log_event.
        rewrite Hd, Hf. reflexivity. }
      rewrite Hstep.
      destruct (IH (tbl ++ [row]) (c + 1)) as (rows & Ht & Hc & Hl & Ho & Hall).
      exists (row :: rows). rewrite Ht, Hc. rewrite <- app_assoc.
      rewrite filter_cons, decide_True by exact Hf. cbn [app length].
      split; [reflexivity |]. split; [lia |]. split; [by rewrite Hl |]. split.
      * intros Hs. rewrite cons_middle, app_assoc. apply Ho.
        by apply (create_insertion_ordered now interview_id ty _ _ tbl).
      * constructor.
        -- split; [reflexivity |]. split.
           ++ change (event_type row) with ty. unfold ty, choice. cbn [length].
              assert (Hk : (k `mod` 3 < 3)%nat) by (apply Nat.mod_upper_bound; lia).
              destruct (k `mod` 3)%nat as [|[|[|?]]]; cbn [lookup list_lookup default];
                [set_solver .. | lia].
           ++ exists i. split; [apply elem_of_cons; by left |].
              split; [exact Hf |]. rewrite Hd. reflexivity.
        -- eapply Forall_impl; [exact Hall |]. cbn beta.
           intros e (He & Hty & j & Hj & Hfj & Hconf).
           split; [exact He |]. split; [exact Hty |].
           exists j. split; [apply elem_of_cons; by right |]. split; assumption.
Qed.

(** X17.  [analyze_video_file] returns the number of rows it inserted: one
    for each of its rounds whose insert does not raise, so at most the
    number [random.randint(0, 3)] drew, which is at most 3, and exactly that
    number when no insert raises.  The rows are appended in key order, all
    for the interview given, each of type ['focus_loss'], ['phone_detected']
    or ['notes_detected'], with the confidence [random.uniform(0.7, 0.9)]
    returned in its round. *)
Theorem analyze_video_file_spec (n : nat) (draws : nat → nat * Q * Q)
    (fails : nat → bool) (interview_id : Z) (tbl : list EventLog) :
  (n ≤ 3)%nat →
  let r := video_analysis.analyze_video_file n draws fails interview_id tbl in
  ∃ rows,
    r.1 = tbl ++ rows
    ∧ r.2 = Z.of_nat (length rows)
    ∧ length rows = length (filter (λ i, fails i = false) (seq 0 n))
    ∧ (length rows ≤ n)%nat
    ∧ ((∀ i, (i < n)%nat → fails i = false) → length rows = n)
    ∧ 0 ≤ r.2 ≤ 3
    ∧ (QuerySet.insertion_ordered tbl → QuerySet.insertion_ordered r.1)
    ∧ Forall (λ e, models.interview e = interview_id
                   ∧ event_type e ∈ ["focus_loss"; "phone_detected"; "notes_detected"]
                   ∧ ∃ i, (i < n)%nat ∧ fails i = false
                        ∧ confidence_score e = uniform 0.7 0.9 (draws i).1.2)
        rows.
Proof.
  intros Hn. cbv zeta. unfold video_analysis.analyze_video_file.
  destruct (analyze_fold interview_id draws fails (seq 0 n) tbl 0)
    as (rows & Ht & Hc & Hl & Ho & Hall).
  cbv zeta in *.
  assert (Hle : (length rows ≤ n)%nat).
  { rewrite Hl. etrans; [apply length_filter |]. by rewrite length_seq. }
  exists rows. rewrite Ht, Hc. split; [reflexivity |]. split; [lia |].
  split; [exact Hl |]. split; [exact Hle |]. split; [| split; [lia |]; split; [exact Ho |]].
  - intros Hok. rewrite Hl.
    assert (Hall' : Forall (λ i, fails i = false) (seq 0 n)).
    { apply Forall_forall. intros i Hi. apply Hok.
      apply elem_of_seq in Hi. lia. }
    assert (Hgen : ∀ l : list nat,
              Forall (λ i, fails i = false) l →
              length (filter (λ i, fails i = false) l) = length l).
    { intros l Hok'. induction Hok' as [|i l Hi _ IH]; [reflexivity |].
      rewrite filter_cons, decide_True by exact Hi. cbn [length].
      by rewrite IH. }
    rewrite Hgen by exact Hall'. apply length_seq.
  - eapply Forall_impl; [exact Hall |]. cbn beta.
    intros e (He & Hty & i & Hi & Hfi & Hconf).
    split; [exact He |]. split; [exact Hty |].
    exists i. split; [apply elem_of_seq in Hi; lia |]. split; assumption.
Qed.

Lemma analyze_video_file_spec_witness :
  let draws := λ i : nat, (i, 0.5%Q, inject_Z (Z.of_nat i)) in
  let fails := λ i : nat, bool_decide (i = 1%nat) in
  ∃ rows,
    (video_analysis.analyze_video_file 3 draws fails 4 []).1 = [] ++ rows
    ∧ (video_analysis.analyze_video_file 3 draws fails 4 []).2 = 2
    ∧ event_type <$> rows = ["focus_loss"; "notes_detected"].
Proof.
  intros draws fails.
  destruct (analyze_video_file_spec 3 draws fails 4 []) as (rows & H1 & H2 & H3 & _).
  - lia.
  - exists rows. split; [exact H1 |]. split; [rewrite H2, H3; reflexivity |].
    cbn [app] in H1. rewrite <- H1. vm_compute. reflexivity.
Defined.

Lemma count_in_cons (ty : string) (tys : list string) (qs : list EventLog) :
  ty ∉ tys →
  length (filter (λ e, event_type e ∈ ty :: tys) qs)
  = (length (filter (λ e, event_type e = ty) qs)
     + length (filter (λ e, event_type e ∈ tys) qs))%nat.
Proof.
  intros Hty. induction qs as [|e qs IH]; [done |].
  rewrite !filter_cons.
  destruct (decide (event_type e = ty)) as [Heq | Hne];
    destruct (decide (event_type e ∈ tys)) as [Hin | Hnin].
  - exfalso. apply Hty. by rewrite <- Heq.
  - rewrite decide_True by (apply elem_of_cons; by left). cbn [length]. lia.
  - rewrite decide_True by (apply elem_of_cons; by right). cbn [length]. lia.
  - rewrite decide_False; [done |].
    intros H. apply elem_of_cons in H as [? | ?]; done.
Qed.

Lemma filter_all_length {A} (P : A → Prop) `{∀ x, Decision (P x)} (l : list A) :
  (length (filter P l) ≤ length l)%nat
  ∧ (length (filter P l) = length l ↔ Forall P l).
Proof.
  induction l as [|x l [IHle IHiff]]; [by split |].
  rewrite filter_cons. case_decide as Hx; cbn [length].
  - split; [lia |]. rewrite Forall_cons. split.
    + intros Hl. split; [done |]. apply IHiff. lia.
    + intros [_ Hl]. apply IHiff in Hl. lia.
  - split; [lia |]. rewrite Forall_cons. split; [lia | by intros [? _]].
Qed.

(** X18.  In the summary of an interview the seven per-type counters never
    add up to more than [total_events], and they add up to it exactly when
    every event of the interview has one of the seven types the summary has
    a key for -- which leaves out the declared types ['focus_lost'] and
    ['audio_anomaly'].  The page [end_interview] shows on GET carries the
    summary's total and score, and showing it changes nothing. *)
Theorem summary_counters_and_total (i : Z) (tbl : list EventLog) :
  let s := get_detection_summary i tbl in
  let keyed :=
    focus_loss s + no_face s + multiple_faces s + phone_detected s
    + notes_detected s + device_detected s + drowsiness s in
  0 ≤ keyed ≤ total_events s
  ∧ (keyed = total_events s ↔
     Forall (λ e, event_type e ∈
                    ["focus_loss"; "no_face"; "multiple_faces"; "phone_detected";
                     "notes_detected"; "device_detected"; "drowsiness"])
       (QuerySet.filter_interview i tbl))
  ∧ (∀ acts acts_force now request row (w : World),
       event_log w = tbl →
       is_Some (interviews w !! i) →
       http.method request = http.GET →
       http.role (http.user request) ∈ ["admin"; "interviewer"]
         ∨ interviews_models.interviewer row = http.user_id (http.user request) →
       let r := interviews_views.end_interview acts acts_force now request i row w in
       r.1 = (w, row)
       ∧ interviews_views.response r.2 =
           interviews_views.Render "interviews/end_interview.html"
             [("total_events", total_events s);
              ("integrity_score", detection_engine.integrity_score s)]).
Proof.
  cbv zeta. unfold get_detection_summary. cbn [total_events focus_loss no_face
    multiple_faces phone_detected notes_detected device_detected drowsiness
    detection_engine.integrity_score].
  set (qs := QuerySet.filter_interview i tbl).
  destruct (filter_all_length
              (λ e, event_type e ∈
                      ["focus_loss"; "no_face"; "multiple_faces"; "phone_detected";
                       "notes_detected"; "device_detected"; "drowsiness"]) qs)
    as [Hle Hiff].
  assert (Hsum :
    length (filter (λ e, event_type e ∈
                      ["focus_loss"; "no_face"; "multiple_faces"; "phone_detected";
                       "notes_detected"; "device_detected"; "drowsiness"]) qs)
    = (length (QuerySet.filter_event_type "focus_loss" qs)
       + (length (QuerySet.filter_event_type "no_face" qs)
       + (length (QuerySet.filter_event_type "multiple_faces" qs)
       + (length (QuerySet.filter_event_type "phone_detected" qs)
       + (length (QuerySet.filter_event_type "notes_detected" qs)
       + (length (QuerySet.filter_event_type "device_detected" qs)
       + length (QuerySet.filter_event_type "drowsiness" qs)))))))%nat).
  { unfold QuerySet.filter_event_type.
    assert (Hnil : length (filter (λ e, event_type e ∈ @nil string) qs) = 0%nat).
    { clear. induction qs as [|e qs IH]; [done |].
      rewrite filter_cons. rewrite decide_False; [done | apply not_elem_of_nil]. }
    rewrite !count_in_cons; [rewrite Hnil; lia | ..];
      intros H; repeat (apply elem_of_cons in H as [H | H]; [discriminate |]);
      by apply elem_of_nil in H. }
  unfold QuerySet.count. split; [lia |]. split.
  - rewrite <- Hiff. lia.
  - intros acts acts_force now request row w Hev [st Hst] Hm Hauth. cbv zeta.
    unfold interviews_views.end_interview.
    rewrite Hst, (manage_check _ _ _ _ Hauth), Hm. cbn [fst snd interviews_views.response].
    rewrite Hev. done.
Qed.

(** X19.  What the printed report says about a report built by
    [generate_report].  The assessment is never ["Excellent"] when a phone,
    notes, a device or several faces were seen.  The recommendations only
    look at four counters: the report says that no significant issues were
    detected exactly when at most 5 focus-lost events and no phone, notes or
    multiple-faces event were counted, whatever the score -- five device
    events alone give the assessment ["Poor"] next to that sentence. *)
Theorem printed_assessment_and_recommendations (i : Z) (tbl : list EventLog) :
  let report := generate_report i tbl in
  let n ty :=
    QuerySet.count (QuerySet.filter_event_type ty (QuerySet.filter_interview i tbl)) in
  (reports_utils.score_text report = "Excellent" →
     n "phone_detected" = 0 ∧ n "notes_detected" = 0
     ∧ n "device_detected" = 0 ∧ n "multiple_faces" = 0)
  ∧ (reports_utils.recommendations report = [reports_utils.NoSignificantIssues] ↔
     n "focus_lost" ≤ 5 ∧ n "phone_detected" = 0 ∧ n "notes_detected" = 0
     ∧ n "multiple_faces" = 0)
  ∧ (1 ≤ length (reports_utils.recommendations report) ≤ 4)%nat
  ∧ (5 ≤ n "device_detected" → n "focus_lost" ≤ 5 → n "phone_detected" = 0 →
     n "notes_detected" = 0 → n "multiple_faces" = 0 →
     reports_utils.score_text report = "Poor"
     ∧ reports_utils.recommendations report = [reports_utils.NoSignificantIssues]).
Proof.
  cbv zeta. unfold reports_utils.score_text, reports_utils.recommendations,
    generate_report. rewrite suspicious_count.
  cbn [integrity_score focus_lost_events phone_detected_events
       notes_detected_events multiple_faces_events calculate_integrity_score
       set_integrity_score fst suspicious_events no_face_events
       device_detected_events drowsiness_events audio_anomaly_events].
  set (qs := QuerySet.filter_interview i tbl).
  assert (Hnn : ∀ ty, 0 ≤ QuerySet.count (QuerySet.filter_event_type ty qs)).
  { intros ty. unfold QuerySet.count. lia. }
  pose proof (Hnn "focus_lost"). pose proof (Hnn "no_face").
  pose proof (Hnn "multiple_faces"). pose proof (Hnn "phone_detected").
  pose proof (Hnn "notes_detected"). pose proof (Hnn "device_detected").
  pose proof (Hnn "drowsiness"). pose proof (Hnn "audio_anomaly"). clear Hnn.
  generalize dependent (QuerySet.count (QuerySet.filter_event_type "focus_lost" qs)).
  generalize dependent (QuerySet.count (QuerySet.filter_event_type "no_face" qs)).
  generalize dependent (QuerySet.count (QuerySet.filter_event_type "multiple_faces" qs)).
  generalize dependent (QuerySet.count (QuerySet.filter_event_type "phone_detected" qs)).
  generalize dependent (QuerySet.count (QuerySet.filter_event_type "notes_detected" qs)).
  generalize dependent (QuerySet.count (QuerySet.filter_event_type "device_detected" qs)).
  generalize dependent (QuerySet.count (QuerySet.filter_event_type "drowsiness" qs)).
  generalize dependent (QuerySet.count (QuerySet.filter_event_type "audio_anomaly" qs)).
  intros au Hau dr Hdr dv Hdv nt Hnt ph Hph mf Hmf nf Hnf fl Hfl.
  cbn [reports.integrity_score reports.set_integrity_score
       reports.focus_lost_events reports.phone_detected_events
       reports.notes_detected_events reports.multiple_faces_events].
  split; [| split; [| split]].
  - repeat case_decide; try done. intros _. lia.
  - repeat case_decide; cbn [app]; split; try done; try lia; intros; lia.
  - repeat case_decide; cbn [app length]; lia.
  - intros. repeat case_decide; try lia. done.
Qed.

Lemma printed_assessment_and_recommendations_witness :
  let tbl :=
    foldr (λ k tbl, QuerySet.create (inject_Z k) 1 "device_detected" "" 1 tbl) []
      [1; 2; 3; 4; 5] in
  reports.integrity_score (generate_report 1 tbl) = 45
  ∧ reports_utils.score_text (generate_report 1 tbl) = "Poor"
  ∧ reports_utils.recommendations (generate_report 1 tbl)
    = [reports_utils.NoSignificantIssues].
Proof.
  intros tbl. split; [vm_compute; reflexivity |].
  destruct (printed_assessment_and_recommendations 1 tbl) as (_ & _ & _ & H).
  apply H; vm_compute; first [reflexivity | discriminate].
Defined.

End Tables.

(** * Events that are not debounced *)

Section Undebounced.
Import detection_engine.

Variable P : LogCall → Prop.
Context `{HP : ∀ c, Decision (P c)}.
Variable cnt : TickInput → nat.
Variable ok : TickInput → Prop.

Hypothesis detect_count : ∀ tid self inp (w : World),
  ok inp →
  ∃ rows,
    event_log (detect tid self inp w).2 = event_log w ++ rows
    ∧ length (filter P (calls_of rows)) = cnt inp.

Lemma run_thread_count tid (inps : list TickInput) :
  ∀ self (w : World),
  threads w !! tid = Some self → alive self = true →
  Forall ok inps →
  is_alive tid (run_thread tid inps w) = true →
  ∃ rows,
    event_log (run_thread tid inps w) = event_log w ++ rows
    ∧ length (filter P (calls_of rows)) = sum_list (cnt <$> inps).
Proof.
  induction inps as [|inp inps IH]; intros self w Hl Ha Hok Hrun.
  - exists []. cbn. by rewrite app_nil_r.
  - apply Forall_cons_1 in Hok as [Hok Hoks].
    change (run_thread tid (inp :: inps) w)
      with (run_thread tid inps (run_iteration tid inp w)) in *.
    destruct (run_iteration_alive tid self inp w Hl Ha)
      as [(w0 & Hfin & Ht & _) | (_ & _ & _ & Hcont)].
    { exfalso. assert (Hl0 : threads w0 !! tid = Some self) by (by rewrite Ht).
      destruct (finish_ends_session tid self w0 Hl0) as (Hd & _ & _ & _ & Hno).
      rewrite Hfin, Hno, Hd in Hrun. discriminate. }
    destruct (detect_frame tid self inp w) as (Ht & _ & _ & _ & _ & _ & _ & Hal & _).
    destruct (detect_count tid self inp w Hok) as (rows1 & Hev & Hcount).
    cbv zeta in *.
    set (self1 := (detect tid self inp w).1) in *.
    set (w1 := (detect tid self inp w).2) in *.
    rewrite Hcont in *.
    destruct (IH self1 (emit (Wait tid poll_interval) (set_thread tid self1 w1)))
      as (rows2 & Hev' & Hcount'); try done.
    { cbn. rewrite Ht. apply list_lookup_insert_eq. by eapply lookup_lt_Some. }
    { by rewrite Hal. }
    exists (rows1 ++ rows2). split.
    + rewrite Hev'. cbn. rewrite Hev. by rewrite app_assoc.
    + rewrite calls_of_app, filter_app, length_app, Hcount, Hcount'. done.
Qed.

End Undebounced.

Section Polling.
Import detection_engine.

Lemma sum_indicator {A} (Q : A → Prop) `{∀ x, Decision (Q x)} (l : list A) :
  sum_list ((λ x, if decide (Q x) then 1%nat else 0%nat) <$> l)
  = length (filter Q l).
Proof.
  induction l as [|x l IH]; [done |].
  cbn [fmap list_fmap sum_list]. rewrite filter_cons.
  fold (fmap (M := list) (λ x, if decide (Q x) then 1%nat else 0%nat) l).
  rewrite IH. by case_decide.
Qed.

Lemma detected_suffix (obj : string) :
  obj +:+ "_detected" ≠ "multiple_faces" ∧ obj +:+ "_detected" ≠ "drowsiness".
Proof.
  split; intros H;
    repeat (destruct obj as [|? obj]; cbn in H;
            [discriminate H | injection H as _ H]);
    destruct obj; discriminate H.
Qed.

Lemma filter_none {A} (Q : A → Prop) `{∀ x, Decision (Q x)} (l : list A) :
  Forall (λ x, ¬ Q x) l → filter Q l = [].
Proof.
  induction 1 as [|x l Hx Hl IH]; [done |].
  rewrite filter_cons. by rewrite decide_False.
Qed.

Lemma filter_all {A} (Q : A → Prop) `{∀ x, Decision (Q x)} (l : list A) :
  Forall Q l → filter Q l = l.
Proof.
  induction 1 as [|x l Hx Hl IH]; [done |].
  rewrite filter_cons. rewrite decide_True by done. by rewrite IH.
Qed.

Lemma detect_multiple_faces_count tid self inp (w : World) :
  insert_error inp = false →
  ∃ rows,
    event_log (detect tid self inp w).2 = event_log w ++ rows
    ∧ length (filter (λ c : LogCall, c.1.1 = "multiple_faces") (calls_of rows))
      = if decide (1 < face_count (readings inp)) then 1%nat else 0%nat.
Proof.
  intros Herr. destruct (detect_rows tid self inp w Herr) as (rows & Hev & Hcalls & _).
  exists rows. split; [done |]. rewrite Hcalls, !filter_app, !length_app.
  rewrite (filter_none _ (focus_detection _ _ _ _).2).
  2: { unfold focus_detection. destruct (focus_maintained _); cbn; [constructor |].
       destruct (focus_lost_start self); cbn; [| constructor].
       destruct (Qlt_le_dec _ _); cbn; repeat constructor. discriminate. }
  rewrite (filter_none _ (object_detection _ _)).
  2: { apply Forall_forall. intros c Hc. unfold object_detection in Hc.
       apply elem_of_lookup_imap_1 in Hc as (k & obj & -> & _). cbn.
       apply detected_suffix. }
  rewrite (filter_none _ (drowsiness_detection _ _)).
  2: { destruct (drowsy _); cbn; repeat constructor. discriminate. }
  cbn [length]. rewrite !Nat.add_0_r.
  unfold face_detection.
  destruct (decide (face_count (readings inp) = 0)) as [H0 | H0].
  - rewrite decide_False by lia.
    destruct (no_face_start self); cbn; [| done].
    by destruct (Qlt_le_dec _ _).
  - destruct (decide (1 < face_count (readings inp))); done.
Qed.

Lemma detect_drowsiness_count tid self inp (w : World) :
  insert_error inp = false →
  ∃ rows,
    event_log (detect tid self inp w).2 = event_log w ++ rows
    ∧ length (filter (λ c : LogCall, c.1.1 = "drowsiness") (calls_of rows))
      = if decide (drowsy (readings inp) = true) then 1%nat else 0%nat.
Proof.
  intros Herr. destruct (detect_rows tid self inp w Herr) as (rows & Hev & Hcalls & _).
  exists rows. split; [done |]. rewrite Hcalls, !filter_app, !length_app.
  rewrite (filter_none _ (focus_detection _ _ _ _).2).
  2: { unfold focus_detection. destruct (focus_maintained _); cbn; [constructor |].
       destruct (focus_lost_start self); cbn; [| constructor].
       destruct (Qlt_le_dec _ _); cbn; repeat constructor. discriminate. }
  rewrite (filter_none _ (face_detection _ _ _ _ _).2).
  2: { unfold face_detection.
       destruct (decide (face_count (readings inp) = 0));
         [| destruct (decide (1 < face_count (readings inp)))]; cbn.
       - destruct (no_face_start self); cbn; [| constructor].
         destruct (Qlt_le_dec _ _); cbn; repeat constructor. discriminate.
       - repeat constructor. discriminate.
       - constructor. }
  rewrite (filter_none _ (object_detection _ _)).
  2: { apply Forall_forall. intros c Hc. unfold object_detection in Hc.
       apply elem_of_lookup_imap_1 in Hc as (k & obj & -> & _). cbn.
       apply detected_suffix. }
  cbn [length plus]. by destruct (drowsy (readings inp)).
Qed.

Lemma detect_objects_count tid self inp (w : World) :
  insert_error inp = false ∧ objects (readings inp) ⊆ ["phone"; "notes"; "device"] →
  ∃ rows,
    event_log (detect tid self inp w).2 = event_log w ++ rows
    ∧ length (filter (λ c : LogCall,
                        c.1.1 ∈ ["phone_detected"; "notes_detected"; "device_detected"])
                (calls_of rows))
      = length (objects (readings inp)).
Proof.
  intros [Herr Hobjs].
  destruct (detect_rows tid self inp w Herr) as (rows & Hev & Hcalls & _).
  exists rows. split; [done |]. rewrite Hcalls, !filter_app, !length_app.
  rewrite (filter_none _ (focus_detection _ _ _ _).2).
  2: { unfold focus_detection. destruct (focus_maintained _); cbn; [constructor |].
       destruct (focus_lost_start self); cbn; [| constructor].
       destruct (Qlt_le_dec _ _); cbn; repeat constructor.
       intros H. repeat (apply elem_of_cons in H as [H | H]; [discriminate |]).
       by apply elem_of_nil in H. }
  rewrite (filter_none _ (face_detection _ _ _ _ _).2).
  2: { unfold face_detection.
       destruct (decide (face_count (readings inp) = 0));
         [| destruct (decide (1 < face_count (readings inp)))]; cbn.
       - destruct (no_face_start self); cbn; [| constructor].
         destruct (Qlt_le_dec _ _); cbn; repeat constructor.
         intros H. repeat (apply elem_of_cons in H as [H | H]; [discriminate |]).
         by apply elem_of_nil in H.
       - repeat constructor.
         intros H. repeat (apply elem_of_cons in H as [H | H]; [discriminate |]).
         by apply elem_of_nil in H.
       - constructor. }
  rewrite (filter_none _ (drowsiness_detection _ _)).
  2: { destruct (drowsy _); cbn; repeat constructor.
       intros H. repeat (apply elem_of_cons in H as [H | H]; [discriminate |]).
       by apply elem_of_nil in H. }
  rewrite (filter_all _ (object_detection _ _)).
  2: { apply Forall_forall. intros c Hc. unfold object_detection in Hc.
       apply elem_of_lookup_imap_1 in Hc as (k & obj & -> & Hk). cbn.
       apply list_elem_of_lookup_2 in Hk. apply Hobjs in Hk.
       repeat (apply elem_of_cons in Hk as [-> | Hk]; [set_solver |]).
       by apply elem_of_nil in Hk. }
  cbn [length plus]. unfold object_detection. rewrite length_imap. lia.
Qed.

(** X21.  Multiple faces, objects and drowsiness are not debounced: a
    session that keeps running, with inserts succeeding, logs one
    [multiple_faces] event on every iteration that sees more than one face,
    one [drowsiness] event on every iteration that sees drowsiness, and one
    event per phone, notes or device in the frame of every iteration -- so
    the number of such events grows with the polling rate, not with the number
    of incidents. *)
Theorem undebounced_events_once_per_iteration tid self (inps : list TickInput)
    (w : World) :
  threads w !! tid = Some self → alive self = true →
  Forall (λ inp, insert_error inp = false
                 ∧ objects (readings inp) ⊆ ["phone"; "notes"; "device"]) inps →
  is_alive tid (run_thread tid inps w) = true →
  ∃ rows,
    event_log (run_thread tid inps w) = event_log w ++ rows
    ∧ length (filter (λ c : LogCall, c.1.1 = "multiple_faces") (calls_of rows))
      = length (filter (λ inp, 1 < face_count (readings inp)) inps)
    ∧ length (filter (λ c : LogCall, c.1.1 = "drowsiness") (calls_of rows))
      = length (filter (λ inp, drowsy (readings inp) = true) inps)
    ∧ length (filter (λ c : LogCall,
                        c.1.1 ∈ ["phone_detected"; "notes_detected"; "device_detected"])
                (calls_of rows))
      = sum_list ((λ inp, length (objects (readings inp))) <$> inps).
Proof.
  intros Hl Ha Hok Hrun.
  assert (Herr : Forall (λ inp, insert_error inp = false) inps).
  { eapply Forall_impl; [exact Hok |]. by intros inp [? _]. }
  destruct (run_thread_count (λ c : LogCall, c.1.1 = "multiple_faces")
              (λ inp, if decide (1 < face_count (readings inp)) then 1%nat else 0%nat)
              (λ inp, insert_error inp = false)
              detect_multiple_faces_count tid inps self w Hl Ha Herr Hrun)
    as (rows & Hev & Hfaces).
  destruct (run_thread_count (λ c : LogCall, c.1.1 = "drowsiness")
              (λ inp, if decide (drowsy (readings inp) = true) then 1%nat else 0%nat)
              (λ inp, insert_error inp = false)
              detect_drowsiness_count tid inps self w Hl Ha Herr Hrun)
    as (rows' & Hev' & Hdrowsy).
  destruct (run_thread_count
              (λ c : LogCall,
                 c.1.1 ∈ ["phone_detected"; "notes_detected"; "device_detected"])
              (λ inp, length (objects (readings inp)))
              (λ inp, insert_error inp = false
                      ∧ objects (readings inp) ⊆ ["phone"; "notes"; "device"])
              detect_objects_count tid inps self w Hl Ha Hok Hrun)
    as (rows'' & Hev'' & Hobjs).
  assert (rows' = rows) as ->.
  { rewrite Hev in Hev'. by apply app_inv_head in Hev'. }
  assert (rows'' = rows) as ->.
  { rewrite Hev in Hev''. by apply app_inv_head in Hev''. }
  exists rows. split; [done |].
  rewrite sum_indicator in Hfaces. rewrite sum_indicator in Hdrowsy. done.
Qed.

Lemma undebounced_events_once_per_iteration_witness :
  let w := (start_detection [] 0 1 30 (initial_world {[1 := "ongoing"]} [])).1 in
  let crowd :=
    {| focus_maintained := true; face_count := 2; objects := ["phone"];
       drowsy := false |} in
  let inps := [tick_at 0 crowd; tick_at 2 crowd; tick_at 4 attentive;
               tick_at 6 crowd] in
  ∃ rows,
    event_log (run_thread 0 inps w) = event_log w ++ rows
    ∧ length (filter (λ c : LogCall, c.1.1 = "multiple_faces") (calls_of rows))
      = 3%nat
    ∧ length (filter (λ c : LogCall,
                        c.1.1 ∈ ["phone_detected"; "notes_detected"; "device_detected"])
                (calls_of rows))
      = 3%nat.
Proof.
  intros w crowd inps.
  destruct (undebounced_events_once_per_iteration 0
              {| interview := 1; duration_minutes := 30; _stop_event := false;
                 alive := true; start_time := 0; focus_lost_start := None;
                 no_face_start := None |} inps w)
    as (rows & H1 & H2 & _ & H4).
  - vm_compute. reflexivity.
  - reflexivity.
  - unfold inps, crowd.
    repeat (apply Forall_cons_2; [split; [reflexivity | cbn; set_solver] |]).
    apply Forall_nil_2.
  - vm_compute. reflexivity.
  - exists rows. split; [exact H1 |]. split; [rewrite H2 | rewrite H4];
      vm_compute; reflexivity.
Defined.

(** A thread whose stop event is set ends at its next iteration, whatever
    the other threads do before. *)
Lemma signalled_thread_ends thread inp (acts : list Act) :
  ∀ (w : World) t,
  threads w !! thread = Some t → _stop_event t = true →
  (thread, inp) ∈ acts →
  is_alive thread (concurrently acts w) = false.
Proof.
  unfold concurrently. induction acts as [|[tid' inp'] acts IH];
    intros w t Hl Hs Hin; [by apply elem_of_nil in Hin |].
  cbn [foldl fst snd]. apply elem_of_cons in Hin as [Heq | Hin].
  - injection Heq as <- <-.
    destruct (ends_at_next_iteration thread t inp w Hl (or_introl Hs)) as [Hd _].
    eapply engine_step_not_alive; [| exact Hd].
    apply (engine_step_concurrently acts).
  - destruct (run_iteration_thread tid' inp' w thread t Hl)
      as (t' & Hl' & _ & _ & _ & Hs' & _).
    apply (IH _ t' Hl'); [congruence | done].
Qed.

Lemma stop_detection_clean acts interview_id thread t inp (w : World) :
  active_detection_threads w !! interview_id = Some thread →
  threads w !! thread = Some t →
  (thread, inp) ∈ acts →
  let w' := (stop_detection acts interview_id w).1 in
  is_alive thread w' = false
  ∧ (stop_detection acts interview_id w).2 = None
  ∧ Join thread 10 false ∈ trace w'
  ∧ active_detection_threads w' !! interview_id = None.
Proof.
  intros Hreg Hl Hin. cbv zeta.
  destruct (stop_detection_outcome acts interview_id w) as (Hgone & _ & Hsome).
  destruct (Hsome thread Hreg) as (_ & Hjoin & _ & _ & Hres).
  destruct (stop_detection_tail acts interview_id thread w Hreg) as (Haj & _).
  cbv zeta in *.
  assert (Hdead : is_alive thread (stop_detection acts interview_id w).1 = false).
  { rewrite (is_alive_after_join _ _ thread Haj). unfold join.
    change (is_alive thread (emit ?e ?w1)) with (is_alive thread w1).
    set (w0 := emit (Print (FoundActiveThread interview_id))
                 (emit (Print (AttemptingToStop interview_id)) w)).
    destruct (stop_thread thread w0 thread t Hl) as (t' & Hl' & _ & _ & Hs & _).
    apply (signalled_thread_ends thread inp acts _ t' Hl'); [by apply Hs | done]. }
  split; [exact Hdead |]. split; [by apply Hres |].
  split; [by rewrite Hdead in Hjoin | exact Hgone].
Qed.

(** X22.  [stop_detection] stops a session cleanly as soon as its thread
    gets to run once during the join: whatever else happens meanwhile, the
    thread is then no longer alive when the call returns, the join is
    recorded as successful, nothing is raised and the registry holds no
    entry for the interview. *)
Theorem stop_detection_stops_a_polling_thread acts interview_id thread t inp
    (w : World) :
  active_detection_threads w !! interview_id = Some thread →
  threads w !! thread = Some t →
  (thread, inp) ∈ acts →
  let w' := (stop_detection acts interview_id w).1 in
  is_alive thread w' = false
  ∧ (stop_detection acts interview_id w).2 = None
  ∧ Join thread 10 false ∈ trace w'
  ∧ active_detection_threads w' !! interview_id = None.
Proof. apply stop_detection_clean. Qed.

Lemma stop_detection_stops_a_polling_thread_witness :
  let w := run_ops [Start [] 0 1 30; Start [] 0 2 30]
             (initial_world {[1 := "ongoing"; 2 := "ongoing"]} []) in
  let acts := [(0%nat, tick_at 2 attentive); (1%nat, tick_at 2 attentive);
               (1%nat, tick_at 4 attentive)] in
  is_alive 1 w = true
  ∧ is_alive 1 (stop_detection acts 2 w).1 = false
  ∧ is_alive 0 (stop_detection acts 2 w).1 = true
  ∧ Join 1 10 false ∈ trace (stop_detection acts 2 w).1.
Proof.
  intros w acts.
  destruct (stop_detection_stops_a_polling_thread acts 2 1%nat
              {| interview := 2; duration_minutes := 30; _stop_event := false;
                 alive := true; start_time := 0; focus_lost_start := None;
                 no_face_start := None |} (tick_at 4 attentive) w)
    as (H1 & _ & H3 & _).
  - vm_compute. reflexivity.
  - vm_compute. reflexivity.
  - unfold acts. set_solver.
  - split; [vm_compute; reflexivity |]. split; [exact H1 |].
    split; [vm_compute; reflexivity | exact H3].
Defined.

End Polling.

(** * An interview from start to end *)

Section RoundTrip.
Import detection_engine interviews_models http interviews_views.

Lemma start_interview_world acts now clock request interview_id row (w : World) :
  is_Some (interviews w !! interview_id) →
  method request = POST →
  role (user request) ∈ ["admin"; "interviewer"]
    ∨ interviewer row = user_id (user request) →
  let minutes :=
    match duration row with
    | Some d => if decide (d = 0) then 30 else d
    | None => 30
    end in
  let sd :=
    start_detection acts clock interview_id minutes
      (set_interviews (<[interview_id := "ongoing"]> (interviews w)) w) in
  let r := start_interview acts now clock request interview_id row w in
  r.1.1 = sd.1
  ∧ interviewer r.1.2 = interviewer row
  ∧ (∀ new, sd.2 = inl new → messages r.2 = [InterviewStarted]).
Proof.
  intros [st Hst] Hm Hauth. cbv zeta. unfold start_interview.
  rewrite Hst, (manage_check _ _ _ _ Hauth), Hm.
  set (saved := match start_time row with
                | None => with_start_time (Some now) row
                | Some t =>
                    if Qlt_le_dec 300 (now - t)
                    then with_start_time (Some now) row
                    else row
                end).
  assert (Hsaved : duration saved = duration row ∧ interviewer saved = interviewer row).
  { unfold saved. destruct (start_time row); [destruct (Qlt_le_dec _ _) |]; done. }
  destruct Hsaved as [-> Hint].
  destruct (start_detection acts clock interview_id _ _) as [w1 [new|e]];
    cbn [fst snd messages]; repeat split; try done.
Qed.

Lemma end_interview_world acts acts_force now request interview_id row (w : World) :
  is_Some (interviews w !! interview_id) →
  method request = POST →
  role (user request) ∈ ["admin"; "interviewer"]
    ∨ interviewer row = user_id (user request) →
  let sd :=
    stop_detection acts interview_id
      (set_interviews (<[interview_id := "completed"]> (interviews w)) w) in
  let r := end_interview acts acts_force now request interview_id row w in
  threads r.1.1 = threads sd.1
  ∧ active_detection_threads r.1.1 !! interview_id = None
  ∧ interviews r.1.1 = <[interview_id := "completed"]> (interviews w)
  ∧ event_log r.1.1 = event_log sd.1.
Proof.
  intros [st Hst] Hm Hauth. cbv zeta. unfold end_interview.
  rewrite Hst, (manage_check _ _ _ _ Hauth), Hm.
  set (w0 := set_interviews (<[interview_id := "completed"]> (interviews w)) w).
  pose proof (engine_step_stop_detection acts interview_id w0)
    as (_ & _ & _ & Hi & _).
  destruct (stop_detection_outcome acts interview_id w0) as (Hgone & _).
  cbv zeta in Hgone.
  destruct (stop_detection acts interview_id w0) as [w1 [e|]]; cbn [fst snd] in *.
  - rewrite Hi. unfold w0. cbn [interviews set_interviews].
    rewrite lookup_insert_eq. done.
  - unfold is_detection_active. rewrite Hgone. cbn [interviews emit].
    rewrite Hi. unfold w0. cbn [interviews set_interviews].
    rewrite lookup_insert_eq. done.
Qed.

Lemma start_detection_fresh acts now interview_id duration_minutes (w : World) :
  active_detection_threads w !! interview_id = None →
  (start_detection acts now interview_id duration_minutes w).2
  = inl (length (threads w)).
Proof.
  intros Hnone.
  destruct (start_detection_spec acts now interview_id duration_minutes w _
              (stop_detection_absent acts interview_id
                 (emit (Print (StartingDetection interview_id)) w) Hnone))
    as (Hres & _).
  exact Hres.
Qed.

(** A thread alive after a step that registers no session was alive
    before, for the same interview. *)
Lemma engine_step_live_session (w w' : World) id tid :
  engine_step w w' → live_session w' id tid → live_session w id tid.
Proof.
  intros (Ht & Hlen & _) (t' & Hl' & Ha & Hi).
  assert (Hlt : (tid < length (threads w))%nat).
  { rewrite <- Hlen. by eapply lookup_lt_Some. }
  apply lookup_lt_is_Some in Hlt as [t Hl].
  destruct (Ht tid t Hl) as (t2 & Hl2 & Hiv & _ & _ & Hd & _).
  assert (t2 = t') as -> by congruence.
  exists t. split; [done |]. split; [| congruence].
  destruct (alive t); [done |]. rewrite Hd in Ha; done.
Qed.

(** X23.  From start to end.  In a state where every live session is the
    registered one and the interview has no session, an authorised
    [start_interview] followed by an authorised [end_interview] leaves no live
    detection session for the interview, provided the session's thread gets
    to run once while [end_interview] waits in the join: in between the
    session is live and registered, afterwards the interview is
    ['completed'], the registry has no entry for it and the events logged
    meanwhile are kept. *)
Theorem start_then_end_leaves_no_session acts1 acts2 acts_force now now' clock
    request interview_id row inp (w : World) :
  sessions_registered w →
  active_detection_threads w !! interview_id = None →
  is_Some (interviews w !! interview_id) →
  method request = POST →
  role (user request) ∈ ["admin"; "interviewer"]
    ∨ interviewer row = user_id (user request) →
  (length (threads w), inp) ∈ acts2 →
  let r1 := start_interview acts1 now clock request interview_id row w in
  let r2 := end_interview acts2 acts_force now' request interview_id r1.1.2 r1.1.1 in
  messages r1.2 = [InterviewStarted]
  ∧ live_session r1.1.1 interview_id (length (threads w))
  ∧ active_detection_threads r1.1.1 !! interview_id = Some (length (threads w))
  ∧ (∀ tid, ¬ live_session r2.1.1 interview_id tid)
  ∧ interviews r2.1.1 !! interview_id = Some "completed"
  ∧ active_detection_threads r2.1.1 !! interview_id = None
  ∧ event_log w `prefix_of` event_log r2.1.1.
Proof.
  intros Hs Hnone Hex Hm Hauth Hin. cbv zeta.
  destruct (start_interview_world acts1 now clock request interview_id row w
              Hex Hm Hauth) as (Hw1 & Hint & Hmsg).
  cbv zeta in *.
  set (minutes := match duration row with
                  | Some d => if decide (d = 0) then 30 else d
                  | None => 30
                  end) in *.
  set (w0 := set_interviews (<[interview_id := "ongoing"]> (interviews w)) w) in *.
  assert (Hs0 : sessions_registered w0) by exact Hs.
  assert (Hnone0 : active_detection_threads w0 !! interview_id = None)
    by exact Hnone.
  pose proof (start_detection_fresh acts1 clock interview_id minutes w0 Hnone0)
    as Hres.
  change (length (threads w0)) with (length (threads w)) in Hres.
  destruct (start_detection_outcome acts1 clock interview_id minutes w0)
    as (Hi1 & Hp1 & _ & Hnew).
  cbv zeta in Hnew. rewrite Hres in Hnew.
  destruct Hnew as (Hreg1 & Hth1 & _ & _).
  pose proof (history_step_start_detection acts1 clock interview_id minutes w0)
    as (Hage1 & Horigin1 & _).
  set (r1 := start_interview acts1 now clock request interview_id row w) in *.
  set (w1 := r1.1.1) in *.
  assert (Hlive1 : ∀ tid, live_session w1 interview_id tid →
                          tid = length (threads w)).
  { intros tid (t1 & Hl1 & Ha1 & Hiv1).
    destruct (decide (tid = length (threads w))) as [| Hne]; [done |].
    exfalso. rewrite Hw1 in Hl1.
    assert (Hold : is_Some (threads w0 !! tid)).
    { destruct (lookup_lt_is_Some_2 (threads w0) tid) as [t0 Hl0]; [| by eexists].
      pose proof (lookup_lt_Some _ _ _ Hl1) as Hlt.
      pose proof (stop_detection_length acts1 interview_id
                    (emit (Print (StartingDetection interview_id)) w0)) as Hlen.
      destruct (stop_detection acts1 interview_id
                  (emit (Print (StartingDetection interview_id)) w0))
        as [ws res] eqn:Hsd.
      pose proof (stop_detection_absent acts1 interview_id
                    (emit (Print (StartingDetection interview_id)) w0) Hnone0) as Hn.
      rewrite Hsd in Hn. injection Hn as _ ->.
      destruct (start_detection_spec acts1 clock interview_id minutes w0 ws Hsd)
        as (_ & Hth & _).
      cbv zeta in Hth. rewrite Hth in Hlt. rewrite length_app in Hlt.
      cbn [fst length threads emit] in Hlt, Hlen.
      change (threads w0) with (threads w) in *. lia. }
    destruct Hold as [t0 Hl0].
    destruct (Hage1 tid t0 Hl0) as (t1' & Hl1' & Hiv & _ & _ & Hd & _).
    assert (t1' = t1) as -> by congruence.
    assert (Ha0 : alive t0 = true).
    { destruct (alive t0); [done |]. rewrite Hd in Ha1; done. }
    pose proof (Hs tid t0 Hl0 Ha0) as Hmine.
    rewrite <- Hiv, Hiv1, Hnone in Hmine. done. }
  assert (Hex1 : is_Some (interviews w1 !! interview_id)).
  { rewrite Hw1, Hi1. unfold w0. cbn [interviews set_interviews].
    rewrite lookup_insert_eq. by eexists. }
  assert (Hauth1 : role (user request) ∈ ["admin"; "interviewer"]
                   ∨ interviewer r1.1.2 = user_id (user request)).
  { rewrite Hint. exact Hauth. }
  destruct (end_interview_world acts2 acts_force now' request interview_id r1.1.2 w1
              Hex1 Hm Hauth1) as (Hth2 & Hreg2 & Hi2 & Hev2).
  cbv zeta in *.
  set (w1c := set_interviews (<[interview_id := "completed"]> (interviews w1)) w1) in *.
  assert (Hreg1c : active_detection_threads w1c !! interview_id
                   = Some (length (threads w))).
  { unfold w1c. cbn [active_detection_threads set_interviews].
    rewrite Hw1. exact Hreg1. }
  assert (Hth1c : threads w1c !! length (threads w) = Some
            {| detection_engine.interview := interview_id;
               detection_engine.duration_minutes := minutes;
               _stop_event := false; alive := true;
               detection_engine.start_time := clock;
               focus_lost_start := None; no_face_start := None |}).
  { unfold w1c. cbn [threads set_interviews]. rewrite Hw1. exact Hth1. }
  destruct (stop_detection_clean acts2 interview_id (length (threads w)) _ inp w1c
              Hreg1c Hth1c Hin) as (Hdead & _).
  cbv zeta in Hdead.
  pose proof (engine_step_stop_detection acts2 interview_id w1c) as Hstep.
  split; [by apply (Hmsg (length (threads w))) |].
  split; [eexists; rewrite Hw1; by split; [exact Hth1 |] |].
  split; [by rewrite Hw1 |].
  split; [| split; [by rewrite Hi2, lookup_insert_eq | split; [exact Hreg2 |]]].
  - intros tid Hlive2.
    assert (Hlive_sd : live_session (stop_detection acts2 interview_id w1c).1
                         interview_id tid).
    { destruct Hlive2 as (t & Hl & Ha & Hiv). exists t. by rewrite <- Hth2. }
    pose proof (engine_step_live_session _ _ _ _ Hstep Hlive_sd) as Hlive1c.
    assert (tid = length (threads w)) as -> by (by apply Hlive1).
    destruct Hlive_sd as (t & Hl & Ha & _).
    unfold is_alive in Hdead. rewrite Hl in Hdead. congruence.
  - rewrite Hev2. destruct Hstep as (_ & _ & _ & _ & Hp2 & _).
    etrans; [| exact Hp2]. unfold w1c. cbn [event_log set_interviews].
    rewrite Hw1. exact Hp1.
Qed.

Lemma start_then_end_leaves_no_session_witness :
  let w := initial_world {[1 := "scheduled"]} [] in
  let request :=
    {| user := {| user_id := 7; role := "interviewer"; is_staff := false |};
       method := POST |} in
  let row :=
    {| candidate := 3; interviewer := 7; duration := Some 45;
       start_time := None; end_time := None |} in
  let r1 := start_interview [] 0 0 request 1 row w in
  let r2 := end_interview [(0%nat, tick_at 2 attentive)] (λ _, []) 60 request 1
              r1.1.2 r1.1.1 in
  live_session r1.1.1 1 0
  ∧ (∀ tid, ¬ live_session r2.1.1 1 tid)
  ∧ interviews r2.1.1 !! 1 = Some "completed".
Proof.
  intros w request row r1 r2.
  destruct (start_then_end_leaves_no_session [] [(0%nat, tick_at 2 attentive)]
              (λ _, []) 0 60 0 request 1 row (tick_at 2 attentive) w)
    as (_ & H2 & _ & H4 & H5 & _).
  - intros tid t Hl. cbn in Hl. by rewrite lookup_nil in Hl.
  - reflexivity.
  - vm_compute. eauto.
  - reflexivity.
  - left. vm_compute. set_solver.
  - cbn. set_solver.
  - split; [exact H2 |]. split; [exact H4 | exact H5].
Defined.

End RoundTrip.
